(** * chrome-claude: workflow validation, prompt composition, discovery and execution

    A shallow embedding of the TypeScript sources
    (workflow.ts, validator.ts, prompt-builder.ts, loader.ts, runner.ts,
    and the reading of parameters in cli.ts)
    together with the properties the specification states about them.

    Conventions of the embedding:
    - a JavaScript string is a [string]: the sequence of the bytes of its
      UTF-8 encoding;
    - an object used as a dictionary is an association list of its own
      enumerable properties in enumeration order (the prototype chain is not
      modelled);
    - a number is kept as an exact signed decimal together with NaN and the
      two infinities; the range of the binary64 format is modelled (overflow
      to an infinity, underflow to zero), rounding of the significand is not. *)

From Stdlib Require Import ZArith NArith String Ascii List Bool Lia.
From stdpp Require Import base option list gmap strings pretty.

Set Warnings "-register-all,-abstract-large-number".

(** ** The JavaScript runtime the sources rely on *)
Module JS.

(** *** Strings *)

Definition byte (n : nat) : ascii := ascii_of_nat n.

Fixpoint bytes (l : list nat) : string :=
  match l with
  | [] => ""
  | n :: l' => String (byte n) (bytes l')
  end.

(** The double quote character. *)
Definition dquote : ascii := Eval cbv in ascii_of_nat 34.

(** [strip_prefix p s] is [Some r] exactly when [s = p +:+ r]. *)
Fixpoint strip_prefix (p s : string) : option string :=
  match p with
  | "" => Some s
  | String c p' =>
      match s with
      | String d s' => if Ascii.eqb c d then strip_prefix p' s' else None
      | "" => None
      end
  end.

(** [s.startsWith(p)] *)
Definition startsWith (s p : string) : bool :=
  match strip_prefix p s with Some _ => true | None => false end.

(** [s.endsWith(p)] *)
Definition endsWith (s p : string) : bool :=
  startsWith (String.rev s) (String.rev p).

(** [s.includes(sub)] *)
Fixpoint includes (s sub : string) : bool :=
  startsWith s sub ||
  match s with
  | "" => false
  | String _ s' => includes s' sub
  end.

(** [s.slice(n)] for a non-negative [n] *)
Fixpoint slice (n : nat) (s : string) : string :=
  match n, s with
  | O, _ => s
  | S n', String _ s' => slice n' s'
  | S _, "" => ""
  end.

Fixpoint split_go (sep : ascii) (cur : string) (s : string) : list string :=
  match s with
  | "" => [String.rev cur]
  | String c s' =>
      if Ascii.eqb c sep then String.rev cur :: split_go sep "" s'
      else split_go sep (String c cur) s'
  end.

(** [s.split(sep)] for a one-character separator *)
Definition split (sep : ascii) (s : string) : list string := split_go sep "" s.

(** [xs.join(sep)] on an array of strings *)
Definition join (sep : string) (xs : list string) : string := String.concat sep xs.


(** The code points ECMAScript counts as white space or line terminator,
    as UTF-8 byte sequences: TAB, LF, VT, FF, CR, SP, U+00A0, U+1680,
    U+2000..U+200A, U+2028, U+2029, U+202F, U+205F, U+3000, U+FEFF. *)
Definition white_space : list string :=
  map bytes
    [ [9]; [10]; [11]; [12]; [13]; [32]; [194; 160]; [225; 154; 128];
      [226; 128; 128]; [226; 128; 129]; [226; 128; 130]; [226; 128; 131];
      [226; 128; 132]; [226; 128; 133]; [226; 128; 134]; [226; 128; 135];
      [226; 128; 136]; [226; 128; 137]; [226; 128; 138];
      [226; 128; 168]; [226; 128; 169]; [226; 128; 175]; [226; 129; 159];
      [227; 128; 128]; [239; 187; 191] ].

(** Removes one leading sequence out of [seqs], if there is one. *)
Fixpoint strip_one (seqs : list string) (s : string) : option string :=
  match seqs with
  | [] => None
  | p :: seqs' =>
      match strip_prefix p s with
      | Some r => Some r
      | None => strip_one seqs' s
      end
  end.

Fixpoint strip_many (fuel : nat) (seqs : list string) (s : string) : string :=
  match fuel with
  | O => s
  | S fuel' =>
      match strip_one seqs s with
      | Some r => strip_many fuel' seqs r
      | None => s
      end
  end.

(** [s.trimStart()] *)
Definition trimStart (s : string) : string :=
  strip_many (String.length s) white_space s.

(** [s.trimEnd()]: the same scan on the reversed string, with the byte
    sequences reversed. *)
Definition trimEnd (s : string) : string :=
  String.rev (strip_many (String.length s) (map String.rev white_space) (String.rev s)).

(** [s.trim()] *)
Definition trim (s : string) : string := trimEnd (trimStart s).

(** A string made of white space only. *)
Inductive blank : string -> Prop :=
| blank_nil : blank ""
| blank_cons w s : w ∈ white_space -> blank s -> blank (w +:+ s).

(** *** Numbers *)

(** [Finite neg m e] stands for [(-1)^neg * m * 10^e]. *)
Inductive number :=
| NaN
| Infinity (neg : bool)
| Finite (neg : bool) (m : N) (e : Z).

(** [isNaN(n)] on a number *)
Definition isNaN (n : number) : bool :=
  match n with NaN => true | _ => false end.


Definition is_zero (n : number) : bool :=
  match n with Finite _ m _ => (m =? 0)%N | _ => false end.

Definition of_Z (z : Z) : number := Finite (z <? 0)%Z (Z.abs_N z) 0.

(** Magnitudes from [2^1024 - 2^970] on round to an infinity, magnitudes up
    to [2^-1075] round to zero. *)
Definition overflow_bound : N := 2 ^ 1024 - 2 ^ 970.

Definition to_range (neg : bool) (m : N) (e : Z) : number :=
  if (m =? 0)%N then Finite neg 0 0
  else if (0 <=? e)%Z then
    if (overflow_bound <=? m * 10 ^ Z.to_N e)%N then Infinity neg else Finite neg m e
  else
    let d := (10 ^ Z.to_N (- e))%N in
    if (overflow_bound * d <=? m)%N then Infinity neg
    else if (m * 2 ^ 1075 <=? d)%N then Finite neg 0 0
    else Finite neg m e.

Definition digit_val (base : N) (c : ascii) : option N :=
  let n := N_of_ascii c in
  let d :=
    if (48 <=? n)%N && (n <=? 57)%N then Some (n - 48)%N
    else if (97 <=? n)%N && (n <=? 102)%N then Some (n - 87)%N
    else if (65 <=? n)%N && (n <=? 70)%N then Some (n - 55)%N
    else None in
  match d with
  | Some v => if (v <? base)%N then Some v else None
  | None => None
  end.

(** Reads the longest run of digits of the base: the value accumulated on
    [acc], the number of digits read, and the rest. *)
Fixpoint read_digits (base : N) (s : string) (acc : N) (cnt : nat) : N * nat * string :=
  match s with
  | String c s' =>
      match digit_val base c with
      | Some d => read_digits base s' (acc * base + d)%N (S cnt)
      | None => (acc, cnt, s)
      end
  | "" => (acc, cnt, s)
  end.

Definition read_sign (s : string) : bool * string :=
  match s with
  | String c s' =>
      if Ascii.eqb c "+" then (false, s')
      else if Ascii.eqb c "-" then (true, s')
      else (false, s)
  | "" => (false, s)
  end.

(** An optional ExponentPart: its value (0 when there is none) and the rest;
    [None] when an [e] is not followed by digits. *)
Definition read_exponent (s : string) : option (Z * string) :=
  match s with
  | String c r =>
      if Ascii.eqb c "e" || Ascii.eqb c "E" then
        let '(eneg, r1) := read_sign r in
        match read_digits 10 r1 0 0 with
        | (_, O, _) => None
        | (ev, S _, rest) => Some (if eneg then (- Z.of_N ev)%Z else Z.of_N ev, rest)
        end
      else Some (0%Z, s)
  | "" => Some (0%Z, s)
  end.

(** StrDecimalLiteral with an optional sign. *)
Definition read_decimal (s : string) : option number :=
  let '(neg, s1) := read_sign s in
  if String.eqb s1 "Infinity" then Some (Infinity neg)
  else
    let '(ip, ni, s2) := read_digits 10 s1 0 0 in
    let '(m, nf, s3) :=
      match s2 with
      | String "." r => read_digits 10 r ip 0
      | _ => (ip, O, s2)
      end in
    match (ni + nf)%nat with
    | O => None
    | S _ =>
        match read_exponent s3 with
        | Some (ex, "") => Some (to_range neg m (ex - Z.of_nat nf))
        | _ => None
        end
    end.

(** Hex, octal and binary integer literals (no sign allowed). *)
Definition read_radix (s : string) : option number :=
  match s with
  | String "0" (String p r) =>
      let base :=
        if Ascii.eqb p "x" || Ascii.eqb p "X" then Some 16%N
        else if Ascii.eqb p "o" || Ascii.eqb p "O" then Some 8%N
        else if Ascii.eqb p "b" || Ascii.eqb p "B" then Some 2%N
        else None in
      match base with
      | Some b =>
          match read_digits b r 0 0 with
          | (v, S _, "") => Some (to_range false v 0)
          | _ => None
          end
      | None => None
      end
  | _ => None
  end.

(** [Number(s)] on a string: StringToNumber of ECMAScript. *)
Definition StringToNumber (s : string) : number :=
  let t := trim s in
  if String.eqb t "" then Finite false 0 0
  else
    match read_radix t with
    | Some n => n
    | None =>
        match read_decimal t with
        | Some n => n
        | None => NaN
        end
    end.

Fixpoint zeros (n : nat) : string :=
  match n with
  | O => ""
  | S n' => String "0" (zeros n')
  end.

Fixpoint trailing_zeros_rev (s : string) : nat :=
  match s with
  | String "0" s' => S (trailing_zeros_rev s')
  | _ => O
  end.

(** Number::toString in radix 10 for the decimal [0.d1...dk * 10^n],
    [digits] being [d1...dk] with [dk] not zero. *)
Definition format_decimal (digits : string) (n : Z) : string :=
  let k := String.length digits in
  if (Z.of_nat k <=? n)%Z && (n <=? 21)%Z then
    digits +:+ zeros (Z.to_nat n - k)
  else if (0 <? n)%Z && (n <=? 21)%Z then
    String.substring 0 (Z.to_nat n) digits +:+ "." +:+
    String.substring (Z.to_nat n) (k - Z.to_nat n) digits
  else if (-6 <? n)%Z && (n <=? 0)%Z then
    "0." +:+ zeros (Z.to_nat (- n)) +:+ digits
  else
    let ex := (n - 1)%Z in
    let sign := if (ex <? 0)%Z then "-" else "+" in
    let mant :=
      match digits with
      | String d "" => String d ""
      | String d rest => String d ("." +:+ rest)
      | "" => ""
      end in
    mant +:+ "e" +:+ sign +:+ pretty (Z.abs_N ex).

(** [String(n)] on a number *)
Definition NumberToString (n : number) : string :=
  match n with
  | NaN => "NaN"
  | Infinity false => "Infinity"
  | Infinity true => "-Infinity"
  | Finite neg m e =>
      if (m =? 0)%N then "0"
      else
        let ds := pretty m in
        let tz := trailing_zeros_rev (String.rev ds) in
        let digits := String.substring 0 (String.length ds - tz) ds in
        (if neg then "-" else "") +:+ format_decimal digits (Z.of_nat (String.length ds) + e)
  end.

(** *** Values *)

(** The values the sources handle; functions, symbols and bigints do not
    occur. *)
Inductive value :=
| VUndefined
| VNull
| VBool (b : bool)
| VNumber (n : number)
| VString (s : string)
| VArray (xs : list value)
| VObject (props : list (string * value)).

(** [typeof v] *)
Definition typeof (v : value) : string :=
  match v with
  | VUndefined => "undefined"
  | VNull => "object"
  | VBool _ => "boolean"
  | VNumber _ => "number"
  | VString _ => "string"
  | VArray _ => "object"
  | VObject _ => "object"
  end.

(** [Array.isArray(v)] *)
Definition isArray (v : value) : bool :=
  match v with VArray _ => true | _ => false end.

(** [Boolean(v)], the truthiness used by [!v] and [if (v)] *)
Definition ToBoolean (v : value) : bool :=
  match v with
  | VUndefined | VNull => false
  | VBool b => b
  | VNumber n => negb (isNaN n || is_zero n)
  | VString s => negb (String.eqb s "")
  | VArray _ | VObject _ => true
  end.

(** [String(v)]; an array prints its elements joined by commas, with
    [undefined] and [null] elements printed as nothing. *)
Fixpoint ToString (v : value) : string :=
  match v with
  | VUndefined => "undefined"
  | VNull => "null"
  | VBool true => "true"
  | VBool false => "false"
  | VNumber n => NumberToString n
  | VString s => s
  | VArray xs =>
      join ","
        (List.map (fun x => match x with
                            | VUndefined | VNull => ""
                            | _ => ToString x
                            end) xs)
  | VObject _ => "[object Object]"
  end.

(** [Number(v)]; arrays and objects go through their string form. *)
Definition ToNumber (v : value) : number :=
  match v with
  | VUndefined => NaN
  | VNull => Finite false 0 0
  | VBool true => Finite false 1 0
  | VBool false => Finite false 0 0
  | VNumber n => n
  | VString s => StringToNumber s
  | VArray _ | VObject _ => StringToNumber (ToString v)
  end.

(** *** Objects used as dictionaries *)

Section Props.
Context {A : Type}.

(** The own property [k], if there is one. *)
Fixpoint get_prop (o : list (string * A)) (k : string) : option A :=
  match o with
  | [] => None
  | (k', v) :: o' => if String.eqb k' k then Some v else get_prop o' k
  end.

(** [k in o], for own properties: for a name [k] that the object owns or
    that [Object.prototype] does not have *)
Definition has_prop (o : list (string * A)) (k : string) : bool :=
  match get_prop o k with Some _ => true | None => false end.

(** [Object.keys(o)] *)
Definition keys (o : list (string * A)) : list string := List.map fst o.

Fixpoint replace_prop (k : string) (v : A) (o : list (string * A)) : list (string * A) :=
  match o with
  | [] => []
  | (k', v') :: o' =>
      if String.eqb k' k then (k', v) :: o' else (k', v') :: replace_prop k v o'
  end.
End Props.

(** A canonical array index: the decimal form of an integer below [2^32 - 1]. *)
Definition array_index (k : string) : option N :=
  match read_digits 10 k 0 0 with
  | (i, S _, "") =>
      if String.eqb (pretty i) k && (i <? 2 ^ 32 - 1)%N then Some i else None
  | _ => None
  end.

Section SetProp.
Context {A : Type}.

Fixpoint insert_index (i : N) (k : string) (v : A) (o : list (string * A))
  : list (string * A) :=
  match o with
  | [] => [(k, v)]
  | (k', v') :: o' =>
      match array_index k' with
      | Some j => if (j <? i)%N then (k', v') :: insert_index i k v o' else (k, v) :: o
      | None => (k, v) :: o
      end
  end.

(** [o[k] = v]: an existing property keeps its place; a new one goes
    among the array indices in ascending order, or else to the end. *)
Definition set_prop (k : string) (v : A) (o : list (string * A)) : list (string * A) :=
  if has_prop o k then replace_prop k v o
  else
    match array_index k with
    | Some i => insert_index i k v o
    | None => o ++ [(k, v)]
    end.
End SetProp.

(** [o[k]] on an object of values, for a name [k] that the object owns or
    that [Object.prototype] does not have *)
Definition get (o : list (string * value)) (k : string) : value :=
  match get_prop o k with Some v => v | None => VUndefined end.

(** The names every object has from [Object.prototype] without owning
    them. [o[k]] and [k in o] see them where the object has no property of
    its own by that name; [get] and [has_prop] look at own properties only,
    and are [o[k]] and [k in o] for every other name. *)
Definition Object_prototype : list string :=
  [ "constructor"; "hasOwnProperty"; "isPrototypeOf"; "propertyIsEnumerable";
    "toLocaleString"; "toString"; "valueOf"; "__proto__";
    "__defineGetter__"; "__defineSetter__"; "__lookupGetter__"; "__lookupSetter__" ].

Definition inherited (k : string) : bool := existsb (String.eqb k) Object_prototype.

(** Names of which none is a name of [Object.prototype]. *)
Definition plain_names (names : list string) : Prop :=
  Forall (fun k => inherited k = false) names.

(** *** JSON.parse *)

Fixpoint skip_json_ws (s : string) : string :=
  match s with
  | String c s' =>
      if Ascii.eqb c " " || Ascii.eqb c (byte 9) || Ascii.eqb c (byte 10) || Ascii.eqb c (byte 13)
      then skip_json_ws s' else s
  | "" => s
  end.

(** The UTF-8 encoding of a code point (of a lone surrogate as well). *)
Definition utf8 (cp : N) : string :=
  let b (n : N) := ascii_of_N n in
  if (cp <? 128)%N then String (b cp) ""
  else if (cp <? 2048)%N then
    String (b (192 + cp / 64)%N) (String (b (128 + cp mod 64)%N) "")
  else if (cp <? 65536)%N then
    String (b (224 + cp / 4096)%N)
      (String (b (128 + (cp / 64) mod 64)%N) (String (b (128 + cp mod 64)%N) ""))
  else
    String (b (240 + cp / 262144)%N)
      (String (b (128 + (cp / 4096) mod 64)%N)
         (String (b (128 + (cp / 64) mod 64)%N) (String (b (128 + cp mod 64)%N) ""))).

(** Four hex digits. *)
Definition read_hex4 (s : string) : option (N * string) :=
  match s with
  | String a (String b (String c (String d r))) =>
      match digit_val 16 a, digit_val 16 b, digit_val 16 c, digit_val 16 d with
      | Some x, Some y, Some z, Some w => Some (((x * 16 + y) * 16 + z) * 16 + w, r)%N
      | _, _, _, _ => None
      end
  | _ => None
  end.

(** The characters of a JSON string after its opening quote, up to and
    including the closing quote. *)
Fixpoint read_json_chars (fuel : nat) (s : string) (acc : string) : option (string * string) :=
  match fuel with
  | O => None
  | S fuel' =>
      match s with
      | "" => None
      | String c r =>
          if Ascii.eqb c dquote then Some (String.rev acc, r)
          else if (N_of_ascii c <? 32)%N then None
          else if Ascii.eqb c "\" then
            match r with
            | String e r' =>
                let simple (x : ascii) := read_json_chars fuel' r' (String x acc) in
                if Ascii.eqb e dquote then simple dquote
                else if Ascii.eqb e "\" then simple "\"%char
                else if Ascii.eqb e "/" then simple "/"%char
                else if Ascii.eqb e "b" then simple (byte 8)
                else if Ascii.eqb e "f" then simple (byte 12)
                else if Ascii.eqb e "n" then simple (byte 10)
                else if Ascii.eqb e "r" then simple (byte 13)
                else if Ascii.eqb e "t" then simple (byte 9)
                else if Ascii.eqb e "u" then
                  match read_hex4 r' with
                  | Some (hi, r2) =>
                      let pair :=
                        if (55296 <=? hi)%N && (hi <? 56320)%N then
                          match strip_prefix "\u" r2 with
                          | Some r3 =>
                              match read_hex4 r3 with
                              | Some (lo, r4) =>
                                  if (56320 <=? lo)%N && (lo <? 57344)%N
                                  then Some (65536 + (hi - 55296) * 1024 + (lo - 56320), r4)%N
                                  else None
                              | None => None
                              end
                          | None => None
                          end
                        else None in
                      match pair with
                      | Some (cp, r4) =>
                          read_json_chars fuel' r4 (String.rev_app (utf8 cp) acc)
                      | None =>
                          read_json_chars fuel' r2 (String.rev_app (utf8 hi) acc)
                      end
                  | None => None
                  end
                else None
            | "" => None
            end
          else read_json_chars fuel' r (String c acc)
      end
  end.

Definition read_json_string (s : string) : option (string * string) :=
  read_json_chars (String.length s) s "".

(** A JSON number: an optional minus, an integer part without leading
    zeros, an optional fraction of at least one digit, an optional exponent. *)
Definition read_json_number (s : string) : option (number * string) :=
  let '(neg, s1) :=
    match strip_prefix "-" s with Some r => (true, r) | None => (false, s) end in
  let '(ip, ni, s2) :=
    match strip_prefix "0" s1 with
    | Some r => (0%N, 1%nat, r)
    | None => read_digits 10 s1 0 0
    end in
  match ni with
  | O => None
  | S _ =>
      let frac :=
        match strip_prefix "." s2 with
        | Some r =>
            match read_digits 10 r ip 0 with
            | (_, O, _) => None
            | (m, S nf', s3) => Some (m, S nf', s3)
            end
        | None => Some (ip, O, s2)
        end in
      match frac with
      | Some (m, nf, s3) =>
          match read_exponent s3 with
          | Some (ex, rest) => Some (to_range neg m (ex - Z.of_nat nf), rest)
          | None => None
          end
      | None => None
      end
  end.

(** A literal, a string or a number. *)
Definition read_json_scalar (t : string) : option (value * string) :=
  match strip_prefix (String dquote "") t with
  | Some r =>
      match read_json_string r with
      | Some (str, r') => Some (VString str, r')
      | None => None
      end
  | None =>
      match strip_prefix "true" t, strip_prefix "false" t, strip_prefix "null" t with
      | Some r, _, _ => Some (VBool true, r)
      | _, Some r, _ => Some (VBool false, r)
      | _, _, Some r => Some (VNull, r)
      | None, None, None =>
          match read_json_number t with
          | Some (n, r) => Some (VNumber n, r)
          | None => None
          end
      end
  end.

(** The white space after a value is read with it. *)
Definition after_value (r : option (value * string)) : option (value * string) :=
  match r with
  | Some (v, rest) => Some (v, skip_json_ws rest)
  | None => None
  end.

(** One JSON value with the white space around it, and the rest. Every call
    spends one unit of fuel, and at most two calls in a row leave the text
    as long as it was. *)
Fixpoint read_json_value (fuel : nat) (s : string) : option (value * string) :=
  match fuel with
  | O => None
  | S fuel' =>
      let t := skip_json_ws s in
      match strip_prefix "{" t with
      | Some r =>
          match strip_prefix "}" (skip_json_ws r) with
          | Some r' => after_value (Some (VObject [], r'))
          | None => after_value (read_json_members fuel' (skip_json_ws r) [])
          end
      | None =>
          match strip_prefix "[" t with
          | Some r =>
              match strip_prefix "]" (skip_json_ws r) with
              | Some r' => after_value (Some (VArray [], r'))
              | None => after_value (read_json_elements fuel' (skip_json_ws r) [])
              end
          | None => after_value (read_json_scalar t)
          end
      end
  end
with read_json_elements (fuel : nat) (s : string) (acc : list value)
  : option (value * string) :=
  match fuel with
  | O => None
  | S fuel' =>
      match read_json_value fuel' s with
      | Some (v, rest) =>
          match strip_prefix "," rest with
          | Some r => read_json_elements fuel' r (v :: acc)
          | None =>
              match strip_prefix "]" rest with
              | Some r => Some (VArray (List.rev (v :: acc)), r)
              | None => None
              end
          end
      | None => None
      end
  end
with read_json_members (fuel : nat) (s : string) (acc : list (string * value))
  : option (value * string) :=
  match fuel with
  | O => None
  | S fuel' =>
      match strip_prefix (String dquote "") (skip_json_ws s) with
      | Some r =>
          match read_json_string r with
          | Some (k, r1) =>
              match strip_prefix ":" (skip_json_ws r1) with
              | Some r2 =>
                  match read_json_value fuel' r2 with
                  | Some (v, rest) =>
                      match strip_prefix "," rest with
                      | Some r3 => read_json_members fuel' r3 (set_prop k v acc)
                      | None =>
                          match strip_prefix "}" rest with
                          | Some r3 => Some (VObject (set_prop k v acc), r3)
                          | None => None
                          end
                      end
                  | None => None
                  end
              | None => None
              end
          | None => None
          end
      | None => None
      end
  end.

(** [JSON.parse(s)]: [None] stands for the SyntaxError it throws. *)
Definition JSON_parse (s : string) : option value :=
  match read_json_value (2 * String.length s + 2) s with
  | Some (v, "") => Some v
  | _ => None
  end.

End JS.

Import JS.

(** The line feed, as the sources write it in their string literals. *)
Definition nl : string := String "010"%char "".

(** ** types.ts *)

Inductive ParamType := TString | TNumber | TBoolean | TArray | TObject.

(** [required] absent counts as false; [default] absent is [VUndefined]. *)
Record ParamDefinition := {
  param_type : ParamType;
  param_required : bool;
  param_default : value;
  param_description : option string
}.

(** [Record<string, ParamDefinition>], in the order of [Object.entries]. *)
Definition ParamsSchema := list (string * ParamDefinition).

Inductive HttpMethod := GET | POST | PUT | DELETE | PATCH | HEAD | OPTIONS.
Inductive ConsoleLevel := LError | LWarn | LLog | LInfo | LDebug.
Inductive ImageFormat := Png | Jpg | Webp.
Inductive Naming := Step | Timestamp.

Record NetworkCaptureConfig := {
  net_patterns : list string;
  net_methods : option (list HttpMethod);
  net_statusCodes : option (list number);
  net_contentType : option string;
  net_saveDir : string;
  net_extractJson : option bool;
  net_includeRequestHeaders : option bool;
  net_includeResponseHeaders : option bool
}.

Record ConsoleCaptureConfig := {
  con_levels : list ConsoleLevel;
  con_pattern : option string;
  con_saveAs : string
}.

Record ScreenshotConfig := {
  shot_dir : string;
  shot_format : option ImageFormat;
  shot_naming : option Naming
}.

Record CaptureConfig := {
  cap_network : option NetworkCaptureConfig;
  cap_screenshots : option (string + ScreenshotConfig);
  cap_console : option ConsoleCaptureConfig;
  cap_data : option string
}.

Record WorkflowDefinition := {
  wf_name : string;
  wf_description : option string;
  wf_params : ParamsSchema;
  wf_capture : CaptureConfig;
  wf_task : string
}.

Record LoadedWorkflow := {
  lw_definition : WorkflowDefinition;
  lw_filePath : string;
  lw_directory : string
}.

Record RunOptions := {
  opt_params : list (string * value);
  opt_background : option bool;
  opt_workDir : option string;
  opt_dryRun : option bool
}.

Record CapturedFiles := {
  files_network : option (list string);
  files_screenshots : option (list string);
  files_console : option string;
  files_data : option string
}.

Record RunResult := {
  res_success : bool;
  res_outputDir : string;
  res_files : CapturedFiles;
  res_error : option string;
  res_duration : option Z
}.

Record ValidationError := {
  err_param : string;
  err_message : string
}.

Record ValidationResult := {
  valid : bool;
  errors : list ValidationError;
  resolvedParams : list (string * value)
}.

(** ** validator.ts *)
Module Validator.

Definition is_undefined (v : value) : bool :=
  match v with VUndefined => true | _ => false end.

Definition is_null (v : value) : bool :=
  match v with VNull => true | _ => false end.

(** [v === s] for a string literal [s] *)
Definition is_string (v : value) (s : string) : bool :=
  match v with VString t => String.eqb t s | _ => false end.

(** Validate parameter type *)
Definition validateType (name : string) (expectedType : ParamType) (v : value)
  : option ValidationError :=
  match expectedType with
  | TString =>
      if negb (String.eqb (typeof v) "string")
      then Some {| err_param := name; err_message := "Expected string, got " +:+ typeof v |}
      else None
  | TNumber =>
      if negb (String.eqb (typeof v) "number") && isNaN (ToNumber v)
      then Some {| err_param := name; err_message := "Expected number, got " +:+ typeof v |}
      else None
  | TBoolean =>
      if negb (String.eqb (typeof v) "boolean")
         && negb (is_string v "true") && negb (is_string v "false")
      then Some {| err_param := name; err_message := "Expected boolean, got " +:+ typeof v |}
      else None
  | TArray =>
      if negb (isArray v) then
        if String.eqb (typeof v) "string" then None
        else Some {| err_param := name; err_message := "Expected array, got " +:+ typeof v |}
      else None
  | TObject =>
      if negb (String.eqb (typeof v) "object") || isArray v then
        match v with
        | VString s =>
            match JSON_parse s with
            | Some _ => None
            | None =>
                Some {| err_param := name; err_message := "Expected object, got invalid JSON" |}
            end
        | _ => Some {| err_param := name; err_message := "Expected object, got " +:+ typeof v |}
        end
      else None
  end.

(** Validate a single parameter: the [value] and the optional [error] of
    the object it returns. *)
Definition validateParam (name : string) (def : ParamDefinition) (v : value)
  : value * option ValidationError :=
  if is_undefined v || is_null v || is_string v "" then
    if param_required def then
      (VUndefined,
       Some {| err_param := name; err_message := "Required parameter missing: " +:+ name |})
    else if negb (is_undefined (param_default def)) then (param_default def, None)
    else (VUndefined, None)
  else
    match validateType name (param_type def) v with
    | Some typeError => (v, Some typeError)
    | None => (v, None)
    end.

(** One turn of the loop over the declared parameters: the state is the
    pair of [errors] and [resolvedParams]. *)
Definition check_defined (params : list (string * value))
    (st : list ValidationError * list (string * value)) (entry : string * ParamDefinition)
  : list ValidationError * list (string * value) :=
  let '(errs, resolved) := st in
  let '(name, def) := entry in
  match validateParam name def (get params name) with
  | (_, Some e) => (errs ++ [e], resolved)
  | (v, None) => (errs, set_prop name v resolved)
  end.

(** One turn of the loop over the keys of the input. *)
Definition check_unknown (schema : ParamsSchema) (errs : list ValidationError) (name : string)
  : list ValidationError :=
  if negb (has_prop schema name)
  then errs ++ [{| err_param := name; err_message := "Unknown parameter: " +:+ name |}]
  else errs.

(** Validate params against a workflow definition *)
Definition validateParams (workflow : WorkflowDefinition) (params : list (string * value))
  : ValidationResult :=
  let '(errs, resolved) :=
    fold_left (check_defined params) (wf_params workflow) ([], []) in
  let errs' := fold_left (check_unknown (wf_params workflow)) (keys params) errs in
  {| valid := Nat.eqb (length errs') 0; errors := errs'; resolvedParams := resolved |}.

(** Coerce a single value to the expected type *)
Definition coerceValue (type : ParamType) (v : value) : value :=
  if is_undefined v || is_null v then v
  else
    match type with
    | TNumber =>
        if String.eqb (typeof v) "number" then v else VNumber (ToNumber v)
    | TBoolean =>
        if String.eqb (typeof v) "boolean" then v
        else if is_string v "true" then VBool true
        else if is_string v "false" then VBool false
        else VBool (ToBoolean v)
    | TArray =>
        if isArray v then v
        else
          match v with
          | VString s => VArray (List.map (fun t => VString (trim t)) (split "," s))
          | _ => VArray [v]
          end
    | TObject =>
        if String.eqb (typeof v) "object" && negb (isArray v) then v
        else
          match v with
          | VString s =>
              match JSON_parse s with
              | Some parsed => parsed
              | None => v
              end
          | _ => v
          end
    | TString => VString (ToString v)
    end.

(** One turn of the loop of [coerceParams]; the state is [result]. *)
Definition coerce_entry (params : list (string * value))
    (result : list (string * value)) (entry : string * ParamDefinition)
  : list (string * value) :=
  let '(name, def) := entry in
  let v := get params name in
  if is_undefined v || is_null v then
    if negb (is_undefined (param_default def))
    then set_prop name (param_default def) result
    else result
  else set_prop name (coerceValue (param_type def) v) result.

(** Coerce string values to proper types based on schema *)
Definition coerceParams (schema : ParamsSchema) (params : list (string * value))
  : list (string * value) :=
  fold_left (coerce_entry params) schema [].

(** Format validation errors for display *)
Definition formatErrors (errs : list ValidationError) : string :=
  join nl (List.map (fun e => "  - " +:+ err_param e +:+ ": " +:+ err_message e) errs).

(** The order in which [runWorkflow], [executeWorkflow] and the [validate]
    and [prompt] commands compose the two. *)
Definition coerce_then_validate (workflow : WorkflowDefinition)
    (params : list (string * value)) : ValidationResult :=
  validateParams workflow (coerceParams (wf_params workflow) params).

(** The three kinds of entry of [errors], told apart by their message. *)
Definition is_UnknownParameter (e : ValidationError) : bool :=
  String.eqb (err_message e) ("Unknown parameter: " +:+ err_param e).


Definition is_TypeMismatch (e : ValidationError) : bool :=
  startsWith (err_message e) "Expected ".

End Validator.

(** What a function that may throw gives back: [Err msg] stands for
    [throw new Error(msg)]. *)
Inductive result (A : Type) :=
| Ok (a : A)
| Err (msg : string).
Arguments Ok {A} a.
Arguments Err {A} msg.

(** ** workflow.ts *)
Module Workflow.

(** The object a workflow author passes to [defineWorkflow]: at run time any
    of its properties may be missing. *)
Record RawDefinition := {
  raw_name : option string;
  raw_description : option string;
  raw_params : option ParamsSchema;
  raw_capture : option CaptureConfig;
  raw_task : option string
}.

(** A property that is not there, or holds the empty string. *)
Definition missing (s : option string) : Prop := s = None ∨ s = Some "".

(** [!s] on a property that holds a string when it is there *)
Definition falsy (s : option string) : bool :=
  match s with
  | None => true
  | Some t => String.eqb t ""
  end.

(** Define a browser automation workflow. The object returned is the
    argument with [task] replaced. *)
Definition defineWorkflow (definition : RawDefinition) : result WorkflowDefinition :=
  if falsy (raw_name definition) then Err "Workflow must have a name"
  else if falsy (raw_task definition) then Err "Workflow must have a task"
  else
    match raw_params definition with
    | None => Err "Workflow must have params (use empty object {} if none)"
    | Some params =>
        match raw_capture definition with
        | None => Err "Workflow must have capture config (use empty object {} if none)"
        | Some capture =>
            Ok {| wf_name := from_option id "" (raw_name definition);
                  wf_description := raw_description definition;
                  wf_params := params;
                  wf_capture := capture;
                  wf_task := trim (from_option id "" (raw_task definition)) |}
        end
    end.

(** A definition seen as the object [defineWorkflow] takes, with every
    property there. *)
Definition as_raw (workflow : WorkflowDefinition) : RawDefinition :=
  {| raw_name := Some (wf_name workflow);
     raw_description := wf_description workflow;
     raw_params := Some (wf_params workflow);
     raw_capture := Some (wf_capture workflow);
     raw_task := Some (wf_task workflow) |}.

End Workflow.

(** ** The template engine

    prompt-builder.ts renders its templates with the Handlebars library
    (version 4, default options: values are HTML-escaped, a missing name
    gives nothing). The model covers templates made of literal text and of
    placeholders [{{name}}] (white space allowed inside the braces), which
    is all the workflows of the repository use. A name is any run of the
    ASCII characters the lexer of Handlebars takes into an identifier
    (letters, digits and [_ $ - : ?]) that the engine looks up in the
    context: not what it reads as a number, as a literal, as [this], as
    [else] or as a call of a built-in helper. On any other template
    [render] gives [None]; so it does where the library throws, as on
    [{{x}}}], whose three closing braces the lexer takes together. *)
Module Handlebars.

(** [Handlebars.escapeExpression] on a string *)
Definition escapeChar (c : ascii) : string :=
  if Ascii.eqb c "&" then "&amp;"
  else if Ascii.eqb c "<" then "&lt;"
  else if Ascii.eqb c ">" then "&gt;"
  else if Ascii.eqb c dquote then "&quot;"
  else if Ascii.eqb c "'" then "&#x27;"
  else if Ascii.eqb c "`" then "&#x60;"
  else if Ascii.eqb c "=" then "&#x3D;"
  else String c "".

Fixpoint escape (s : string) : string :=
  match s with
  | "" => ""
  | String c s' => escapeChar c +:+ escape s'
  end.

(** [Handlebars.escapeExpression]: strings are escaped, [null] and
    [undefined] give nothing, other falsy values are printed as they are,
    anything else is printed and then escaped. An object with a truthy
    [toHTML] property is asked for its [toHTML()], which none of the values
    modelled can give: [None], the call throws. *)
Definition escapeExpression (v : value) : option string :=
  match v with
  | VString s => Some (escape s)
  | VUndefined | VNull => Some ""
  | VObject props =>
      if ToBoolean (get props "toHTML") then None else Some (escape (ToString v))
  | _ => Some (if negb (ToBoolean v) then ToString v else escape (ToString v))
  end.

(** [\w]: a letter, a digit or the underscore. *)
Definition is_word_char (c : ascii) : bool :=
  let n := N_of_ascii c in
  ((65 <=? n)%N && (n <=? 90)%N) || ((97 <=? n)%N && (n <=? 122)%N)
  || ((48 <=? n)%N && (n <=? 57)%N) || Ascii.eqb c "_".

(** The ASCII characters the lexer takes into an identifier: letters,
    digits and, of the punctuation, [_ $ - : ?] only. *)
Definition is_ident_char (c : ascii) : bool :=
  is_word_char c || Ascii.eqb c "$" || Ascii.eqb c "-" || Ascii.eqb c ":"
  || Ascii.eqb c "?".

Definition is_space (c : ascii) : bool :=
  let n := N_of_ascii c in
  (n =? 32)%N || ((9 <=? n)%N && (n <=? 13)%N).

Definition is_digit (c : ascii) : bool :=
  let n := N_of_ascii c in (48 <=? n)%N && (n <=? 57)%N.

Fixpoint all_digits (s : string) : bool :=
  match s with
  | "" => true
  | String c s' => is_digit c && all_digits s'
  end.

(** A run of identifier characters the lexer reads as a number: digits,
    after a minus sign or not. *)
Definition is_number_literal (x : string) : bool :=
  match x with
  | String c r =>
      if Ascii.eqb c "-" then negb (String.eqb r "") && all_digits r else all_digits x
  | "" => false
  end.

(** [else] at the end of a word: with the braces before it the lexer reads
    the opening of an [else] branch, whatever follows. *)
Definition opens_else (x : string) : bool :=
  match strip_prefix "else" x with
  | Some (String c _) => negb (is_word_char c)
  | Some "" => true
  | None => false
  end.

(** Words the engine does not read as the name of a context property:
    literals, [this], [else], the built-in helpers, and the members of
    [Object.prototype]. *)
Definition reserved : list string :=
  [ "true"; "false"; "null"; "undefined"; "this"; "else"; "as";
    "if"; "unless"; "each"; "with"; "log"; "lookup";
    "helperMissing"; "blockHelperMissing";
    "constructor"; "hasOwnProperty"; "isPrototypeOf"; "propertyIsEnumerable";
    "toLocaleString"; "toString"; "valueOf"; "__proto__";
    "__defineGetter__"; "__defineSetter__"; "__lookupGetter__"; "__lookupSetter__" ].

Definition is_reserved (x : string) : bool :=
  existsb (String.eqb x) reserved || is_number_literal x || opens_else x.

Fixpoint skip_spaces (s : string) : string :=
  match s with
  | String c s' => if is_space c then skip_spaces s' else s
  | "" => s
  end.

(** White space only, as the lexer passes over inside the braces. *)
Fixpoint all_spaces (s : string) : bool :=
  match s with
  | "" => true
  | String c s' => is_space c && all_spaces s'
  end.

(** The longest run of identifier characters, and the rest. *)
Fixpoint read_ident (s : string) : string * string :=
  match s with
  | String c s' =>
      if is_ident_char c then
        let '(x, r) := read_ident s' in (String c x, r)
      else ("", s)
  | "" => ("", s)
  end.

(** What follows an opening [{{]: a placeholder name and the text after
    the closing braces. A third closing brace makes the three of them the
    end of a [{{{] the template did not open: the library throws. *)
Definition read_mustache (s : string) : option (string * string) :=
  let '(x, r1) := read_ident (skip_spaces s) in
  if String.eqb x "" || is_reserved x then None
  else
    match strip_prefix "}}" (skip_spaces r1) with
    | Some r2 => if startsWith r2 "}" then None else Some (x, r2)
    | None => None
    end.

(** One piece of a template. *)
Inductive piece :=
| Content (c : ascii)
| Mustache (name : string).

(** The pieces of a template. A NUL character, and a backslash right before
    an opening [{{], are outside the templates modelled. *)
Fixpoint parse (fuel : nat) (t : string) : option (list piece) :=
  match fuel with
  | O => None
  | S fuel' =>
      match strip_prefix "{{" t with
      | Some r =>
          match read_mustache r with
          | Some (x, r') =>
              match parse fuel' r' with
              | Some ps => Some (Mustache x :: ps)
              | None => None
              end
          | None => None
          end
      | None =>
          match t with
          | "" => Some []
          | String c r =>
              if Ascii.eqb c (byte 0) then None
              else if Ascii.eqb c "\" && startsWith r "{{" then None
              else
                match parse fuel' r with
                | Some ps => Some (Content c :: ps)
                | None => None
                end
          end
      end
  end.

Definition render_piece (context : list (string * value)) (p : piece) : option string :=
  match p with
  | Content c => Some (String c "")
  | Mustache x => escapeExpression (get context x)
  end.

Fixpoint render_pieces (context : list (string * value)) (ps : list piece) : option string :=
  match ps with
  | [] => Some ""
  | p :: ps' =>
      a ← render_piece context p;
      b ← render_pieces context ps';
      Some (a +:+ b)
  end.

(** A placeholder name the model reads as a context property. *)
Definition is_name (x : string) : bool :=
  negb (String.eqb x "") && String.eqb (fst (read_ident x)) x && negb (is_reserved x).

(** The text ends in a character that changes how an opening [{{] right
    after it is read: a brace or a backslash. *)
Fixpoint ends_open (s : string) : bool :=
  match s with
  | "" => false
  | String c "" => Ascii.eqb c "{" || Ascii.eqb c "\"
  | String _ s' => ends_open s'
  end.

(** The characters [escapeExpression] replaces. *)
Definition is_special (c : ascii) : bool :=
  Ascii.eqb c "&" || Ascii.eqb c "<" || Ascii.eqb c ">" || Ascii.eqb c dquote
  || Ascii.eqb c "'" || Ascii.eqb c "`" || Ascii.eqb c "=".

Fixpoint has_special (s : string) : bool :=
  match s with
  | "" => false
  | String c s' => is_special c || has_special s'
  end.

(** [Handlebars.compile(template)(context)] *)
Definition render (template : string) (context : list (string * value)) : option string :=
  match parse (S (String.length template)) template with
  | Some ps => render_pieces context ps
  | None => None
  end.

End Handlebars.

(** ** prompt-builder.ts *)
Module PromptBuilder.

Definition method_name (m : HttpMethod) : string :=
  match m with
  | GET => "GET" | POST => "POST" | PUT => "PUT" | DELETE => "DELETE"
  | PATCH => "PATCH" | HEAD => "HEAD" | OPTIONS => "OPTIONS"
  end.

Definition level_name (l : ConsoleLevel) : string :=
  match l with
  | LError => "error" | LWarn => "warn" | LLog => "log" | LInfo => "info" | LDebug => "debug"
  end.

Definition format_name (f : ImageFormat) : string :=
  match f with Png => "png" | Jpg => "jpg" | Webp => "webp" end.

(** Truthiness of an optional string property *)
Definition nonempty (s : option string) : option string :=
  match s with
  | Some t => if String.eqb t "" then None else Some t
  | None => None
  end.

(** Some capture is asked for: one of the four properties of the capture
    configuration is truthy. *)
Definition configured (capture : CaptureConfig) : bool :=
  match cap_network capture with Some _ => true | None => false end
  || match cap_screenshots capture with Some (inl "") | None => false | Some _ => true end
  || match cap_console capture with Some _ => true | None => false end
  || match nonempty (cap_data capture) with Some _ => true | None => false end.

(** [{...params, name, outputDir}] *)
Definition makeContext (params : list (string * value)) (name outputDir : string)
  : list (string * value) :=
  set_prop "outputDir" (VString outputDir)
    (set_prop "name" (VString name)
       (fold_left (fun o kv => set_prop (fst kv) (snd kv) o) params [])).

Section Engine.
(** [Handlebars.compile(template)(context)]; [None] when it throws. *)
Variable compile : string -> list (string * value) -> option string.

(** Render a template string with context *)
Definition renderTemplate (template : string) (context : list (string * value))
  : option string :=
  compile template context.

(** Build network capture instructions *)
Definition buildNetworkInstructions (config : NetworkCaptureConfig)
    (context : list (string * value)) : option string :=
  saveDir ← renderTemplate (net_saveDir config) context;
  let lines := [nl +:+ "NETWORK CAPTURE:"] in
  let lines :=
    lines ++ ["- Monitor network requests matching: " +:+ join ", " (net_patterns config)] in
  let lines :=
    match net_methods config with
    | Some (m :: ms) =>
        lines ++ ["- Only capture methods: " +:+ join ", " (List.map method_name (m :: ms))]
    | _ => lines
    end in
  let lines :=
    match net_statusCodes config with
    | Some (c :: cs) =>
        lines ++ ["- Only capture status codes: "
                  +:+ join ", " (List.map NumberToString (c :: cs))]
    | _ => lines
    end in
  let lines :=
    match nonempty (net_contentType config) with
    | Some ct => lines ++ ["- Only capture content type: " +:+ ct]
    | None => lines
    end in
  let lines := lines ++ ["- Save responses to: " +:+ saveDir] in
  let lines :=
    match net_extractJson config with
    | Some false => lines
    | _ => lines ++ ["- Extract and format JSON responses"]
    end in
  let lines :=
    match net_includeRequestHeaders config with
    | Some true => lines ++ ["- Include request headers"]
    | _ => lines
    end in
  let lines :=
    match net_includeResponseHeaders config with
    | Some true => lines ++ ["- Include response headers"]
    | _ => lines
    end in
  Some (join nl lines).

(** Build screenshot instructions *)
Definition buildScreenshotInstructions (config : string + ScreenshotConfig)
    (context : list (string * value)) : option string :=
  let lines := [nl +:+ "SCREENSHOTS:"] in
  match config with
  | inl path =>
      dir ← renderTemplate path context;
      Some (join nl
        (lines ++
         [ "- Take screenshots at key steps";
           "- Save to: " +:+ dir;
           "- Name files descriptively (e.g., 01-login-page.png, 02-dashboard.png)" ]))
  | inr config =>
      dir ← renderTemplate (shot_dir config) context;
      Some (join nl
        (lines ++
         [ "- Take screenshots at key steps";
           "- Save to: " +:+ dir;
           "- Format: " +:+ from_option format_name "png" (shot_format config);
           match shot_naming config with
           | Some Timestamp => "- Name files with timestamps"
           | _ => "- Name files with step numbers and descriptions"
           end ]))
  end.

(** Build console capture instructions *)
Definition buildConsoleInstructions (config : ConsoleCaptureConfig)
    (context : list (string * value)) : option string :=
  saveAs ← renderTemplate (con_saveAs config) context;
  let lines := [nl +:+ "CONSOLE CAPTURE:"] in
  let lines :=
    lines ++ ["- Capture console output: " +:+ join ", " (List.map level_name (con_levels config))] in
  let lines :=
    match nonempty (con_pattern config) with
    | Some p => lines ++ ["- Filter messages matching: " +:+ p]
    | None => lines
    end in
  Some (join nl (lines ++ ["- Save to: " +:+ saveAs])).

(** Build capture instructions section *)
Definition buildCaptureInstructions (capture : CaptureConfig)
    (context : list (string * value)) : option string :=
  network ←
    match cap_network capture with
    | Some config => s ← buildNetworkInstructions config context; Some [s]
    | None => Some []
    end;
  screenshots ←
    match cap_screenshots capture with
    | Some (inl "") | None => Some []
    | Some config => s ← buildScreenshotInstructions config context; Some [s]
    end;
  console ←
    match cap_console capture with
    | Some config => s ← buildConsoleInstructions config context; Some [s]
    | None => Some []
    end;
  data ←
    match nonempty (cap_data capture) with
    | Some path =>
        dataPath ← renderTemplate path context;
        Some [nl +:+ "DATA EXTRACTION:" +:+ nl +:+ "- Save extracted data as JSON to: " +:+ dataPath]
    | None => Some []
    end;
  Some (join nl (network ++ screenshots ++ console ++ data)).

(** The closing section of every prompt. *)
Definition outputFormat : list string :=
  [ ""; "---"; "OUTPUT FORMAT:"; "When complete, summarize:";
    "- What was done"; "- Files saved (with paths)";
    "- Any errors or issues encountered" ].

(** Build a complete prompt from a workflow and params *)
Definition buildPrompt (workflow : WorkflowDefinition) (params : list (string * value))
    (outputDir : option string) : option string :=
  let outputDir := from_option id ("./output/" +:+ wf_name workflow) (nonempty outputDir) in
  let context := makeContext params (wf_name workflow) outputDir in
  task ← compile (wf_task workflow) context;
  captureInstructions ← buildCaptureInstructions (wf_capture workflow) context;
  let sections := [task] in
  let sections :=
    if String.eqb captureInstructions "" then sections
    else sections ++ [""; "---"; "CAPTURE INSTRUCTIONS:"; captureInstructions] in
  Some (join nl (sections ++ outputFormat)).
End Engine.

Definition type_name (t : ParamType) : string :=
  match t with
  | TString => "string" | TNumber => "number" | TBoolean => "boolean"
  | TArray => "array" | TObject => "object"
  end.

(** The line [describeWorkflow] gives a declared parameter. *)
Definition describeParam (entry : string * ParamDefinition) : string :=
  let '(name, def) := entry in
  let required :=
    if param_required def then "(required)"
    else "(default: "
         +:+ match param_default def with
             | VUndefined | VNull => "none"
             | d => ToString d
             end
         +:+ ")" in
  let desc :=
    match nonempty (param_description def) with
    | Some d => " - " +:+ d
    | None => ""
    end in
  "  --" +:+ name +:+ " <" +:+ type_name (param_type def) +:+ "> " +:+ required +:+ desc.

(** Get a summary of what a workflow will do (for --describe) *)
Definition describeWorkflow (workflow : WorkflowDefinition) : string :=
  let lines := ["Workflow: " +:+ wf_name workflow] in
  let lines :=
    match nonempty (wf_description workflow) with
    | Some d => lines ++ ["Description: " +:+ d]
    | None => lines
    end in
  let lines := lines ++ [""; "Parameters:"] in
  let lines := lines ++ List.map describeParam (wf_params workflow) in
  let lines := lines ++ [""; "Captures:"] in
  let lines :=
    match cap_network (wf_capture workflow) with
    | Some network => lines ++ ["  - Network: " +:+ join ", " (net_patterns network)]
    | None => lines
    end in
  let lines :=
    match cap_screenshots (wf_capture workflow) with
    | Some (inl "") | None => lines
    | Some (inl dir) => lines ++ ["  - Screenshots: " +:+ dir]
    | Some (inr config) => lines ++ ["  - Screenshots: " +:+ shot_dir config]
    end in
  let lines :=
    match cap_console (wf_capture workflow) with
    | Some console =>
        lines ++ ["  - Console: " +:+ join ", " (List.map level_name (con_levels console))]
    | None => lines
    end in
  let lines :=
    match nonempty (cap_data (wf_capture workflow)) with
    | Some data => lines ++ ["  - Data: " +:+ data]
    | None => lines
    end in
  let lines := lines ++ [""; "Task:"] in
  let lines :=
    lines ++ [join nl (List.map (fun l => "  " +:+ l) (split "010" (wf_task workflow)))] in
  join nl lines.

End PromptBuilder.

(** ** node:path on POSIX, and the file system *)
Module Path.

(** Drops empty and [.] segments and resolves [..]; [acc] holds the
    segments kept so far, innermost first. *)
Fixpoint normalize (acc : list string) (segs : list string) : list string :=
  match segs with
  | [] => List.rev acc
  | s :: rest =>
      if String.eqb s "" || String.eqb s "." then normalize acc rest
      else if String.eqb s ".." then normalize (List.tl acc) rest
      else normalize (s :: acc) rest
  end.

(** The segments of an absolute path. *)
Definition segments (p : string) : list string := normalize [] (split "/" p).

Definition of_segments (segs : list string) : string := "/" +:+ join "/" segs.

(** [path.resolve(from, p)] for an absolute [from] *)
Definition resolve_from (from p : string) : string :=
  if startsWith p "/" then of_segments (segments p)
  else of_segments (normalize [] (split "/" from ++ split "/" p)).

(** [path.resolve(...paths)] in the working directory [cwd] *)
Definition resolve (cwd : string) (paths : list string) : string :=
  fold_left resolve_from paths (resolve_from "/" cwd).

(** A segment of a normalized path: a name, with no separator in it. *)
Definition clean (seg : string) : Prop :=
  seg ≠ "" ∧ seg ≠ "." ∧ seg ≠ ".." ∧ includes seg "/" = false.

(** [path.dirname(p)] for an absolute, normalized [p] *)
Definition dirname (p : string) : string :=
  of_segments (List.removelast (segments p)).

End Path.

Module FS.

(** What [import(file)] gives: it throws, or yields the module's default
    export, read at the type the loader gives it. *)
Inductive import_outcome :=
| ImportThrows (msg : string)
| ImportOk (default : option WorkflowDefinition).

Inductive node :=
| File (module : import_outcome)
| Dir (entries : list (string * node))
| Special.

Inductive kind := IsFile | IsDirectory | IsOther.

(** A [Dirent] of [readdir(dir, { withFileTypes: true })] *)
Record Dirent := {
  dirent_name : string;
  dirent_kind : kind
}.

Definition isDirectory (e : Dirent) : bool :=
  match dirent_kind e with IsDirectory => true | _ => false end.

Definition isFile (e : Dirent) : bool :=
  match dirent_kind e with IsFile => true | _ => false end.

Definition kind_of (n : node) : kind :=
  match n with
  | File _ => IsFile
  | Dir _ => IsDirectory
  | Special => IsOther
  end.

Fixpoint walk (n : node) (segs : list string) : option node :=
  match segs with
  | [] => Some n
  | s :: rest =>
      match n with
      | Dir entries =>
          match get_prop entries s with
          | Some child => walk child rest
          | None => None
          end
      | _ => None
      end
  end.

Definition lookup (root : node) (path : string) : option node :=
  walk root (Path.segments path).

(** A tree as a file system holds it: every name in it is one segment of
    a path. *)
Fixpoint well_formed (n : node) : Prop :=
  match n with
  | Dir entries =>
      (fix all (es : list (string * node)) : Prop :=
         match es with
         | [] => True
         | e :: es' => Path.clean (fst e) ∧ well_formed (snd e) ∧ all es'
         end) entries
  | _ => True
  end.

(** [existsSync(path)] on an absolute path *)
Definition existsSync (root : node) (path : string) : bool :=
  match lookup root path with Some _ => true | None => false end.

(** [readdir(path, { withFileTypes: true })] *)
Definition readdir (root : node) (path : string) : result (list Dirent) :=
  match lookup root path with
  | Some (Dir entries) =>
      Ok (List.map (fun e => {| dirent_name := fst e; dirent_kind := kind_of (snd e) |}) entries)
  | Some _ => Err ("ENOTDIR: not a directory, scandir '" +:+ path +:+ "'")
  | None => Err ("ENOENT: no such file or directory, scandir '" +:+ path +:+ "'")
  end.

(** [import(pathToFileURL(path).href)] *)
Definition import (root : node) (path : string) : import_outcome :=
  match lookup root path with
  | Some (File module) => module
  | _ => ImportThrows ("Cannot find module '" +:+ path +:+ "'")
  end.

(** A chain of new directories. *)
Fixpoint fresh (segs : list string) : node :=
  match segs with
  | [] => Dir []
  | s :: rest => Dir [(s, fresh rest)]
  end.

(** [mkdir(path, { recursive: true })] below a node; [None] when something
    that is not a directory is in the way. *)
Fixpoint mkdirp (n : node) (segs : list string) : option node :=
  match segs with
  | [] =>
      match n with
      | Dir _ => Some n
      | _ => None
      end
  | s :: rest =>
      match n with
      | Dir entries =>
          match get_prop entries s with
          | Some child =>
              child' ← mkdirp child rest;
              Some (Dir (replace_prop s child' entries))
          | None => Some (Dir (entries ++ [(s, fresh rest)]))
          end
      | _ => None
      end
  end.

End FS.

(** The part of the process environment the sources read. [env_clock n] is
    what the [n]-th call of [Date.now()] of a run gives. *)
Record Env := {
  env_cwd : string;
  env_HOME : option string;
  env_USERPROFILE : option string;
  env_clock : nat -> Z
}.

(** ** loader.ts *)
Module Loader.
Import FS.

(** Default locations to search for workflows *)
Definition DEFAULT_WORKFLOW_PATHS : list string :=
  [ "./workflows"; "~/.chrome-claude/workflows" ].

Section Loader.
Variable env : Env.
Variable root : node.

Definition resolve (paths : list string) : string := Path.resolve (env_cwd env) paths.

(** Expand ~ to home directory *)
Definition expandHome (path : string) : string :=
  if startsWith path "~/" then
    let home :=
      match PromptBuilder.nonempty (env_HOME env) with
      | Some h => h
      | None => from_option id "" (PromptBuilder.nonempty (env_USERPROFILE env))
      end in
    resolve [home; slice 2 path]
  else path.

(** Find all workflow directories to search *)
Definition getWorkflowPaths (customPaths : option (list string)) : list string :=
  let paths := from_option id DEFAULT_WORKFLOW_PATHS customPaths in
  List.filter (existsSync root)
    (List.map (fun p => resolve [p]) (List.map expandHome paths)).

(** Load a workflow from a specific file path *)
Definition loadWorkflowFile (filePath : string) : result LoadedWorkflow :=
  let absolutePath := resolve [filePath] in
  if negb (existsSync root absolutePath)
  then Err ("Workflow file not found: " +:+ absolutePath)
  else
    let invalid :=
      "Invalid workflow: " +:+ absolutePath
      +:+ " - must export default a workflow definition" in
    let attempt : result LoadedWorkflow :=
      match import root absolutePath with
      | ImportThrows msg => Err msg
      | ImportOk None => Err invalid
      | ImportOk (Some definition) =>
          if String.eqb (wf_name definition) "" then Err invalid
          else Ok {| lw_definition := definition;
                     lw_filePath := absolutePath;
                     lw_directory := Path.dirname absolutePath |}
      end in
    match attempt with
    | Ok loaded => Ok loaded
    | Err msg => Err ("Failed to load workflow " +:+ absolutePath +:+ ": " +:+ msg)
    end.

(** One turn of the loop of [scanDirectory] over the entries; [scan_sub]
    is the recursive call. *)
Definition scan_entry (scan_sub : string -> result (list LoadedWorkflow)) (dir : string)
    (acc : result (list LoadedWorkflow)) (entry : Dirent) : result (list LoadedWorkflow) :=
  match acc with
  | Err msg => Err msg
  | Ok workflows =>
      let fullPath := resolve [dir; dirent_name entry] in
      if isDirectory entry && negb (startsWith (dirent_name entry) ".") then
        match scan_sub fullPath with
        | Ok nested => Ok (workflows ++ nested)
        | Err msg => Err msg
        end
      else if isFile entry && endsWith (dirent_name entry) ".ts"
              && negb (startsWith (dirent_name entry) "_") then
        match loadWorkflowFile fullPath with
        | Ok loaded => Ok (workflows ++ [loaded])
        | Err _ => Ok workflows
        end
      else Ok workflows
  end.

(** [scanDirectory] by the number of levels left,
    [maxDepth - currentDepth]. *)
Fixpoint scan (levels : nat) (dir : string) : result (list LoadedWorkflow) :=
  match levels with
  | O => Ok []
  | S levels' =>
      if negb (existsSync root dir) then Ok []
      else
        match readdir root dir with
        | Err msg => Err msg
        | Ok entries => fold_left (scan_entry (scan levels') dir) entries (Ok [])
        end
  end.

(** Recursively scan a directory for workflow files *)
Definition scanDirectory (dir : string) (maxDepth currentDepth : nat)
  : result (list LoadedWorkflow) :=
  scan (maxDepth - currentDepth) dir.

(** The loop of [listWorkflows] over the search paths. *)
Definition scan_path (acc : result (list LoadedWorkflow)) (searchPath : string)
  : result (list LoadedWorkflow) :=
  match acc with
  | Err msg => Err msg
  | Ok workflows =>
      match scanDirectory searchPath 2 0 with
      | Ok found => Ok (workflows ++ found)
      | Err msg => Err msg
      end
  end.

(** The callback of the final [filter]: the state is the set [seen] and
    the entries kept so far. *)
Definition dedupe_step (st : gset string * list LoadedWorkflow) (w : LoadedWorkflow)
  : gset string * list LoadedWorkflow :=
  let '(seen, kept) := st in
  if decide (wf_name (lw_definition w) ∈ seen) then (seen, kept)
  else ({[ wf_name (lw_definition w) ]} ∪ seen, kept ++ [w]).

(** Dedupe by name (first found wins) *)
Definition dedupe (workflows : list LoadedWorkflow) : list LoadedWorkflow :=
  snd (fold_left dedupe_step workflows (∅, [])).

(** List all available workflows *)
Definition listWorkflows (searchPaths : option (list string)) : result (list LoadedWorkflow) :=
  match fold_left scan_path (getWorkflowPaths searchPaths) (Ok []) with
  | Ok workflows => Ok (dedupe workflows)
  | Err msg => Err msg
  end.

(** The inner loop of [loadWorkflow]: [name.ts] one directory below. *)
Fixpoint find_nested (searchPath name : string) (entries : list Dirent)
  : option (result LoadedWorkflow) :=
  match entries with
  | [] => None
  | entry :: rest =>
      let nestedPath := resolve [searchPath; dirent_name entry; name +:+ ".ts"] in
      if isDirectory entry && existsSync root nestedPath
      then Some (loadWorkflowFile nestedPath)
      else find_nested searchPath name rest
  end.

(** The outer loop of [loadWorkflow]: what it returns or throws from
    inside the loop, if it does. *)
Fixpoint find_by_filename (name : string) (paths : list string)
  : option (result LoadedWorkflow) :=
  match paths with
  | [] => None
  | searchPath :: rest =>
      let directPath := resolve [searchPath; name +:+ ".ts"] in
      if existsSync root directPath then Some (loadWorkflowFile directPath)
      else
        match readdir root searchPath with
        | Err msg => Some (Err msg)
        | Ok entries =>
            match find_nested searchPath name entries with
            | Some r => Some r
            | None => find_by_filename name rest
            end
        end
  end.

(** Load a single workflow by name *)
Definition loadWorkflow (name : string) (searchPaths : option (list string))
  : result LoadedWorkflow :=
  let paths := getWorkflowPaths searchPaths in
  match find_by_filename name paths with
  | Some r => r
  | None =>
      match listWorkflows searchPaths with
      | Err msg => Err msg
      | Ok allWorkflows =>
          match List.find (fun w => String.eqb (wf_name (lw_definition w)) name) allWorkflows with
          | Some found => Ok found
          | None =>
              Err ("Workflow not found: " +:+ name +:+ nl
                   +:+ "Searched in: " +:+ join ", " paths)
          end
      end
  end.

(** Get workflow by name or path *)
Definition getWorkflow (nameOrPath : string) (searchPaths : option (list string))
  : result LoadedWorkflow :=
  if includes nameOrPath "/" || endsWith nameOrPath ".ts"
  then loadWorkflowFile nameOrPath
  else loadWorkflow nameOrPath searchPaths.
End Loader.

End Loader.

(** ** runner.ts *)
Module Runner.
Import FS.

Inductive stdio := Ignore | Pipes.

(** A call [spawn(command, args, { detached, stdio, shell })] *)
Record SpawnCall := {
  spawn_command : string;
  spawn_args : list string;
  spawn_detached : bool;
  spawn_stdio : stdio;
  spawn_shell : bool
}.

(** What a child process does, as the events its listeners receive. *)
Inductive ProcEvent :=
| StdoutData (data : string)
| StderrData (data : string)
| Close (code : option Z)
| ProcError (message : string).

Record Child := {
  child_pid : option N;
  child_events : list ProcEvent
}.

(** Everything a run can change. *)
Record World := {
  w_root : node;
  w_spawned : list SpawnCall;
  w_console : list string;
  w_stdout : list string;
  w_stderr : list string
}.

(** How an async function ends: its promise resolves, rejects, or stays
    pending for ever. *)
Inductive outcome (A : Type) :=
| Returns (a : A) (w : World)
| Throws (msg : string) (w : World)
| Pending (w : World).
Arguments Returns {A} a w.
Arguments Throws {A} msg w.
Arguments Pending {A} w.

Definition M (A : Type) : Type := World -> outcome A.

Definition ret {A} (a : A) : M A := fun w => Returns a w.

Definition bind {A B} (m : M A) (f : A -> M B) : M B :=
  fun w =>
    match m w with
    | Returns a w' => f a w'
    | Throws msg w' => Throws msg w'
    | Pending w' => Pending w'
    end.

Notation "'do' x <- m ; k" := (bind m (fun x => k))
  (at level 10, x name, m at level 100, k at level 200).
Notation "m ;; k" := (bind m (fun _ => k))
  (at level 100, k at level 200, right associativity).

Definition throw {A} (msg : string) : M A := fun w => Throws msg w.

Definition lift {A} (r : result A) : M A :=
  match r with
  | Ok a => ret a
  | Err msg => throw msg
  end.

(** [console.log(line)] *)
Definition console_log (line : string) : M unit :=
  fun w => Returns tt
    {| w_root := w_root w; w_spawned := w_spawned w; w_console := w_console w ++ [line];
       w_stdout := w_stdout w; w_stderr := w_stderr w |}.

(** [process.stdout.write(data)] *)
Definition stdout_write (data : string) (w : World) : World :=
  {| w_root := w_root w; w_spawned := w_spawned w; w_console := w_console w;
     w_stdout := w_stdout w ++ [data]; w_stderr := w_stderr w |}.

(** [process.stderr.write(data)] *)
Definition stderr_write (data : string) (w : World) : World :=
  {| w_root := w_root w; w_spawned := w_spawned w; w_console := w_console w;
     w_stdout := w_stdout w; w_stderr := w_stderr w ++ [data] |}.

(** [mkdir(dir, { recursive: true })] *)
Definition mkdir (dir : string) : M unit :=
  fun w =>
    match mkdirp (w_root w) (Path.segments dir) with
    | Some root' =>
        Returns tt
          {| w_root := root'; w_spawned := w_spawned w; w_console := w_console w;
             w_stdout := w_stdout w; w_stderr := w_stderr w |}
    | None => Throws ("ENOTDIR: not a directory, mkdir '" +:+ dir +:+ "'") w
    end.

(** [spawn(...)], when the system starts the process. A [spawn] that the
    system refuses outright (an argument with a NUL byte, a command line
    over the limit) throws instead; that is not modelled, and what is
    stated of the runs that spawn is stated of those on which it returns. *)
Definition spawn (call : SpawnCall) : M unit :=
  fun w => Returns tt
    {| w_root := w_root w; w_spawned := w_spawned w ++ [call]; w_console := w_console w;
       w_stdout := w_stdout w; w_stderr := w_stderr w |}.

Definition no_files : CapturedFiles :=
  {| files_network := None; files_screenshots := None;
     files_console := None; files_data := None |}.

Section Runner.
Variable compile : string -> list (string * value) -> option string.
Variable env : Env.
(** The process [spawn] starts during the run. *)
Variable child : Child.

(** Spawn a claude --chrome process *)
Definition spawnClaude (prompt : string) (detached : bool) : M Child :=
  let args := [ "--chrome"; "-p"; prompt; "--output-format"; "text" ] in
  spawn {| spawn_command := "claude"; spawn_args := args; spawn_detached := detached;
           spawn_stdio := if detached then Ignore else Pipes; spawn_shell := true |} ;;
  ret child.

(** Ensure a directory exists *)
Definition ensureDir (dir : string) : M unit :=
  fun w => if negb (existsSync (w_root w) dir) then mkdir dir w else Returns tt w.

(** Run workflow in background (non-blocking) *)
Definition runInBackground (prompt outputDir : string) (startTime : Z) : M RunResult :=
  do child <- spawnClaude prompt true;
  console_log ("Workflow running in background (PID: "
               +:+ from_option pretty "undefined" (child_pid child) +:+ ")") ;;
  console_log ("Output will be saved to: " +:+ outputDir) ;;
  ret {| res_success := true; res_outputDir := outputDir; res_files := no_files;
         res_error := None; res_duration := Some (env_clock env 1 - startTime)%Z |}.

(** The listeners of [runForeground] at work on the events of the child,
    [stdout] and [stderr] being the two buffers. *)
Fixpoint listen (events : list ProcEvent) (stdout stderr : string)
    (outputDir : string) (startTime : Z) : M RunResult :=
  match events with
  | [] => fun w => Pending w
  | StdoutData data :: rest =>
      fun w => listen rest (stdout +:+ data) stderr outputDir startTime (stdout_write data w)
  | StderrData data :: rest =>
      fun w => listen rest stdout (stderr +:+ data) outputDir startTime (stderr_write data w)
  | Close code :: _ =>
      let duration := (env_clock env 1 - startTime)%Z in
      match code with
      | Some 0%Z =>
          ret {| res_success := true; res_outputDir := outputDir; res_files := no_files;
                 res_error := None; res_duration := Some duration |}
      | _ =>
          ret {| res_success := false; res_outputDir := outputDir; res_files := no_files;
                 res_error :=
                   Some (if String.eqb stderr ""
                         then "Process exited with code " +:+ from_option pretty "null" code
                         else stderr);
                 res_duration := Some duration |}
      end
  | ProcError message :: _ =>
      ret {| res_success := false; res_outputDir := outputDir; res_files := no_files;
             res_error := Some message; res_duration := Some (env_clock env 1 - startTime)%Z |}
  end.

(** Run workflow in foreground (blocking) *)
Definition runForeground (prompt outputDir : string) (startTime : Z) : M RunResult :=
  do child <- spawnClaude prompt false;
  listen (child_events child) "" "" outputDir startTime.

(** Run a workflow by name *)
Definition runWorkflow (nameOrPath : string) (options : RunOptions) : M RunResult :=
  let startTime := env_clock env 0 in
  fun w =>
    (do loaded <- lift (Loader.getWorkflow env (w_root w) nameOrPath None);
     let definition := lw_definition loaded in
     let coercedParams := Validator.coerceParams (wf_params definition) (opt_params options) in
     let validation := Validator.validateParams definition coercedParams in
     if negb (valid validation) then
       ret {| res_success := false; res_outputDir := ""; res_files := no_files;
              res_error :=
                Some ("Parameter validation failed:" +:+ nl
                      +:+ Validator.formatErrors (errors validation));
              res_duration := None |}
     else
       let workDir :=
         from_option id (env_cwd env) (PromptBuilder.nonempty (opt_workDir options)) in
       let outputDir := Path.resolve (env_cwd env) [workDir; "output"; wf_name definition] in
       match PromptBuilder.buildPrompt compile definition (resolvedParams validation)
               (Some outputDir) with
       | None => throw "the template engine threw"
       | Some prompt =>
           if from_option id false (opt_dryRun options) then
             console_log "=== DRY RUN ===" ;;
             console_log ("Prompt that would be sent to Claude:" +:+ nl) ;;
             console_log prompt ;;
             console_log (nl +:+ "=== END DRY RUN ===") ;;
             ret {| res_success := true; res_outputDir := outputDir; res_files := no_files;
                    res_error := None;
                    res_duration := Some (env_clock env 1 - startTime)%Z |}
           else
             ensureDir outputDir ;;
             let background :=
               match opt_background options with
               | Some false => false
               | _ => true
               end in
             if background then runInBackground prompt outputDir startTime
             else runForeground prompt outputDir startTime
       end) w.

(** Execute a workflow definition directly (without loading from file) *)
Definition executeWorkflow (definition : WorkflowDefinition) (options : RunOptions)
  : M RunResult :=
  let startTime := env_clock env 0 in
  let coercedParams := Validator.coerceParams (wf_params definition) (opt_params options) in
  let validation := Validator.validateParams definition coercedParams in
  if negb (valid validation) then
    ret {| res_success := false; res_outputDir := ""; res_files := no_files;
           res_error :=
             Some ("Parameter validation failed:" +:+ nl
                   +:+ Validator.formatErrors (errors validation));
           res_duration := None |}
  else
    let workDir :=
      from_option id (env_cwd env) (PromptBuilder.nonempty (opt_workDir options)) in
    let outputDir := Path.resolve (env_cwd env) [workDir; "output"; wf_name definition] in
    match PromptBuilder.buildPrompt compile definition (resolvedParams validation)
            (Some outputDir) with
    | None => throw "the template engine threw"
    | Some prompt =>
        if from_option id false (opt_dryRun options) then
          console_log "=== DRY RUN ===" ;;
          console_log ("Prompt that would be sent to Claude:" +:+ nl) ;;
          console_log prompt ;;
          console_log (nl +:+ "=== END DRY RUN ===") ;;
          ret {| res_success := true; res_outputDir := outputDir; res_files := no_files;
                 res_error := None;
                 res_duration := Some (env_clock env 1 - startTime)%Z |}
        else
          ensureDir outputDir ;;
          let background :=
            match opt_background options with
            | Some false => false
            | _ => true
            end in
          if background then runInBackground prompt outputDir startTime
          else runForeground prompt outputDir startTime
    end.
End Runner.

(** The events of a child that carry output, and what they carry on each
    of the two streams, in order. *)
Definition is_data (e : ProcEvent) : bool :=
  match e with
  | StdoutData _ | StderrData _ => true
  | _ => false
  end.

Fixpoint stdout_chunks (events : list ProcEvent) : list string :=
  match events with
  | [] => []
  | StdoutData data :: rest => data :: stdout_chunks rest
  | _ :: rest => stdout_chunks rest
  end.

Fixpoint stderr_chunks (events : list ProcEvent) : list string :=
  match events with
  | [] => []
  | StderrData data :: rest => data :: stderr_chunks rest
  | _ :: rest => stderr_chunks rest
  end.

(** The call [spawnClaude] makes. *)
Definition claude_call (prompt : string) (detached : bool) : SpawnCall :=
  {| spawn_command := "claude";
     spawn_args := [ "--chrome"; "-p"; prompt; "--output-format"; "text" ];
     spawn_detached := detached;
     spawn_stdio := if detached then Ignore else Pipes;
     spawn_shell := true |}.

End Runner.

(** ** cli.ts: the reading of the workflow parameters *)
Module Cli.

(** [params[paramName] = v] on the object [extractParams] fills, [v] being
    a string or [true]: under the key [__proto__] such a value is handed to
    the setter of [Object.prototype], which ignores it. *)
Definition assign (paramName : string) (v : value) (params : list (string * value))
  : list (string * value) :=
  if String.eqb paramName "__proto__" then params else set_prop paramName v params.

(** The first loop of [extractParams]: the arguments after the first one
    that is the workflow name (none when it does not occur). *)
Fixpoint skip_past (skipFirst : string) (args : list string) : list string :=
  match args with
  | [] => []
  | arg :: rest => if String.eqb arg skipFirst then rest else skip_past skipFirst rest
  end.

(** The second loop of [extractParams], from the argument at [i] on. *)
Fixpoint read_args (args : list string) (params : list (string * value))
  : list (string * value) :=
  match args with
  | [] => params
  | arg :: rest =>
      if startsWith arg "--" then
        match split "=" (slice 2 arg) with
        | key :: [] =>
            match rest with
            | next :: rest' =>
                if negb (startsWith next "--")
                then read_args rest' (assign key (VString next) params)
                else read_args rest (assign key (VBool true) params)
            | [] => read_args rest (assign key (VBool true) params)
            end
        | key :: valueParts =>
            read_args rest (assign key (VString (join "=" valueParts)) params)
        | [] => read_args rest params (* [split] gives one part at least *)
        end
      else read_args rest params
  end.

(** Extract workflow params from command line args *)
Definition extractParams (args : list string) (skipFirst : string) : list (string * value) :=
  read_args (skip_past skipFirst args) [].

(** Arguments that cannot be taken for the value of the option before
    them: there is none, or the first is itself an option. *)
Definition option_first (tail : list string) : Prop :=
  match tail with
  | [] => True
  | t :: _ => startsWith t "--" = true
  end.

(** What a command line can give a parameter: [true] or a string. *)
Definition from_cli (kv : string * value) : Prop :=
  snd kv = VBool true ∨ ∃ s, snd kv = VString s.

End Cli.

(** ** Sample definitions and inputs *)
Module Examples.

Definition no_capture : CaptureConfig :=
  {| cap_network := None; cap_screenshots := None; cap_console := None; cap_data := None |}.

Definition param (type : ParamType) (required : bool) (default : value) : ParamDefinition :=
  {| param_type := type; param_required := required; param_default := default;
     param_description := None |}.

Definition workflow (name : string) (params : ParamsSchema) (task : string)
  : WorkflowDefinition :=
  {| wf_name := name; wf_description := None; wf_params := params;
     wf_capture := no_capture; wf_task := task |}.

(** [params: { url: { type: 'string', required: true } }] *)
Definition open_page : WorkflowDefinition :=
  workflow "open-page" [("url", param TString true VUndefined)] "Go to {{url}}".

(** [params: { count: { type: 'number', default: 3 } }] *)
Definition repeat_task : WorkflowDefinition :=
  workflow "repeat" [("count", param TNumber false (VNumber (of_Z 3)))]
    "Do the thing {{count}} times".

(** [params: { verbose: { type: 'boolean' } }] *)
Definition toggle : WorkflowDefinition :=
  workflow "toggle" [("verbose", param TBoolean false VUndefined)] "Report {{verbose}}".

(** [params: { x: { type: 'string' } }] *)
Definition echo : WorkflowDefinition :=
  workflow "echo" [("x", param TString false VUndefined)] "say {{x}} and {{y}}.".

(** [params: { tags: { type: 'array', required: true } }] *)
Definition tagged : WorkflowDefinition :=
  workflow "tagged" [("tags", param TArray true VUndefined)] "Visit the pages tagged {{tags}}".


(** [params: { who: { type: 'string', required: true, default: 'world' } }] *)
Definition greet : WorkflowDefinition :=
  workflow "greet" [("who", param TString true (VString "world"))] "Greet {{who}}".

(** [params: { retries: { type: 'number', required: true } }] *)
Definition retry : WorkflowDefinition :=
  workflow "retry" [("retries", param TNumber true VUndefined)] "Try {{retries}} times".

(** A workflow with a parameter called [name]. *)
Definition self_named : WorkflowDefinition :=
  workflow "report" [("name", param TString false VUndefined)]
    "Run {{name}} into {{outputDir}}.".

(** The capture configuration of the [scrape-pricing] workflow of the
    repository, under a short task. *)
Definition pricing : WorkflowDefinition :=
  {| wf_name := "scrape-pricing";
     wf_description := Some "Extract pricing info from competitor site";
     wf_params := [("url", param TString true VUndefined);
                   ("competitor", param TString true VUndefined)];
     wf_capture :=
       {| cap_network :=
            Some {| net_patterns := ["*/api/pricing*"; "*/api/plans*"; "*/api/products*"];
                    net_methods := None; net_statusCodes := None; net_contentType := None;
                    net_saveDir := "./output/{{name}}/{{competitor}}/network/";
                    net_extractJson := Some true;
                    net_includeRequestHeaders := None;
                    net_includeResponseHeaders := None |};
          cap_screenshots := Some (inl "./output/{{name}}/{{competitor}}/screenshots/");
          cap_console := None;
          cap_data := Some "./output/{{name}}/{{competitor}}/pricing.json" |};
     wf_task := "Extract pricing information from {{url}} for competitor: {{competitor}}" |}.

(** [params: { count: { type: 'number', default: 'many' } }] *)
Definition miscount : WorkflowDefinition :=
  workflow "miscount" [("count", param TNumber false (VString "many"))] "Count {{count}}".

End Examples.

(** ** A sample tree: a project with local workflows and a home directory
    with global ones; both declare a workflow named [alpha]. *)
Module Sample.
Import FS.

Definition alpha_local : WorkflowDefinition :=
  Examples.workflow "alpha" [("url", Examples.param TString true VUndefined)]
    "Go to {{url}}".

Definition alpha_global : WorkflowDefinition :=
  Examples.workflow "alpha" [] "Do the global thing".

Definition beta_global : WorkflowDefinition :=
  Examples.workflow "beta" [] "Do another thing".

Definition root : node :=
  Dir [ ("home",
         Dir [ ("u",
                Dir [ (".chrome-claude",
                       Dir [ ("workflows",
                              Dir [ ("a.ts", File (ImportOk (Some alpha_global)));
                                    ("b.ts", File (ImportOk (Some beta_global))) ]) ]);
                      ("proj",
                       Dir [ ("workflows",
                              Dir [ ("qa",
                                     Dir [ ("first.ts", File (ImportOk (Some alpha_local))) ]);
                                    ("broken.ts", File (ImportThrows "Unexpected token")) ]) ]) ]) ]) ].

Definition env : Env :=
  {| env_cwd := "/home/u/proj"; env_HOME := Some "/home/u"; env_USERPROFILE := None;
     env_clock := fun n => (1000 + 250 * Z.of_nat n)%Z |}.

Definition loaded (definition : WorkflowDefinition) (filePath directory : string)
  : LoadedWorkflow :=
  {| lw_definition := definition; lw_filePath := filePath; lw_directory := directory |}.

Definition idle : Runner.World :=
  {| Runner.w_root := root; Runner.w_spawned := []; Runner.w_console := [];
     Runner.w_stdout := []; Runner.w_stderr := [] |}.

Definition quiet_child : Runner.Child :=
  {| Runner.child_pid := Some 4242%N; Runner.child_events := [Runner.Close (Some 0%Z)] |}.

Definition request (params : list (string * value)) (dryRun : option bool) : RunOptions :=
  {| opt_params := params; opt_background := None; opt_workDir := None; opt_dryRun := dryRun |}.

(** A child that prints, complains and closes with code 1. *)
Definition failing_child : Runner.Child :=
  {| Runner.child_pid := Some 4243%N;
     Runner.child_events :=
       [ Runner.StdoutData "opening the page"; Runner.StderrData "no such ";
         Runner.StdoutData "..."; Runner.StderrData "page"; Runner.Close (Some 1%Z);
         Runner.StdoutData "late" ] |}.

(** A child that prints and never closes. *)
Definition hanging_child : Runner.Child :=
  {| Runner.child_pid := Some 4244%N;
     Runner.child_events := [ Runner.StdoutData "waiting"; Runner.StderrData "still waiting" ] |}.

End Sample.

(** * Properties *)

(** ** Strings *)
Section StringFacts.
Implicit Types (s t p r : string) (c : ascii).

Lemma sapp_cons c s t : String c s +:+ t = String c (s +:+ t).
Proof. reflexivity. Qed.

Lemma sapp_nil_l t : "" +:+ t = t.
Proof. reflexivity. Qed.

Lemma sapp_nil_r s : s +:+ "" = s.
Proof. induction s as [|c s IH]; [reflexivity | rewrite sapp_cons, IH; reflexivity]. Qed.

Lemma sapp_assoc s t r : (s +:+ t) +:+ r = s +:+ t +:+ r.
Proof. induction s as [|c s IH]; [reflexivity | rewrite !sapp_cons, IH; reflexivity]. Qed.

Lemma sapp_length s t : String.length (s +:+ t) = String.length s + String.length t.
Proof.
  induction s as [|c s IH]; [reflexivity | rewrite sapp_cons; simpl; rewrite IH; reflexivity].
Qed.

Lemma rev_app_spec s t : String.rev_app s t = String.rev s +:+ t.
Proof.
  unfold String.rev. revert t. induction s as [|c s IH]; intros t; simpl; [reflexivity|].
  rewrite (IH (String c t)), (IH (String c "")), sapp_assoc. reflexivity.
Qed.

Lemma rev_cons c s : String.rev (String c s) = String.rev s +:+ String c "".
Proof. unfold String.rev at 1. simpl. apply rev_app_spec. Qed.

Lemma rev_app_distr s t : String.rev (s +:+ t) = String.rev t +:+ String.rev s.
Proof.
  induction s as [|c s IH].
  - rewrite sapp_nil_l, sapp_nil_r. reflexivity.
  - rewrite sapp_cons, !rev_cons, IH, sapp_assoc. reflexivity.
Qed.

Lemma rev_involutive s : String.rev (String.rev s) = s.
Proof.
  induction s as [|c s IH]; [reflexivity|].
  rewrite rev_cons, rev_app_distr, IH. reflexivity.
Qed.

Lemma rev_length s : String.length (String.rev s) = String.length s.
Proof.
  induction s as [|c s IH]; [reflexivity|].
  rewrite rev_cons, sapp_length, IH. simpl. lia.
Qed.

Lemma strip_prefix_Some p s r : strip_prefix p s = Some r -> s = p +:+ r.
Proof.
  revert s. induction p as [|c p IH]; intros s; simpl.
  - intros [= ->]. reflexivity.
  - destruct s as [|d s]; [discriminate|].
    destruct (Ascii.eqb c d) eqn:E; [|discriminate].
    apply Ascii.eqb_eq in E. subst d. intros H. rewrite (IH _ H), sapp_cons. reflexivity.
Qed.

Lemma strip_prefix_app p r : strip_prefix p (p +:+ r) = Some r.
Proof.
  induction p as [|c p IH]; [reflexivity|].
  rewrite sapp_cons. simpl. rewrite Ascii.eqb_refl. exact IH.
Qed.

Lemma strip_one_Some seqs s r :
  strip_one seqs s = Some r -> ∃ w, w ∈ seqs ∧ s = w +:+ r.
Proof.
  induction seqs as [|p seqs IH]; simpl; [discriminate|].
  destruct (strip_prefix p s) as [r'|] eqn:E.
  - intros [= ->]. exists p. split; [left | apply strip_prefix_Some, E].
  - intros H. destruct (IH H) as (w & Hw & ->). exists w. split; [right|]; auto.
Qed.

(** What [strip_many] removes is a run of the given sequences. *)
Lemma strip_many_split fuel seqs s :
  ∃ ws, s = String.concat "" ws +:+ strip_many fuel seqs s ∧ Forall (.∈ seqs) ws.
Proof.
  revert s. induction fuel as [|fuel IH]; intros s; simpl.
  - exists []. split; [reflexivity | constructor].
  - destruct (strip_one seqs s) as [r|] eqn:E.
    + apply strip_one_Some in E as (w & Hw & ->).
      destruct (IH r) as (ws & Hr & Hws). exists (w :: ws). split; [|constructor; auto].
      destruct ws as [|w' ws].
      * simpl in *. rewrite sapp_nil_l in Hr. congruence.
      * change (String.concat "" (w :: w' :: ws))
          with (w +:+ "" +:+ String.concat "" (w' :: ws)).
        rewrite sapp_nil_l, sapp_assoc. congruence.
    + exists []. split; [reflexivity | constructor].
Qed.

(** With fuel for every character, nothing is left to strip. *)
Lemma strip_many_done fuel seqs s :
  Forall (λ w, w ≠ "") seqs -> String.length s <= fuel ->
  strip_one seqs (strip_many fuel seqs s) = None.
Proof.
  intros Hne. revert s. induction fuel as [|fuel IH]; intros s Hlen; simpl.
  - destruct s; [|simpl in Hlen; lia].
    clear Hlen. induction Hne as [|w seqs Hw _ IH']; simpl; [reflexivity|].
    destruct w; [congruence | exact IH'].
  - destruct (strip_one seqs s) as [r|] eqn:E; [|exact E].
    apply IH. apply strip_one_Some in E as (w & Hw & ->).
    rewrite Forall_forall in Hne. specialize (Hne w Hw).
    rewrite sapp_length in Hlen. destruct w; [congruence | simpl in Hlen; lia].
Qed.

Lemma white_space_nonempty : Forall (λ w, w ≠ "") white_space.
Proof. repeat constructor; discriminate. Qed.

Lemma blank_concat ws : Forall (.∈ white_space) ws -> blank (String.concat "" ws).
Proof.
  induction 1 as [|w ws Hw _ IH]; simpl; [constructor|].
  destruct ws as [|w' ws].
  - rewrite <- (sapp_nil_r w). constructor; [assumption | constructor].
  - constructor; assumption.
Qed.

Lemma blank_app s t : blank s -> blank t -> blank (s +:+ t).
Proof.
  induction 1 as [|w s Hw _ IH]; intros Ht; simpl; [assumption|].
  rewrite sapp_assoc. constructor; auto.
Qed.

Lemma blank_rev_concat ws :
  Forall (.∈ List.map String.rev white_space) ws -> blank (String.rev (String.concat "" ws)).
Proof.
  induction 1 as [|w ws Hw _ IH]; simpl; [constructor|].
  assert (Hb : blank (String.rev w)).
  { apply list_elem_of_fmap in Hw as (w0 & -> & Hw0). rewrite rev_involutive.
    rewrite <- (sapp_nil_r w0). constructor; [assumption | constructor]. }
  destruct ws as [|w' ws]; [exact Hb|].
  rewrite rev_app_distr. apply blank_app; assumption.
Qed.

(** [trim] removes white space at both ends and nothing else, and leaves
    none at either end. *)
Lemma trim_spec s :
  ∃ l r, s = l +:+ trim s +:+ r ∧ blank l ∧ blank r
         ∧ strip_one white_space (trim s) = None
         ∧ strip_one (List.map String.rev white_space) (String.rev (trim s)) = None.
Proof.
  unfold trim, trimEnd, trimStart.
  destruct (strip_many_split (String.length s) white_space s) as (ws & Hs & Hws).
  set (m := strip_many (String.length s) white_space s) in *.
  destruct (strip_many_split (String.length m) (List.map String.rev white_space)
              (String.rev m)) as (ws' & Hm & Hws').
  set (e := strip_many (String.length m) (List.map String.rev white_space) (String.rev m)) in *.
  assert (Hm' : m = String.rev e +:+ String.rev (String.concat "" ws')).
  { rewrite <- (rev_involutive m), Hm, rev_app_distr. reflexivity. }
  exists (String.concat "" ws), (String.rev (String.concat "" ws')).
  split; [rewrite <- Hm'; exact Hs|].
  split; [apply blank_concat, Hws|].
  split; [apply blank_rev_concat, Hws'|].
  assert (Hend : strip_one (List.map String.rev white_space) e = None).
  { apply strip_many_done.
    - apply Forall_fmap. eapply Forall_impl; [apply white_space_nonempty|].
      intros w Hw Hr. apply Hw. rewrite <- (rev_involutive w), Hr. reflexivity.
    - rewrite rev_length. lia. }
  split; [|rewrite rev_involutive; exact Hend].
  assert (Hstart : strip_one white_space m = None).
  { apply strip_many_done; [apply white_space_nonempty | lia]. }
  destruct (strip_one white_space (String.rev e)) as [r|] eqn:E; [|reflexivity].
  apply strip_one_Some in E as (w & Hw & He).
  exfalso. rewrite Hm', He, sapp_assoc in Hstart.
  clear -Hw Hstart. revert Hstart. generalize (r +:+ String.rev (String.concat "" ws')).
  intros t. induction white_space as [|p seqs IH]; [apply elem_of_nil in Hw; contradiction|].
  simpl. apply elem_of_cons in Hw as [->|Hw].
  - rewrite strip_prefix_app. discriminate.
  - destruct (strip_prefix p (w +:+ t)); [discriminate | auto].
Qed.
End StringFacts.

(** ** JSON.parse: the fuel is enough *)
Section JSONFacts.
Implicit Types (s t r : string) (v : value).

Lemma strip_prefix_length p s r :
  strip_prefix p s = Some r -> String.length s = String.length p + String.length r.
Proof. intros H. apply strip_prefix_Some in H. subst s. apply sapp_length. Qed.

Lemma skip_json_ws_le s : String.length (skip_json_ws s) <= String.length s.
Proof.
  induction s as [|c s IH]; simpl; [lia|].
  destruct (_ || _); simpl; lia.
Qed.

Lemma read_digits_length base s acc cnt n c r :
  read_digits base s acc cnt = (n, c, r) ->
  String.length r + c = String.length s + cnt.
Proof.
  revert acc cnt. induction s as [|d s IH]; intros acc cnt; simpl.
  - intros [= <- <- <-]. reflexivity.
  - destruct (digit_val base d).
    + intros H. apply IH in H. lia.
    + intros [= <- <- <-]. reflexivity.
Qed.

Lemma read_sign_le s : String.length (snd (read_sign s)) <= String.length s.
Proof.
  destruct s as [|c s]; simpl; [lia|].
  destruct (Ascii.eqb c "+"); [simpl; lia|].
  destruct (Ascii.eqb c "-"); simpl; lia.
Qed.

Lemma read_exponent_le s ex r :
  read_exponent s = Some (ex, r) -> String.length r <= String.length s.
Proof.
  destruct s as [|c s]; simpl; [intros [= <- <-]; simpl; lia|].
  destruct (_ || _); [|intros [= <- <-]; simpl; lia].
  pose proof (read_sign_le s) as Hs. destruct (read_sign s) as [eneg r1]. simpl in Hs.
  destruct (read_digits 10 r1 0 0) as [[ev c'] rest] eqn:Hd.
  apply read_digits_length in Hd. destruct c'; [discriminate|].
  intros [= <- <-]. lia.
Qed.

Lemma read_json_number_lt s n r :
  read_json_number s = Some (n, r) -> String.length r < String.length s.
Proof.
  unfold read_json_number.
  assert (H1 : ∃ neg s1, match strip_prefix "-" s with
                         | Some r => (true, r) | None => (false, s) end = (neg, s1)
                         ∧ String.length s1 <= String.length s).
  { destruct (strip_prefix "-" s) as [r0|] eqn:E; eexists _, _; (split; [reflexivity|]).
    - apply strip_prefix_length in E. lia.
    - lia. }
  destruct H1 as (neg & s1 & -> & Hs1).
  assert (H2 : ∃ ip ni s2, match strip_prefix "0" s1 with
                           | Some r => (0%N, 1, r) | None => read_digits 10 s1 0 0 end
                           = (ip, ni, s2)
                           ∧ String.length s2 + ni <= String.length s1).
  { destruct (strip_prefix "0" s1) as [r0|] eqn:E.
    - eexists _, _, _. split; [reflexivity|]. apply strip_prefix_length in E. simpl in E. lia.
    - destruct (read_digits 10 s1 0 0) as [[ip ni] s2] eqn:Hd.
      eexists _, _, _. split; [reflexivity|]. apply read_digits_length in Hd. lia. }
  destruct H2 as (ip & ni & s2 & -> & Hs2).
  destruct ni as [|ni]; [discriminate|].
  destruct (strip_prefix "." s2) as [r0|] eqn:E.
  - apply strip_prefix_length in E.
    destruct (read_digits 10 r0 ip 0) as [[m nf] s3] eqn:Hd.
    apply read_digits_length in Hd. destruct nf; [discriminate|].
    destruct (read_exponent s3) as [[ex rest]|] eqn:He; [|discriminate].
    apply read_exponent_le in He. intros [= <- <-]. lia.
  - destruct (read_exponent s2) as [[ex rest]|] eqn:He; [|discriminate].
    apply read_exponent_le in He. intros [= <- <-]. lia.
Qed.

Lemma read_hex4_length s n r :
  read_hex4 s = Some (n, r) -> String.length s = 4 + String.length r.
Proof.
  destruct s as [|a [|b [|c [|d s]]]]; try discriminate. simpl.
  repeat match goal with |- context [digit_val 16 ?x] => destruct (digit_val 16 x) end;
    try discriminate.
  intros [= <- <-]. reflexivity.
Qed.

Lemma read_json_chars_lt fuel s acc str r :
  read_json_chars fuel s acc = Some (str, r) -> String.length r < String.length s.
Proof.
  revert s acc. induction fuel as [|fuel IH]; intros s acc; [discriminate|].
  cbn [read_json_chars]. destruct s as [|c s]; [discriminate|].
  destruct (Ascii.eqb c dquote); [intros [= <- <-]; simpl; lia|].
  destruct (_ <? _)%N; [discriminate|].
  destruct (Ascii.eqb c "\").
  - destruct s as [|e s]; [discriminate|].
    repeat match goal with
           | |- context [if Ascii.eqb e ?x then _ else _] =>
               destruct (Ascii.eqb e x); [intros H; apply IH in H; simpl; lia|]
           end.
    destruct (Ascii.eqb e "u"); [|discriminate].
    destruct (read_hex4 s) as [[hi r2]|] eqn:Hh; [|discriminate].
    apply read_hex4_length in Hh.
    match goal with
    | |- match ?p with _ => _ end = _ -> _ => destruct p as [[cp r4]|] eqn:Hp
    end.
    + intros H. apply IH in H. revert Hp.
      destruct (_ && _); [|discriminate].
      destruct (strip_prefix "\u" r2) as [r3|] eqn:Hs; [|discriminate].
      apply strip_prefix_length in Hs. simpl in Hs.
      destruct (read_hex4 r3) as [[lo r4']|] eqn:Hl; [|discriminate].
      apply read_hex4_length in Hl.
      destruct (_ && _); [|discriminate].
      intros [= <- <-]. simpl. lia.
    + intros H. apply IH in H. simpl. lia.
  - intros H. apply IH in H. simpl. lia.
Qed.

Lemma read_json_scalar_lt t v r :
  read_json_scalar t = Some (v, r) -> String.length r < String.length t.
Proof.
  unfold read_json_scalar.
  destruct (strip_prefix (String dquote "") t) as [r0|] eqn:Eq.
  - apply strip_prefix_length in Eq. unfold read_json_string.
    destruct (read_json_chars (String.length r0) r0 "") as [[str r']|] eqn:Hc; [|discriminate].
    apply read_json_chars_lt in Hc. intros [= <- <-]. simpl in Eq. lia.
  - destruct (strip_prefix "true" t) as [r1|] eqn:E1.
    { apply strip_prefix_length in E1. intros [= <- <-]. simpl in E1. lia. }
    destruct (strip_prefix "false" t) as [r2|] eqn:E2.
    { apply strip_prefix_length in E2. intros [= <- <-]. simpl in E2. lia. }
    destruct (strip_prefix "null" t) as [r3|] eqn:E3.
    { apply strip_prefix_length in E3. intros [= <- <-]. simpl in E3. lia. }
    destruct (read_json_number t) as [[n r4]|] eqn:Hn; [|discriminate].
    apply read_json_number_lt in Hn. intros [= <- <-]. exact Hn.
Qed.

Lemma after_value_Some o v r :
  after_value o = Some (v, r) -> ∃ r0, o = Some (v, r0) ∧ r = skip_json_ws r0.
Proof. destruct o as [[v0 r0]|]; simpl; [|discriminate]. intros [= <- <-]. eauto. Qed.

(** What is read is taken from the text. *)
Lemma read_json_shorter n :
  (∀ s v r, read_json_value n s = Some (v, r) -> String.length r < String.length s)
  ∧ (∀ s acc v r, read_json_elements n s acc = Some (v, r) ->
                  String.length r < String.length s)
  ∧ (∀ s acc v r, read_json_members n s acc = Some (v, r) ->
                  String.length r < String.length s).
Proof.
  induction n as [|n (IHv & IHe & IHm)]; [repeat split; discriminate|].
  split; [|split].
  - intros s v r. cbn [read_json_value].
    pose proof (skip_json_ws_le s) as Hs.
    destruct (strip_prefix "{" (skip_json_ws s)) as [r0|] eqn:Eo.
    + apply strip_prefix_length in Eo. simpl in Eo.
      pose proof (skip_json_ws_le r0) as Hr0.
      destruct (strip_prefix "}" (skip_json_ws r0)) as [r1|] eqn:Ec; intros H;
        apply after_value_Some in H as (r2 & H & ->); pose proof (skip_json_ws_le r2).
      * injection H as <- <-. apply strip_prefix_length in Ec. simpl in Ec. lia.
      * apply IHm in H. lia.
    + destruct (strip_prefix "[" (skip_json_ws s)) as [r0|] eqn:Ea.
      * apply strip_prefix_length in Ea. simpl in Ea.
        pose proof (skip_json_ws_le r0) as Hr0.
        destruct (strip_prefix "]" (skip_json_ws r0)) as [r1|] eqn:Ec; intros H;
          apply after_value_Some in H as (r2 & H & ->); pose proof (skip_json_ws_le r2).
        -- injection H as <- <-. apply strip_prefix_length in Ec. simpl in Ec. lia.
        -- apply IHe in H. lia.
      * intros H. apply after_value_Some in H as (r2 & H & ->).
        pose proof (skip_json_ws_le r2). apply read_json_scalar_lt in H. lia.
  - intros s acc v r. cbn [read_json_elements].
    destruct (read_json_value n s) as [[v0 rest]|] eqn:Hv; [|discriminate].
    apply IHv in Hv.
    destruct (strip_prefix "," rest) as [r0|] eqn:Ec.
    + apply strip_prefix_length in Ec. simpl in Ec. intros H. apply IHe in H. lia.
    + destruct (strip_prefix "]" rest) as [r0|] eqn:Eb; [|discriminate].
      apply strip_prefix_length in Eb. simpl in Eb. intros [= <- <-]. lia.
  - intros s acc v r. cbn [read_json_members].
    pose proof (skip_json_ws_le s) as Hs.
    destruct (strip_prefix (String dquote "") (skip_json_ws s)) as [r0|] eqn:Eq; [|discriminate].
    apply strip_prefix_length in Eq. simpl in Eq. unfold read_json_string.
    destruct (read_json_chars (String.length r0) r0 "") as [[k r1]|] eqn:Hk; [|discriminate].
    apply read_json_chars_lt in Hk. pose proof (skip_json_ws_le r1) as Hr1.
    destruct (strip_prefix ":" (skip_json_ws r1)) as [r2|] eqn:Ecol; [|discriminate].
    apply strip_prefix_length in Ecol. simpl in Ecol.
    destruct (read_json_value n r2) as [[v0 rest]|] eqn:Hv; [|discriminate].
    apply IHv in Hv.
    destruct (strip_prefix "," rest) as [r3|] eqn:Ec.
    + apply strip_prefix_length in Ec. simpl in Ec. intros H. apply IHm in H. lia.
    + destruct (strip_prefix "}" rest) as [r3|] eqn:Eb; [|discriminate].
      apply strip_prefix_length in Eb. simpl in Eb. intros [= <- <-]. lia.
Qed.

(** From two units of fuel for each character on, the fuel does not
    matter. *)
Lemma read_json_fuel n :
  (∀ m s, 2 * String.length s + 2 <= n -> 2 * String.length s + 2 <= m ->
          read_json_value n s = read_json_value m s)
  ∧ (∀ m s acc, 2 * String.length s + 3 <= n -> 2 * String.length s + 3 <= m ->
                read_json_elements n s acc = read_json_elements m s acc)
  ∧ (∀ m s acc, 2 * String.length s + 3 <= n -> 2 * String.length s + 3 <= m ->
                read_json_members n s acc = read_json_members m s acc).
Proof.
  induction n as [|n (IHv & IHe & IHm)]; [repeat split; intros; lia|].
  destruct (read_json_shorter n) as (Sv & Se & Sm).
  split; [|split].
  - intros [|m] s Hn Hm; [lia|]. cbn [read_json_value].
    pose proof (skip_json_ws_le s) as Hs.
    destruct (strip_prefix "{" (skip_json_ws s)) as [r0|] eqn:Eo.
    + apply strip_prefix_length in Eo. simpl in Eo.
      pose proof (skip_json_ws_le r0) as Hr0.
      destruct (strip_prefix "}" (skip_json_ws r0)); [reflexivity|].
      rewrite (IHm m) by lia. reflexivity.
    + destruct (strip_prefix "[" (skip_json_ws s)) as [r0|] eqn:Ea; [|reflexivity].
      apply strip_prefix_length in Ea. simpl in Ea.
      pose proof (skip_json_ws_le r0) as Hr0.
      destruct (strip_prefix "]" (skip_json_ws r0)); [reflexivity|].
      rewrite (IHe m) by lia. reflexivity.
  - intros [|m] s acc Hn Hm; [lia|]. cbn [read_json_elements].
    rewrite (IHv m) by lia.
    destruct (read_json_value m s) as [[v0 rest]|] eqn:Hv; [|reflexivity].
    rewrite <- (IHv m) in Hv by lia. apply Sv in Hv.
    destruct (strip_prefix "," rest) as [r0|] eqn:Ec; [|reflexivity].
    apply strip_prefix_length in Ec. simpl in Ec. apply IHe; lia.
  - intros [|m] s acc Hn Hm; [lia|]. cbn [read_json_members].
    pose proof (skip_json_ws_le s) as Hs.
    destruct (strip_prefix (String dquote "") (skip_json_ws s)) as [r0|] eqn:Eq; [|reflexivity].
    apply strip_prefix_length in Eq. simpl in Eq. unfold read_json_string.
    destruct (read_json_chars (String.length r0) r0 "") as [[k r1]|] eqn:Hk; [|reflexivity].
    apply read_json_chars_lt in Hk. pose proof (skip_json_ws_le r1) as Hr1.
    destruct (strip_prefix ":" (skip_json_ws r1)) as [r2|] eqn:Ecol; [|reflexivity].
    apply strip_prefix_length in Ecol. simpl in Ecol.
    rewrite (IHv m) by lia.
    destruct (read_json_value m r2) as [[v0 rest]|] eqn:Hv; [|reflexivity].
    rewrite <- (IHv m) in Hv by lia. apply Sv in Hv.
    destruct (strip_prefix "," rest) as [r3|] eqn:Ec; [|reflexivity].
    apply strip_prefix_length in Ec. simpl in Ec. apply IHm; lia.
Qed.

(** [JSON_parse] does not fail for want of fuel. *)
Lemma JSON_parse_fuel s n :
  2 * String.length s + 2 <= n ->
  read_json_value n s = read_json_value (2 * String.length s + 2) s.
Proof. intros H. apply read_json_fuel; lia. Qed.
End JSONFacts.

(** ** Dictionaries *)
Section PropsFacts.
Context {A : Type}.
Implicit Types (o : list (string * A)) (k : string) (v : A).

Lemma get_prop_app o o' k :
  get_prop (o ++ o') k =
  match get_prop o k with Some x => Some x | None => get_prop o' k end.
Proof.
  induction o as [|[k0 v0] o IH]; simpl; [reflexivity|].
  destruct (String.eqb k0 k); [reflexivity | exact IH].
Qed.

Lemma get_prop_replace o k v k' :
  get_prop (replace_prop k v o) k' =
  if String.eqb k k'
  then match get_prop o k with Some _ => Some v | None => None end
  else get_prop o k'.
Proof.
  induction o as [|[k0 v0] o IH]; simpl.
  - destruct (String.eqb k k'); reflexivity.
  - destruct (String.eqb k0 k) eqn:E0; simpl.
    + apply String.eqb_eq in E0. subst k0.
      destruct (String.eqb k k'); reflexivity.
    + destruct (String.eqb k0 k') eqn:E1; simpl.
      * apply String.eqb_eq in E1. subst k0.
        rewrite String.eqb_sym, E0. reflexivity.
      * exact IH.
Qed.

Lemma get_prop_insert_index i o k v k' :
  get_prop o k = None ->
  get_prop (insert_index i k v o) k' = if String.eqb k k' then Some v else get_prop o k'.
Proof.
  induction o as [|[k0 v0] o IH]; simpl; intros Hnone.
  - reflexivity.
  - destruct (String.eqb k0 k) eqn:E0; [discriminate|].
    assert (Hins : get_prop ((k, v) :: (k0, v0) :: o) k'
                   = if String.eqb k k' then Some v
                     else if String.eqb k0 k' then Some v0 else get_prop o k')
      by reflexivity.
    destruct (array_index k0) as [j|]; [destruct (j <? i)%N|]; try exact Hins.
    simpl. destruct (String.eqb k0 k') eqn:E1.
    + apply String.eqb_eq in E1. subst k0.
      rewrite String.eqb_sym, E0. reflexivity.
    + apply IH, Hnone.
Qed.

(** Reading a dictionary after a write. *)
Lemma get_prop_set_prop o k v k' :
  get_prop (set_prop k v o) k' = if String.eqb k k' then Some v else get_prop o k'.
Proof.
  unfold set_prop, has_prop. destruct (get_prop o k) as [x|] eqn:Hk.
  - rewrite get_prop_replace, Hk. reflexivity.
  - destruct (array_index k) as [i|].
    + apply get_prop_insert_index, Hk.
    + rewrite get_prop_app. simpl.
      destruct (String.eqb k k') eqn:E.
      * apply String.eqb_eq in E. subst k'. rewrite Hk. reflexivity.
      * destruct (get_prop o k'); reflexivity.
Qed.

Lemma get_prop_Some_elem o k v : get_prop o k = Some v -> (k, v) ∈ o.
Proof.
  induction o as [|[k0 v0] o IH]; simpl; [discriminate|].
  destruct (String.eqb k0 k) eqn:E.
  - apply String.eqb_eq in E. intros [= ->]. subst. left.
  - intros H. right. auto.
Qed.

Lemma get_prop_None_keys o k : get_prop o k = None <-> k ∉ keys o.
Proof.
  unfold keys. induction o as [|[k0 v0] o IH]; simpl.
  - split; [intros _; apply not_elem_of_nil | reflexivity].
  - rewrite not_elem_of_cons. destruct (String.eqb k0 k) eqn:E.
    + apply String.eqb_eq in E. subst. split; [discriminate | intros [? _]; congruence].
    + apply String.eqb_neq in E. rewrite IH. split; [intros; split; congruence | tauto].
Qed.

Lemma has_prop_keys o k : has_prop o k = true <-> k ∈ keys o.
Proof.
  unfold has_prop. destruct (get_prop o k) eqn:E.
  - split; [intros _ | reflexivity].
    destruct (decide (k ∈ keys o)) as [?|Hn]; [assumption|].
    apply get_prop_None_keys in Hn. congruence.
  - apply get_prop_None_keys in E. split; [discriminate | contradiction].
Qed.

Lemma get_prop_NoDup_elem o k v : NoDup (keys o) -> (k, v) ∈ o -> get_prop o k = Some v.
Proof.
  unfold keys. induction o as [|[k0 v0] o IH]; simpl; intros Hnd Hin.
  - apply elem_of_nil in Hin. contradiction.
  - apply NoDup_cons in Hnd as [Hk0 Hnd].
    apply elem_of_cons in Hin as [[= -> ->]|Hin].
    + rewrite String.eqb_refl. reflexivity.
    + destruct (String.eqb k0 k) eqn:E; [|auto].
      apply String.eqb_eq in E. subst k0. exfalso. apply Hk0.
      apply list_elem_of_fmap. exists (k, v). auto.
Qed.
End PropsFacts.

(** ** validator.ts *)
Section ValidatorFacts.
Import Validator.
Implicit Types (schema : ParamsSchema) (params : list (string * value))
  (errs : list ValidationError) (e : ValidationError) (k name : string).

(** *** The loop of [coerceParams] *)

Lemma coerce_entry_other params result name def k :
  name ≠ k -> get_prop (coerce_entry params result (name, def)) k = get_prop result k.
Proof.
  intros Hne. apply String.eqb_neq in Hne. unfold coerce_entry.
  repeat match goal with |- context [if ?b then _ else _] => destruct b end;
    rewrite ?get_prop_set_prop, ?Hne; reflexivity.
Qed.

Lemma coerce_entry_same params result result' k def :
  get_prop result k = get_prop result' k ->
  get_prop (coerce_entry params result (k, def)) k
  = get_prop (coerce_entry params result' (k, def)) k.
Proof.
  intros H. unfold coerce_entry.
  repeat match goal with |- context [if ?b then _ else _] => destruct b end;
    rewrite ?get_prop_set_prop, ?String.eqb_refl; auto.
Qed.

(** Coercion writes declared names only. *)
Lemma coerce_fold_undeclared params schema acc k :
  get_prop schema k = None ->
  get_prop (fold_left (coerce_entry params) schema acc) k = get_prop acc k.
Proof.
  revert acc. induction schema as [|[name def] schema IH]; simpl; intros acc Hk.
  - reflexivity.
  - destruct (String.eqb name k) eqn:E; [discriminate|].
    apply String.eqb_neq in E. rewrite IH by assumption.
    apply coerce_entry_other, E.
Qed.

Lemma coerce_fold_declared params schema acc k def :
  NoDup (keys schema) -> get_prop schema k = Some def ->
  get_prop (fold_left (coerce_entry params) schema acc) k
  = get_prop (coerce_entry params acc (k, def)) k.
Proof.
  revert acc. induction schema as [|[name d] schema IH]; simpl; intros acc Hnd Hk.
  - discriminate.
  - apply NoDup_cons in Hnd as [Hfresh Hnd].
    destruct (String.eqb name k) eqn:E.
    + apply String.eqb_eq in E. subst name. injection Hk as ->.
      apply coerce_fold_undeclared, get_prop_None_keys, Hfresh.
    + apply String.eqb_neq in E. rewrite (IH _ Hnd Hk).
      apply coerce_entry_same, coerce_entry_other, E.
Qed.

Lemma coerceParams_undeclared schema params k :
  get_prop schema k = None -> get_prop (coerceParams schema params) k = None.
Proof. intros H. unfold coerceParams. rewrite coerce_fold_undeclared; auto. Qed.

Lemma coerceParams_declared schema params k def :
  NoDup (keys schema) -> get_prop schema k = Some def ->
  get_prop (coerceParams schema params) k = get_prop (coerce_entry params [] (k, def)) k.
Proof. apply coerce_fold_declared. Qed.

(** *** The two loops of [validateParams] *)

Lemma check_defined_resolved params errs errs' resolved entry :
  snd (check_defined params (errs, resolved) entry)
  = snd (check_defined params (errs', resolved) entry).
Proof.
  destruct entry as [name def]. unfold check_defined.
  destruct (validateParam name def (get params name)) as [v [e|]]; reflexivity.
Qed.

Lemma check_defined_other params st name def k :
  name ≠ k -> get_prop (snd (check_defined params st (name, def))) k = get_prop (snd st) k.
Proof.
  intros Hne. apply String.eqb_neq in Hne. destruct st as [errs resolved].
  unfold check_defined.
  destruct (validateParam name def (get params name)) as [v [e|]]; simpl;
    rewrite ?get_prop_set_prop, ?Hne; reflexivity.
Qed.

Lemma check_defined_same params st st' k def :
  get_prop (snd st) k = get_prop (snd st') k ->
  get_prop (snd (check_defined params st (k, def))) k
  = get_prop (snd (check_defined params st' (k, def))) k.
Proof.
  intros H. destruct st as [errs resolved], st' as [errs' resolved'].
  unfold check_defined.
  destruct (validateParam k def (get params k)) as [v [e|]]; simpl in *;
    rewrite ?get_prop_set_prop, ?String.eqb_refl; auto.
Qed.

Lemma resolved_fold_undeclared params schema st k :
  get_prop schema k = None ->
  get_prop (snd (fold_left (check_defined params) schema st)) k = get_prop (snd st) k.
Proof.
  revert st. induction schema as [|[name def] schema IH]; simpl; intros st Hk.
  - reflexivity.
  - destruct (String.eqb name k) eqn:E; [discriminate|].
    apply String.eqb_neq in E. rewrite IH by assumption.
    apply check_defined_other, E.
Qed.

Lemma resolved_fold_declared params schema st k def :
  NoDup (keys schema) -> get_prop schema k = Some def ->
  get_prop (snd (fold_left (check_defined params) schema st)) k
  = get_prop (snd (check_defined params st (k, def))) k.
Proof.
  revert st. induction schema as [|[name d] schema IH]; simpl; intros st Hnd Hk.
  - discriminate.
  - apply NoDup_cons in Hnd as [Hfresh Hnd].
    destruct (String.eqb name k) eqn:E.
    + apply String.eqb_eq in E. subst name. injection Hk as ->.
      apply resolved_fold_undeclared, get_prop_None_keys, Hfresh.
    + apply String.eqb_neq in E. rewrite (IH _ Hnd Hk).
      apply check_defined_same, check_defined_other, E.
Qed.

(** The errors of the first loop are those [validateParam] reports for
    the declared parameters. *)
Lemma errors_fold_defined params schema st e :
  e ∈ fst (fold_left (check_defined params) schema st) <->
  e ∈ fst st ∨
  ∃ name def, (name, def) ∈ schema ∧ snd (validateParam name def (get params name)) = Some e.
Proof.
  revert st. induction schema as [|[name def] schema IH]; simpl; intros st.
  - split; [auto|]. intros [H|(n & d & H & _)]; [assumption|].
    apply elem_of_nil in H. contradiction.
  - rewrite IH. destruct st as [errs resolved]. unfold check_defined at 1.
    destruct (validateParam name def (get params name)) as [v [e'|]] eqn:Hv; simpl.
    + rewrite elem_of_app, list_elem_of_singleton. split.
      * intros [[H| ->]|(n & d & H & Hn)]; [auto| |].
        -- right. exists name, def. rewrite Hv. split; [left | reflexivity].
        -- right. exists n, d. split; [right|]; assumption.
      * intros [H|(n & d & H & Hn)]; [auto|].
        apply elem_of_cons in H as [[= -> ->]|H].
        -- rewrite Hv in Hn. injection Hn as ->. auto.
        -- right. exists n, d. auto.
    + split.
      * intros [H|(n & d & H & Hn)]; [auto|].
        right. exists n, d. split; [right|]; assumption.
      * intros [H|(n & d & H & Hn)]; [auto|].
        apply elem_of_cons in H as [[= -> ->]|H].
        -- rewrite Hv in Hn. discriminate.
        -- right. exists n, d. auto.
Qed.

(** The second loop adds one entry for each key that is not declared. *)
Lemma errors_fold_unknown schema ks errs e :
  e ∈ fold_left (check_unknown schema) ks errs <->
  e ∈ errs ∨
  ∃ name, name ∈ ks ∧ has_prop schema name = false
          ∧ e = {| err_param := name; err_message := "Unknown parameter: " +:+ name |}.
Proof.
  revert errs. induction ks as [|k ks IH]; simpl; intros errs.
  - split; [auto|]. intros [H|(n & H & _)]; [assumption|].
    apply elem_of_nil in H. contradiction.
  - rewrite IH. unfold check_unknown at 1.
    destruct (has_prop schema k) eqn:Hk; simpl.
    + split.
      * intros [H|(n & H & Hn)]; [auto|]. right. exists n. split; [right|]; tauto.
      * intros [H|(n & H & Hn & He)]; [auto|].
        apply elem_of_cons in H as [->|H]; [congruence|].
        right. exists n. auto.
    + rewrite elem_of_app, list_elem_of_singleton. split.
      * intros [[H| ->]|(n & H & Hn)]; [auto| |].
        -- right. exists k. split; [left | auto].
        -- right. exists n. split; [right|]; tauto.
      * intros [H|(n & H & Hn & He)]; [auto|].
        apply elem_of_cons in H as [->|H]; [auto|].
        right. exists n. auto.
Qed.

Lemma fold_unknown_none schema ks errs :
  (∀ k, k ∈ ks -> has_prop schema k = true) ->
  fold_left (check_unknown schema) ks errs = errs.
Proof.
  revert errs. induction ks as [|k ks IH]; simpl; intros errs Hall; [reflexivity|].
  unfold check_unknown at 2. rewrite (Hall k) by left. simpl.
  apply IH. intros k' Hk'. apply Hall. right. assumption.
Qed.

(** The fields of the result of [validateParams]. *)
Lemma validateParams_fields workflow params :
  errors (validateParams workflow params)
  = fold_left (check_unknown (wf_params workflow)) (keys params)
      (fst (fold_left (check_defined params) (wf_params workflow) ([], [])))
  ∧ resolvedParams (validateParams workflow params)
    = snd (fold_left (check_defined params) (wf_params workflow) ([], []))
  ∧ valid (validateParams workflow params)
    = Nat.eqb (length (errors (validateParams workflow params))) 0.
Proof.
  unfold validateParams.
  destruct (fold_left (check_defined params) (wf_params workflow) ([], [])) as [errs resolved].
  simpl. auto.
Qed.

Lemma validateType_error_param name t v e :
  validateType name t v = Some e -> err_param e = name.
Proof.
  unfold validateType. destruct t;
    repeat match goal with
           | |- context [if ?b then _ else _] => destruct b
           end;
    try discriminate; try (intros [= <-]; reflexivity).
  destruct v; try (intros [= <-]; reflexivity).
  destruct (JSON_parse s); [discriminate | intros [= <-]; reflexivity].
Qed.

Lemma validateType_mismatch name t v e :
  validateType name t v = Some e -> is_TypeMismatch e = true.
Proof.
  unfold validateType. destruct t;
    repeat match goal with
           | |- context [if ?b then _ else _] => destruct b
           end;
    try discriminate; try (intros [= <-]; reflexivity).
  destruct v; try (intros [= <-]; reflexivity).
  destruct (JSON_parse s); [discriminate | intros [= <-]; reflexivity].
Qed.

Lemma validateParam_error_param name def v e :
  snd (validateParam name def v) = Some e -> err_param e = name.
Proof.
  unfold validateParam.
  destruct (is_undefined v || is_null v || is_string v "").
  - destruct (param_required def); [intros [= <-]; reflexivity|].
    destruct (negb (is_undefined (param_default def))); discriminate.
  - destruct (validateType name (param_type def) v) eqn:Ht; [|discriminate].
    intros [= <-]. eapply validateType_error_param, Ht.
Qed.

(** Whatever the input, the coerced object has declared keys only: the
    second loop of [validateParams] finds nothing. *)
Lemma coerced_keys_declared schema params k :
  k ∈ keys (coerceParams schema params) -> has_prop schema k = true.
Proof.
  intros Hin. unfold has_prop. destruct (get_prop schema k) eqn:Hk; [reflexivity|].
  apply (coerceParams_undeclared _ params) in Hk.
  apply get_prop_None_keys in Hk. contradiction.
Qed.

Lemma pipeline_errors workflow params :
  errors (coerce_then_validate workflow params)
  = fst (fold_left (check_defined (coerceParams (wf_params workflow) params))
           (wf_params workflow) ([], [])).
Proof.
  unfold coerce_then_validate.
  destruct (validateParams_fields workflow (coerceParams (wf_params workflow) params))
    as (-> & _ & _).
  apply fold_unknown_none. intros k. apply coerced_keys_declared.
Qed.
End ValidatorFacts.

Section ValidatorPipeline.
Import Validator.
Implicit Types (workflow : WorkflowDefinition) (params : list (string * value))
  (e : ValidationError) (k name : string) (def : ParamDefinition).

(** What [validateParams] does with one declared parameter: it follows
    [validateParam] on the value found under its name. *)
Lemma validateParams_at workflow params name def :
  NoDup (keys (wf_params workflow)) ->
  get_prop (wf_params workflow) name = Some def ->
  match validateParam name def (get params name) with
  | (_, Some e) =>
      e ∈ errors (validateParams workflow params)
      ∧ get_prop (resolvedParams (validateParams workflow params)) name = None
  | (v, None) =>
      get_prop (resolvedParams (validateParams workflow params)) name = Some v
      ∧ ∀ e, e ∈ errors (validateParams workflow params) -> err_param e ≠ name
  end.
Proof.
  intros Hnd Hdef.
  destruct (validateParams_fields workflow params) as (He & Hr & _).
  rewrite He, Hr. clear He Hr.
  rewrite (resolved_fold_declared _ _ _ _ _ Hnd Hdef). unfold check_defined.
  destruct (validateParam name def (get params name)) as [v [e|]] eqn:Hv; simpl.
  - split; [|reflexivity].
    apply errors_fold_unknown. left. apply errors_fold_defined. right.
    exists name, def. rewrite Hv. split; [|reflexivity].
    apply get_prop_Some_elem, Hdef.
  - rewrite get_prop_set_prop, String.eqb_refl. split; [reflexivity|].
    intros e He Hname. apply errors_fold_unknown in He as [He|(n & _ & Hn & ->)].
    + apply errors_fold_defined in He as [He|(n & d & Hin & Hn)].
      * apply elem_of_nil in He. contradiction.
      * pose proof (validateParam_error_param _ _ _ _ Hn) as Hp.
        rewrite Hname in Hp. subst n.
        apply (get_prop_NoDup_elem _ _ _ Hnd) in Hin.
        rewrite Hdef in Hin. injection Hin as <-.
        rewrite Hv in Hn. discriminate.
    + simpl in Hname. subst n. unfold has_prop in Hn. rewrite Hdef in Hn. discriminate.
Qed.

(** What the pipeline hands to [validateParam] for a declared parameter
    whose input value is neither [undefined] nor [null]. *)
Lemma coerced_at workflow params name def :
  NoDup (keys (wf_params workflow)) ->
  get_prop (wf_params workflow) name = Some def ->
  is_undefined (get params name) || is_null (get params name) = false ->
  get (coerceParams (wf_params workflow) params) name
  = coerceValue (param_type def) (get params name).
Proof.
  intros Hnd Hdef Hv. unfold get at 1.
  rewrite (coerceParams_declared _ _ _ _ Hnd Hdef). unfold coerce_entry.
  rewrite Hv, get_prop_set_prop, String.eqb_refl. reflexivity.
Qed.

(** The sibling path: on the raw input, [validateParams] does report
    every key that is not declared. *)
Lemma validateParams_reports_unknown workflow params k :
  k ∈ keys params -> has_prop (wf_params workflow) k = false ->
  ∃ e, e ∈ errors (validateParams workflow params)
       ∧ err_param e = k ∧ is_UnknownParameter e = true.
Proof.
  intros Hin Hk.
  exists {| err_param := k; err_message := "Unknown parameter: " +:+ k |}.
  destruct (validateParams_fields workflow params) as (-> & _ & _).
  split; [|split; [reflexivity | apply String.eqb_refl]].
  apply errors_fold_unknown. right. exists k. auto.
Qed.

(** C1, as the code behaves: in the pipeline of [runWorkflow] (coercion,
    then validation) an input key that the schema does not declare gets
    no entry in [errors], of any kind, and no entry in [resolvedParams]:
    it is dropped without a trace, because [coerceParams] copies declared
    names only. *)
Theorem undeclared_key_dropped workflow params k :
  has_prop (wf_params workflow) k = false ->
  (∀ e, e ∈ errors (coerce_then_validate workflow params) -> err_param e ≠ k)
  ∧ get_prop (resolvedParams (coerce_then_validate workflow params)) k = None.
Proof.
  intros Hk. assert (Hnone : get_prop (wf_params workflow) k = None).
  { unfold has_prop in Hk. destruct (get_prop (wf_params workflow) k); [discriminate|auto]. }
  split.
  - intros e He Hp. rewrite pipeline_errors in He.
    apply errors_fold_defined in He as [He|(n & d & Hin & Hn)].
    + apply elem_of_nil in He. contradiction.
    + apply validateParam_error_param in Hn. rewrite Hp in Hn. subst n.
      apply get_prop_None_keys in Hnone. apply Hnone.
      apply list_elem_of_fmap. exists (k, d). auto.
  - unfold coerce_then_validate.
    destruct (validateParams_fields workflow (coerceParams (wf_params workflow) params))
      as (_ & -> & _).
    rewrite resolved_fold_undeclared by assumption. reflexivity.
Qed.
End ValidatorPipeline.

Section ValidatorCases.
Import Validator.
Implicit Types (workflow : WorkflowDefinition) (params : list (string * value))
  (e : ValidationError) (k name : string) (def : ParamDefinition).

Example undeclared_key_run :
  coerce_then_validate Examples.open_page
    [("url", VString "http://x"); ("bogus", VString "1")]
  = {| valid := true; errors := []; resolvedParams := [("url", VString "http://x")] |}.
Proof. vm_compute. reflexivity. Qed.

Example undeclared_key_direct :
  errors (validateParams Examples.open_page
            [("url", VString "http://x"); ("bogus", VString "1")])
  = [{| err_param := "bogus"; err_message := "Unknown parameter: bogus" |}].
Proof. vm_compute. reflexivity. Qed.

Lemma undeclared_key_dropped_witness :
  has_prop (wf_params Examples.open_page) "bogus" = false
  ∧ (∀ e, e ∈ errors (coerce_then_validate Examples.open_page
                        [("url", VString "http://x"); ("bogus", VString "1")]) ->
          err_param e ≠ "bogus")
  ∧ get_prop (resolvedParams (coerce_then_validate Examples.open_page
                                [("url", VString "http://x"); ("bogus", VString "1")]))
      "bogus" = None.
Proof.
  split; [reflexivity|].
  apply (undeclared_key_dropped Examples.open_page). reflexivity.
Defined.

Lemma validateParam_number name def n :
  param_type def = TNumber -> validateParam name def (VNumber n) = (VNumber n, None).
Proof. intros Ht. unfold validateParam. rewrite Ht. reflexivity. Qed.

Lemma validateParam_boolean name def b :
  param_type def = TBoolean -> validateParam name def (VBool b) = (VBool b, None).
Proof. intros Ht. unfold validateParam. rewrite Ht. reflexivity. Qed.



Lemma NoDup_keys_singleton {A} (k : string) (v : A) : NoDup (keys [(k, v)]).
Proof. apply NoDup_singleton. Qed.



Example number_scenario :
  coerce_then_validate Examples.repeat_task [("count", VString "7")]
  = {| valid := true; errors := [];
       resolvedParams := [("count", VNumber (Finite false 7 0))] |}.
Proof. vm_compute. reflexivity. Qed.

Example non_numeric_string_run :
  coerce_then_validate Examples.repeat_task [("count", VString "abc")]
  = {| valid := true; errors := []; resolvedParams := [("count", VNumber NaN)] |}.
Proof. vm_compute. reflexivity. Qed.

Example non_numeric_string_direct :
  errors (validateParams Examples.repeat_task [("count", VString "abc")])
  = [{| err_param := "count"; err_message := "Expected number, got string" |}].
Proof. vm_compute. reflexivity. Qed.

(** C3, as the code behaves: a string given for a Boolean parameter is
    never rejected by the pipeline. ["false"] and the empty string resolve
    to [false], every other string, ["true"] or not, resolves to [true],
    and no error is reported for the parameter. *)
Theorem boolean_string_never_rejected workflow params name def s :
  NoDup (keys (wf_params workflow)) ->
  get_prop (wf_params workflow) name = Some def ->
  param_type def = TBoolean ->
  get params name = VString s ->
  get_prop (resolvedParams (coerce_then_validate workflow params)) name
  = Some (VBool (negb (String.eqb s "false" || String.eqb s "")))
  ∧ ∀ e, e ∈ errors (coerce_then_validate workflow params) -> err_param e ≠ name.
Proof.
  intros Hnd Hdef Ht Hs. unfold coerce_then_validate.
  pose proof (validateParams_at workflow (coerceParams (wf_params workflow) params)
                name def Hnd Hdef) as H.
  rewrite (coerced_at _ _ _ _ Hnd Hdef) in H by (rewrite Hs; reflexivity).
  rewrite Hs, Ht in H.
  assert (Hc : coerceValue TBoolean (VString s)
               = VBool (negb (String.eqb s "false" || String.eqb s ""))).
  { unfold coerceValue. simpl.
    destruct (String.eqb s "true") eqn:E1.
    - apply String.eqb_eq in E1. subst s. reflexivity.
    - destruct (String.eqb s "false"); reflexivity. }
  rewrite Hc, validateParam_boolean in H by assumption. exact H.
Qed.

Lemma boolean_string_never_rejected_witness :
  get_prop (resolvedParams (coerce_then_validate Examples.toggle
                              [("verbose", VString "yes")])) "verbose"
  = Some (VBool true)
  ∧ ∀ e, e ∈ errors (coerce_then_validate Examples.toggle [("verbose", VString "yes")]) ->
         err_param e ≠ "verbose".
Proof.
  apply (boolean_string_never_rejected Examples.toggle [("verbose", VString "yes")]
           "verbose" (Examples.param TBoolean false VUndefined) "yes");
    [apply NoDup_keys_singleton | reflexivity..].
Defined.

Example boolean_string_run :
  coerce_then_validate Examples.toggle [("verbose", VString "yes")]
  = {| valid := true; errors := []; resolvedParams := [("verbose", VBool true)] |}.
Proof. vm_compute. reflexivity. Qed.

Example boolean_string_direct :
  errors (validateParams Examples.toggle [("verbose", VString "yes")])
  = [{| err_param := "verbose"; err_message := "Expected boolean, got string" |}].
Proof. vm_compute. reflexivity. Qed.



Example empty_string_run :
  validateParams Examples.open_page [("url", VString "")]
  = validateParams Examples.open_page [].
Proof. vm_compute. reflexivity. Qed.
End ValidatorCases.

(** ** workflow.ts *)
Section WorkflowSpec.
Import Workflow.

Lemma strip_one_None seqs s w r :
  strip_one seqs s = None -> w ∈ seqs -> s ≠ w +:+ r.
Proof.
  intros Hnone Hw ->. induction seqs as [|p seqs IH]; [apply elem_of_nil in Hw; exact Hw|].
  simpl in Hnone. apply elem_of_cons in Hw as [->|Hw].
  - rewrite strip_prefix_app in Hnone. discriminate.
  - destruct (strip_prefix p (w +:+ r)); [discriminate | auto].
Qed.

(** What [trim] gives has no white space at its start nor at its end,
    and is what it was given but for white space before and after. *)
Lemma trim_bare s :
  ∃ before after,
    s = before +:+ trim s +:+ after ∧ blank before ∧ blank after
    ∧ (∀ w r, w ∈ white_space -> trim s ≠ w +:+ r)
    ∧ (∀ w r, w ∈ white_space -> trim s ≠ r +:+ w).
Proof.
  destruct (trim_spec s) as (l & r & Hs & Hl & Hr & Hstart & Hend).
  exists l, r. split; [exact Hs|]. split; [exact Hl|]. split; [exact Hr|]. split.
  - intros w t Hw. apply (strip_one_None _ _ _ _ Hstart Hw).
  - intros w t Hw Heq.
    apply (strip_one_None _ _ (String.rev w) (String.rev t) Hend).
    + apply list_elem_of_fmap. exists w. auto.
    + rewrite Heq, rev_app_distr. reflexivity.
Qed.

(** C8: [defineWorkflow] throws exactly when the name or the task is
    missing or empty, or [params] or [capture] is absent, and its message
    names the first of these that fails, in this order. When it returns,
    none of them fails and every property is the one it was given, except
    the task, which is trimmed: the task given is the task returned with
    white space before and after it, and the task returned neither starts
    nor ends with white space. Nothing inside the template is touched. *)
Theorem defineWorkflow_contract (definition : RawDefinition) :
  match defineWorkflow definition with
  | Err msg =>
      (missing (raw_name definition) ∧ msg = "Workflow must have a name")
      ∨ (¬ missing (raw_name definition) ∧ missing (raw_task definition)
         ∧ msg = "Workflow must have a task")
      ∨ (¬ missing (raw_name definition) ∧ ¬ missing (raw_task definition)
         ∧ raw_params definition = None
         ∧ msg = "Workflow must have params (use empty object {} if none)")
      ∨ (¬ missing (raw_name definition) ∧ ¬ missing (raw_task definition)
         ∧ raw_params definition ≠ None ∧ raw_capture definition = None
         ∧ msg = "Workflow must have capture config (use empty object {} if none)")
  | Ok workflow =>
      ¬ missing (raw_name definition) ∧ ¬ missing (raw_task definition)
      ∧ raw_name definition = Some (wf_name workflow)
      ∧ raw_description definition = wf_description workflow
      ∧ raw_params definition = Some (wf_params workflow)
      ∧ raw_capture definition = Some (wf_capture workflow)
      ∧ ∃ before after,
          raw_task definition = Some (before +:+ wf_task workflow +:+ after)
          ∧ blank before ∧ blank after
          ∧ (∀ w r, w ∈ white_space -> wf_task workflow ≠ w +:+ r)
          ∧ (∀ w r, w ∈ white_space -> wf_task workflow ≠ r +:+ w)
  end.
Proof.
  unfold defineWorkflow, missing.
  destruct (raw_name definition) as [name|]; [|simpl; auto].
  destruct (String.eqb_spec name "") as [->|Hname]; [simpl; auto|].
  cbn [falsy]. apply String.eqb_neq in Hname. rewrite Hname.
  apply String.eqb_neq in Hname.
  assert (Hn : ¬ (Some name = None ∨ Some name = Some "")).
  { intros [H|H]; [discriminate | congruence]. }
  destruct (raw_task definition) as [task|]; [|simpl; auto 6].
  destruct (String.eqb_spec task "") as [->|Htask]; [simpl; auto 6|].
  cbn [falsy]. apply String.eqb_neq in Htask. rewrite Htask.
  apply String.eqb_neq in Htask.
  assert (Ht : ¬ (Some task = None ∨ Some task = Some "")).
  { intros [H|H]; [discriminate | congruence]. }
  destruct (raw_params definition) as [params|]; [|auto 8].
  destruct (raw_capture definition) as [capture|].
  2:{ right. right. right. repeat (split; [assumption || discriminate || reflexivity|]).
      reflexivity. }
  simpl. split; [exact Hn|]. split; [exact Ht|]. repeat (split; [reflexivity|]).
  destruct (trim_bare task) as (before & after & Heq & Hb & Ha & Hstart & Hend).
  exists before, after. rewrite <- Heq. auto 10.
Qed.

Lemma defineWorkflow_contract_witness :
  ∃ before after,
    nl +:+ "    Go to {{url}}" +:+ nl +:+ "  " = before +:+ "Go to {{url}}" +:+ after
    ∧ blank before ∧ blank after.
Proof.
  pose proof (defineWorkflow_contract
                {| raw_name := Some "open-page"; raw_description := None;
                   raw_params := Some []; raw_capture := Some Examples.no_capture;
                   raw_task := Some (nl +:+ "    Go to {{url}}" +:+ nl +:+ "  ") |}) as H.
  vm_compute in H.
  destruct H as (_ & _ & _ & _ & _ & _ & before & after & Ht & Hb & Ha & _).
  exists before, after. split; [|split; assumption].
  injection Ht as Ht. exact Ht.
Defined.

Example defineWorkflow_trims :
  defineWorkflow
    {| raw_name := Some "open-page"; raw_description := None;
       raw_params := Some []; raw_capture := Some Examples.no_capture;
       raw_task := Some (nl +:+ "    Go to {{url}}" +:+ nl +:+ "  ") |}
  = Ok (Examples.workflow "open-page" [] "Go to {{url}}").
Proof. vm_compute. reflexivity. Qed.

Example defineWorkflow_blank_task :
  defineWorkflow
    {| raw_name := Some "open-page"; raw_description := None;
       raw_params := Some []; raw_capture := Some Examples.no_capture;
       raw_task := Some "   " |}
  = Ok (Examples.workflow "open-page" [] "").
Proof. vm_compute. reflexivity. Qed.

Example defineWorkflow_no_params :
  defineWorkflow
    {| raw_name := Some "open-page"; raw_description := None;
       raw_params := None; raw_capture := Some Examples.no_capture;
       raw_task := Some "Go" |}
  = Err "Workflow must have params (use empty object {} if none)".
Proof. reflexivity. Qed.
End WorkflowSpec.

(** ** The template engine *)
Section HandlebarsFacts.
Import Handlebars.
Implicit Types (s t r pre post x : string) (c : ascii) (ps qs : list piece).
#[local] Arguments Ascii.eqb : simpl never.

Lemma parse_mono n m t ps : parse n t = Some ps -> n <= m -> parse m t = Some ps.
Proof.
  revert m t ps. induction n as [|n IH]; intros m t ps Hp Hle; [discriminate|].
  destruct m as [|m]; [lia|]. cbn [parse] in *.
  destruct (strip_prefix "{{" t) as [r|].
  - destruct (read_mustache r) as [[x r']|]; [|discriminate].
    destruct (parse n r') as [ps'|] eqn:E; [|discriminate].
    rewrite (IH m r' ps' E) by lia. exact Hp.
  - destruct t as [|c r]; [exact Hp|].
    destruct (Ascii.eqb c (byte 0)); [discriminate|].
    destruct (Ascii.eqb c "\" && startsWith r "{{"); [discriminate|].
    destruct (parse n r) as [ps'|] eqn:E; [|discriminate].
    rewrite (IH m r ps' E) by lia. exact Hp.
Qed.

Lemma strip_prefix_app_Some p s r t :
  strip_prefix p s = Some r -> strip_prefix p (s +:+ t) = Some (r +:+ t).
Proof.
  intros H. apply strip_prefix_Some in H. subst s.
  rewrite sapp_assoc. apply strip_prefix_app.
Qed.

Lemma skip_spaces_suffix s : ∃ a, s = a +:+ skip_spaces s.
Proof.
  induction s as [|c s [a IH]]; simpl; [exists ""; reflexivity|].
  destruct (is_space c).
  - exists (String c a). rewrite sapp_cons, <- IH. reflexivity.
  - exists "". reflexivity.
Qed.

Lemma skip_spaces_app s t c r :
  skip_spaces s = String c r -> skip_spaces (s +:+ t) = String c (r +:+ t).
Proof.
  induction s as [|d s IH]; simpl; [discriminate|].
  rewrite ?sapp_cons. simpl. destruct (is_space d); [exact IH|].
  intros [= -> ->]. reflexivity.
Qed.

Lemma read_ident_split s : s = fst (read_ident s) +:+ snd (read_ident s).
Proof.
  induction s as [|c s IH]; simpl; [reflexivity|].
  destruct (is_ident_char c); [|reflexivity].
  destruct (read_ident s) as [x r]. simpl in *. rewrite sapp_cons, <- IH. reflexivity.
Qed.

Lemma read_ident_app s t x c r :
  read_ident s = (x, String c r) -> read_ident (s +:+ t) = (x, String c (r +:+ t)).
Proof.
  revert x. induction s as [|d s IH]; intros x; simpl; [discriminate|].
  rewrite ?sapp_cons. simpl. destruct (is_ident_char d).
  - destruct (read_ident s) as [x' r'] eqn:E. intros [= <- ->].
    rewrite (IH x' eq_refl). reflexivity.
  - intros [= <- -> ->]. reflexivity.
Qed.

Lemma startsWith_brace_app r t :
  (r = "" -> startsWith t "}" = false) -> startsWith r "}" = false ->
  startsWith (r +:+ t) "}" = false.
Proof.
  destruct r as [|d r]; [rewrite sapp_nil_l; auto|].
  intros _. rewrite sapp_cons. unfold startsWith. cbn [strip_prefix].
  destruct (Ascii.eqb "}" d); [discriminate | reflexivity].
Qed.

(** A placeholder is read the same way whatever follows the template,
    unless the template ends with the placeholder and a closing brace
    follows. *)
Lemma read_mustache_app s t x r :
  read_mustache s = Some (x, r) -> (r = "" -> startsWith t "}" = false) ->
  read_mustache (s +:+ t) = Some (x, r +:+ t).
Proof.
  unfold read_mustache.
  destruct (read_ident (skip_spaces s)) as [x' r1] eqn:Hi.
  destruct (String.eqb x' "" || is_reserved x') eqn:Hres; [discriminate|].
  destruct (strip_prefix "}}" (skip_spaces r1)) as [r2|] eqn:Hc; [|discriminate].
  destruct (startsWith r2 "}") eqn:Hb; [discriminate|].
  intros [= -> ->] Ht.
  destruct (skip_spaces r1) as [|d r1'] eqn:Hr1; [discriminate|].
  destruct r1 as [|e r1'']; [discriminate|].
  destruct (skip_spaces s) as [|c s'] eqn:Hs; [discriminate|].
  rewrite (skip_spaces_app _ t _ _ Hs).
  change (String c (s' +:+ t)) with (String c s' +:+ t).
  rewrite (read_ident_app _ t _ _ _ Hi), Hres.
  change (String e (r1'' +:+ t)) with (String e r1'' +:+ t).
  rewrite (skip_spaces_app _ t _ _ Hr1).
  change (String d (r1' +:+ t)) with (String d r1' +:+ t).
  rewrite (strip_prefix_app_Some _ _ _ t Hc).
  rewrite (startsWith_brace_app _ _ Ht Hb). reflexivity.
Qed.

Lemma ends_open_app a b : ends_open (a +:+ b) = false -> ends_open b = false.
Proof.
  induction a as [|c a IH]; [auto|]. rewrite sapp_cons.
  destruct (a +:+ b) as [|d u] eqn:E.
  - destruct a; [|discriminate]. rewrite sapp_nil_l in E. subst b. reflexivity.
  - intros H. apply IH. exact H.
Qed.

Lemma read_mustache_suffix s x r :
  read_mustache s = Some (x, r) -> ∃ a, s = a +:+ "}}" +:+ r.
Proof.
  unfold read_mustache. destruct (skip_spaces_suffix s) as [a Ha].
  pose proof (read_ident_split (skip_spaces s)) as Hsplit.
  destruct (read_ident (skip_spaces s)) as [x' r1] eqn:Hi. simpl in Hsplit.
  destruct (String.eqb x' "" || is_reserved x'); [discriminate|].
  destruct (skip_spaces_suffix r1) as [b Hb].
  destruct (strip_prefix "}}" (skip_spaces r1)) as [r2|] eqn:Hc; [|discriminate].
  destruct (startsWith r2 "}"); [discriminate|].
  intros [= -> ->]. apply strip_prefix_Some in Hc.
  exists (a +:+ x +:+ b).
  rewrite Ha, Hsplit, Hb, Hc, !sapp_assoc. reflexivity.
Qed.

(** The fuel [render] gives is enough: more of it changes nothing. *)
Lemma parse_fuel n m t :
  String.length t < n -> String.length t < m -> parse n t = parse m t.
Proof.
  revert m t. induction n as [|n IH]; intros m t Hn Hm; [lia|].
  destruct m as [|m]; [lia|]. cbn [parse].
  destruct (strip_prefix "{{" t) as [r|] eqn:Hb.
  - destruct (read_mustache r) as [[x r']|] eqn:Hr; [|reflexivity].
    apply strip_prefix_Some in Hb. apply read_mustache_suffix in Hr as [a Hr].
    assert (Hlen : String.length r' + 4 <= String.length t).
    { rewrite Hb, Hr, !sapp_length. simpl. lia. }
    rewrite (IH m r') by lia. reflexivity.
  - destruct t as [|c r]; [reflexivity|]. simpl in Hn, Hm.
    rewrite (IH m r) by lia. reflexivity.
Qed.

(** A template that does not end in an opening brace or a backslash is
    read the same way whatever follows it, a closing brace apart: the
    pieces of the whole are its pieces and then those of what follows,
    and the whole is refused when what follows is. *)
Lemma parse_app_gen n k pre t ps :
  parse n pre = Some ps -> ends_open pre = false -> startsWith t "}" = false ->
  String.length (pre +:+ t) < k ->
  parse k (pre +:+ t)
  = match parse (S (String.length t)) t with
    | Some qs => Some (ps ++ qs)
    | None => None
    end.
Proof.
  remember (parse (S (String.length t)) t) as tail eqn:Htail.
  revert k pre ps. induction n as [|n IH]; intros k pre ps Hp Hopen Ht Hk; [discriminate|].
  destruct pre as [|c r].
  - simpl in Hp. injection Hp as <-. rewrite sapp_nil_l in *.
    rewrite (parse_fuel k (S (String.length t))), <- Htail by lia.
    destruct tail; reflexivity.
  - destruct k as [|k]; [lia|]. cbn [parse] in Hp. cbn [parse].
    destruct (strip_prefix "{{" (String c r)) as [r0|] eqn:Hb.
    + rewrite (strip_prefix_app_Some _ _ _ t Hb).
      destruct (read_mustache r0) as [[x r']|] eqn:Hm; [|discriminate].
      rewrite (read_mustache_app _ t _ _ Hm (fun _ => Ht)).
      destruct (parse n r') as [ps'|] eqn:Hr; [|discriminate].
      injection Hp as <-.
      pose proof Hm as Hsuf. apply read_mustache_suffix in Hsuf as [a Hsuf].
      pose proof Hb as Hb'. apply strip_prefix_Some in Hb'.
      assert (Hopen' : ends_open r' = false).
      { rewrite Hb', Hsuf, <- !sapp_assoc in Hopen. eapply ends_open_app, Hopen. }
      assert (Hk' : String.length (r' +:+ t) < k).
      { rewrite Hb', Hsuf, !sapp_length in Hk. rewrite sapp_length. simpl in Hk. lia. }
      rewrite (IH k r' ps' Hr Hopen' Ht Hk').
      destruct tail; reflexivity.
    + assert (Hb' : strip_prefix "{{" (String c r +:+ t) = None).
      { rewrite sapp_cons. simpl in *.
        destruct (Ascii.eqb "{" c) eqn:Ec; [|reflexivity].
        destruct r as [|d r].
        - simpl in Hopen. apply Ascii.eqb_eq in Ec. subst c. discriminate.
        - rewrite sapp_cons. destruct (Ascii.eqb "{" d); [discriminate | reflexivity]. }
      rewrite Hb'. rewrite sapp_cons.
      destruct (Ascii.eqb c (byte 0)); [discriminate|].
      assert (Hs : Ascii.eqb c "\" && startsWith (r +:+ t) "{{"
                   = Ascii.eqb c "\" && startsWith r "{{").
      { destruct (Ascii.eqb c "\") eqn:Ec; [simpl | reflexivity].
        destruct r as [|d r].
        - simpl in Hopen. rewrite Ec, orb_true_r in Hopen. discriminate.
        - rewrite sapp_cons. unfold startsWith. simpl.
          destruct (Ascii.eqb "{" d) eqn:Ed; [|reflexivity].
          destruct r as [|e r].
          + simpl in Hopen. apply Ascii.eqb_eq in Ed. subst d. discriminate.
          + rewrite sapp_cons. simpl. destruct (Ascii.eqb "{" e); reflexivity. }
      rewrite Hs. destruct (Ascii.eqb c "\" && startsWith r "{{"); [discriminate|].
      destruct (parse n r) as [ps'|] eqn:Hr; [|discriminate].
      injection Hp as <-.
      assert (Hopen' : ends_open r = false).
      { change (String c r) with (String c "" +:+ r) in Hopen.
        eapply ends_open_app, Hopen. }
      assert (Hk' : String.length (r +:+ t) < k).
      { rewrite sapp_cons in Hk. simpl in Hk. lia. }
      rewrite (IH k r ps' Hr Hopen' Ht Hk').
      destruct tail; reflexivity.
Qed.

Lemma ident_char_not_space c : is_ident_char c = true -> is_space c = false.
Proof. destruct c as [[] [] [] [] [] [] [] []]; vm_compute; congruence. Qed.

Lemma space_not_ident c : is_space c = true -> is_ident_char c = false.
Proof.
  intros Hs. destruct (is_ident_char c) eqn:Hc; [|reflexivity].
  rewrite (ident_char_not_space _ Hc) in Hs. discriminate.
Qed.

Lemma read_ident_until x c u :
  fst (read_ident x) = x -> is_ident_char c = false ->
  read_ident (x +:+ String c u) = (x, String c u).
Proof.
  intros Hx Hc. induction x as [|d x IH]; simpl in *.
  - rewrite Hc. reflexivity.
  - rewrite ?sapp_cons. simpl. destruct (is_ident_char d); [|discriminate].
    destruct (read_ident x) as [y r'] eqn:E. simpl in Hx. injection Hx as Hx.
    rewrite IH by exact Hx. reflexivity.
Qed.

Lemma skip_spaces_all l s : all_spaces l = true -> skip_spaces (l +:+ s) = skip_spaces s.
Proof.
  induction l as [|c l IH]; [reflexivity|]. intros H. simpl in H.
  apply andb_prop in H as [Hc Hl]. rewrite sapp_cons. cbn [skip_spaces].
  rewrite Hc. exact (IH Hl).
Qed.

(** How a name between the braces, white space around it or not, is
    read: as a placeholder, unless a third closing brace follows. *)
Lemma read_mustache_name l x r post :
  all_spaces l = true -> is_name x = true -> all_spaces r = true ->
  read_mustache (l +:+ x +:+ r +:+ "}}" +:+ post)
  = if startsWith post "}" then None else Some (x, post).
Proof.
  unfold is_name. intros Hl H Hr. apply andb_prop in H as [H Hres].
  apply andb_prop in H as [Hne Hx].
  apply String.eqb_eq in Hx. apply negb_true_iff in Hres, Hne.
  unfold read_mustache. rewrite (skip_spaces_all _ _ Hl).
  assert (Hs : skip_spaces (x +:+ r +:+ "}}" +:+ post) = x +:+ r +:+ "}}" +:+ post).
  { destruct x as [|c x']; [discriminate|]. rewrite sapp_cons. simpl in *.
    destruct (is_ident_char c) eqn:Hc.
    - rewrite (ident_char_not_space _ Hc). reflexivity.
    - destruct (read_ident x'); discriminate. }
  rewrite Hs.
  assert (Hi : read_ident (x +:+ r +:+ "}}" +:+ post) = (x, r +:+ "}}" +:+ post)).
  { destruct r as [|c r'].
    - apply read_ident_until; [exact Hx | reflexivity].
    - rewrite sapp_cons. apply read_ident_until; [exact Hx|].
      simpl in Hr. apply andb_prop in Hr as [Hc _]. apply space_not_ident, Hc. }
  rewrite Hi, Hne, Hres. cbn [orb]. rewrite (skip_spaces_all _ _ Hr).
  change ("}}" +:+ post) with (String "}" (String "}" post)). reflexivity.
Qed.

Lemma render_pieces_app context ps qs a b :
  render_pieces context ps = Some a -> render_pieces context qs = Some b ->
  render_pieces context (ps ++ qs) = Some (a +:+ b).
Proof.
  revert a. induction ps as [|p ps IH]; intros a; simpl.
  - intros [= <-]. auto.
  - destruct (render_piece context p) as [a1|]; [simpl | discriminate].
    destruct (render_pieces context ps) as [a2|]; [simpl | discriminate].
    intros [= <-] Hq. rewrite (IH a2 eq_refl Hq). simpl. rewrite sapp_assoc. reflexivity.
Qed.

(** How a template with a placeholder is read, given the pieces of what
    comes before it. *)
Lemma parse_placeholder pre l x r post ps :
  parse (S (String.length pre)) pre = Some ps -> ends_open pre = false ->
  all_spaces l = true -> is_name x = true -> all_spaces r = true ->
  parse (S (String.length (pre +:+ "{{" +:+ l +:+ x +:+ r +:+ "}}" +:+ post)))
    (pre +:+ "{{" +:+ l +:+ x +:+ r +:+ "}}" +:+ post)
  = if startsWith post "}" then None
    else match parse (S (String.length post)) post with
         | Some qs => Some (ps ++ Mustache x :: qs)
         | None => None
         end.
Proof.
  intros Hps Hopen Hl Hx Hr.
  rewrite (parse_app_gen _ _ _ _ _ Hps Hopen) by (reflexivity || lia).
  remember (parse (S (String.length post)) post) as tail eqn:Htail.
  cbn [parse]. rewrite strip_prefix_app, (read_mustache_name _ _ _ _ Hl Hx Hr).
  destruct (startsWith post "}"); [reflexivity|].
  rewrite (parse_fuel _ (S (String.length post))), <- Htail.
  - destruct tail; reflexivity.
  - rewrite !sapp_length. simpl. lia.
  - lia.
Qed.

(** A placeholder between two templates renders as the escaped value of
    its name in the context, between the renderings of the two. *)
Lemma render_placeholder_spaced pre l x r post context before text after :
  render pre context = Some before -> ends_open pre = false ->
  all_spaces l = true -> is_name x = true -> all_spaces r = true ->
  escapeExpression (get context x) = Some text ->
  render post context = Some after -> startsWith post "}" = false ->
  render (pre +:+ "{{" +:+ l +:+ x +:+ r +:+ "}}" +:+ post) context
  = Some (before +:+ text +:+ after).
Proof.
  unfold render. intros Hpre Hopen Hl Hx Hr Hv Hpost Hclose.
  destruct (parse (S (String.length pre)) pre) as [ps|] eqn:Hps; [|discriminate].
  rewrite (parse_placeholder _ _ _ _ _ _ Hps Hopen Hl Hx Hr), Hclose.
  destruct (parse (S (String.length post)) post) as [qs|]; [|discriminate].
  apply render_pieces_app; [assumption|].
  simpl. rewrite Hv. simpl. rewrite Hpost. reflexivity.
Qed.

Lemma render_placeholder pre x post context before text after :
  render pre context = Some before -> ends_open pre = false ->
  is_name x = true -> escapeExpression (get context x) = Some text ->
  render post context = Some after -> startsWith post "}" = false ->
  render (pre +:+ "{{" +:+ x +:+ "}}" +:+ post) context
  = Some (before +:+ text +:+ after).
Proof.
  intros Hpre Hopen Hx Hv Hpost Hclose.
  exact (render_placeholder_spaced pre "" x "" post context before text after
           Hpre Hopen eq_refl Hx eq_refl Hv Hpost Hclose).
Qed.

(** A closing brace right after a placeholder: the library throws. *)
Lemma render_placeholder_closed pre x post context before :
  render pre context = Some before -> ends_open pre = false ->
  is_name x = true -> startsWith post "}" = true ->
  render (pre +:+ "{{" +:+ x +:+ "}}" +:+ post) context = None.
Proof.
  unfold render. intros Hpre Hopen Hx Hclose.
  destruct (parse (S (String.length pre)) pre) as [ps|] eqn:Hps; [|discriminate].
  assert (H : parse (S (String.length (pre +:+ "{{" +:+ x +:+ "}}" +:+ post)))
                (pre +:+ "{{" +:+ x +:+ "}}" +:+ post)
              = if startsWith post "}" then None
                else match parse (S (String.length post)) post with
                     | Some qs => Some (ps ++ Mustache x :: qs)
                     | None => None
                     end)
    by exact (parse_placeholder pre "" x "" post ps Hps Hopen eq_refl Hx eq_refl).
  rewrite H, Hclose. reflexivity.
Qed.

Example names_read :
  forallb is_name ["x"; "url"; "user_id"; "$ref"; "my-param"; "2fa"; "elsewhere"; "a:b?"]
  = true.
Proof. reflexivity. Qed.

Example names_not_read :
  existsb is_name
    [""; "a.b"; "a b"; "a/b"; "007"; "-1"; "true"; "this"; "else"; "else-where"; "if";
     "lookup"; "toString"]
  = false.
Proof. reflexivity. Qed.

Example render_forms :
  render "Go to {{ url }} as {{my-user}}{{no-one}}."
    [("url", VString "http://x?a=1"); ("my-user", VString "kim")]
  = Some "Go to http://x?a&#x3D;1 as kim."
  ∧ render "say {{x}}}" [("x", VString "v")] = None
  ∧ render "say {{{x}}}" [("x", VString "v")] = None
  ∧ render "say \{{x}}" [("x", VString "v")] = None.
Proof. repeat split; vm_compute; reflexivity. Qed.

Lemma escape_app s t : escape (s +:+ t) = escape s +:+ escape t.
Proof.
  induction s as [|c s IH]; [reflexivity|].
  rewrite ?sapp_cons. simpl. rewrite IH, sapp_assoc. reflexivity.
Qed.

Lemma escapeChar_plain c : is_special c = false -> escapeChar c = String c "".
Proof.
  unfold is_special, escapeChar.
  repeat match goal with
         | |- context [Ascii.eqb c ?d] => destruct (Ascii.eqb c d); [discriminate|]
         end.
  reflexivity.
Qed.

(** Text without special characters is substituted as it is. *)
Lemma escape_plain s : has_special s = false -> escape s = s.
Proof.
  induction s as [|c s IH]; simpl; [reflexivity|].
  intros H. apply orb_false_elim in H as [Hc Hs].
  rewrite (escapeChar_plain _ Hc), IH by assumption. reflexivity.
Qed.

Lemma escapeChar_special c :
  is_special c = true -> 1 < String.length (escapeChar c).
Proof.
  unfold is_special, escapeChar. intros H.
  repeat match goal with
         | |- context [Ascii.eqb c ?d] => destruct (Ascii.eqb c d); [simpl; lia|]
         end.
  discriminate.
Qed.

Lemma escape_length s : String.length s <= String.length (escape s).
Proof.
  induction s as [|c s IH]; simpl; [lia|]. rewrite sapp_length.
  destruct (is_special c) eqn:E.
  - apply escapeChar_special in E. lia.
  - rewrite (escapeChar_plain _ E). simpl. lia.
Qed.

(** Text with a special character is not substituted as it is. *)
Lemma escape_special s : has_special s = true -> escape s ≠ s.
Proof.
  intros H Heq. assert (Hlt : String.length s < String.length (escape s)); [|rewrite Heq in Hlt; lia].
  clear Heq. induction s as [|c s IH]; simpl in *; [discriminate|].
  rewrite sapp_length. pose proof (escape_length s).
  destruct (is_special c) eqn:E.
  - apply escapeChar_special in E. lia.
  - rewrite (escapeChar_plain _ E). simpl in *. specialize (IH H). lia.
Qed.
End HandlebarsFacts.

(** ** prompt-builder.ts *)
Section PromptBuilderSpec.
Import PromptBuilder.
Implicit Types (workflow : WorkflowDefinition) (params context : list (string * value))
  (pre x post before after v : string).

Lemma spread_get params (acc : list (string * value)) k :
  NoDup (keys params) ->
  get_prop (fold_left (fun o kv => set_prop (fst kv) (snd kv) o) params acc) k
  = match get_prop params k with Some v => Some v | None => get_prop acc k end.
Proof.
  revert acc. unfold keys. induction params as [|[k0 v0] params IH]; simpl; intros acc Hnd.
  - reflexivity.
  - apply NoDup_cons in Hnd as [Hfresh Hnd]. rewrite (IH _ Hnd), get_prop_set_prop.
    destruct (String.eqb k0 k) eqn:E; [|reflexivity].
    apply String.eqb_eq in E. subst k0.
    apply get_prop_None_keys in Hfresh. rewrite Hfresh. reflexivity.
Qed.

(** The context holds the parameters under their own names, [name] and
    [outputDir] apart. *)
Lemma makeContext_get params name outputDir x :
  NoDup (keys params) -> x ≠ "name" -> x ≠ "outputDir" ->
  get (makeContext params name outputDir) x = get params x.
Proof.
  intros Hnd Hn Ho. unfold get, makeContext. rewrite !get_prop_set_prop.
  assert (E1 : String.eqb "outputDir" x = false) by (apply String.eqb_neq; congruence).
  assert (E2 : String.eqb "name" x = false) by (apply String.eqb_neq; congruence).
  rewrite E1, E2, (spread_get _ _ _ Hnd). destruct (get_prop params x); reflexivity.
Qed.

Lemma join_cons sep a b (l : list string) :
  join sep (a :: b :: l) = a +:+ sep +:+ join sep (b :: l).
Proof. reflexivity. Qed.

(** The prompt starts with the rendered task. *)
Lemma buildPrompt_task workflow params outputDir context task instructions :
  context = makeContext params (wf_name workflow)
              (from_option id ("./output/" +:+ wf_name workflow) (nonempty outputDir)) ->
  Handlebars.render (wf_task workflow) context = Some task ->
  buildCaptureInstructions Handlebars.render (wf_capture workflow) context
  = Some instructions ->
  ∃ rest, buildPrompt Handlebars.render workflow params outputDir = Some (task +:+ rest).
Proof.
  intros -> Ht Hc. unfold buildPrompt. rewrite Ht. simpl. rewrite Hc. simpl.
  destruct (String.eqb instructions "").
  - exists (nl +:+ join nl outputFormat). reflexivity.
  - exists (nl +:+ join nl (["";"---"; "CAPTURE INSTRUCTIONS:"; instructions] ++ outputFormat)).
    reflexivity.
Qed.

(** Where the task template has a placeholder, the prompt has the escaped
    value of the parameter of that name. *)
Lemma buildPrompt_placeholder workflow params outputDir context pre l x r post before after
    instructions text :
  context = makeContext params (wf_name workflow)
              (from_option id ("./output/" +:+ wf_name workflow) (nonempty outputDir)) ->
  NoDup (keys params) ->
  wf_task workflow = pre +:+ "{{" +:+ l +:+ x +:+ r +:+ "}}" +:+ post ->
  Handlebars.all_spaces l = true -> Handlebars.all_spaces r = true ->
  Handlebars.render pre context = Some before -> Handlebars.ends_open pre = false ->
  Handlebars.is_name x = true -> x ≠ "name" -> x ≠ "outputDir" ->
  Handlebars.render post context = Some after -> startsWith post "}" = false ->
  buildCaptureInstructions Handlebars.render (wf_capture workflow) context
  = Some instructions ->
  Handlebars.escapeExpression (get params x) = Some text ->
  ∃ rest, buildPrompt Handlebars.render workflow params outputDir
          = Some (before +:+ text +:+ after +:+ rest).
Proof.
  intros Hctx Hnd Htask Hl Hr' Hpre Hopen Hx Hn Ho Hpost Hclose Hcap Hv.
  assert (Hv' : Handlebars.escapeExpression (get context x) = Some text).
  { rewrite Hctx, makeContext_get by assumption. exact Hv. }
  pose proof (render_placeholder_spaced _ _ _ _ _ _ _ _ _ Hpre Hopen Hl Hx Hr' Hv' Hpost
                Hclose) as Hr.
  rewrite <- Htask in Hr.
  destruct (buildPrompt_task _ _ _ _ _ _ Hctx Hr Hcap) as [rest Hb].
  exists rest. rewrite Hb, !sapp_assoc. reflexivity.
Qed.

(** C6: where the task template has a placeholder [{{x}}] and the
    resolved parameters give [x] a text without special characters, such
    as [v], the prompt has that very text at the place of the placeholder;
    and where no parameter is called [x] (nor is [x] one of the injected
    [name] and [outputDir]), the prompt has nothing at that place: what
    comes before the placeholder is followed at once by what comes after
    it. The placeholder is any one of the template, written with or
    without white space inside the braces, of any name the engine looks up
    in the context; what comes after it does not start with a third
    closing brace, which the engine refuses. *)
Theorem placeholder_round_trip workflow params outputDir context pre l x r post
    before after instructions :
  context = makeContext params (wf_name workflow)
              (from_option id ("./output/" +:+ wf_name workflow) (nonempty outputDir)) ->
  NoDup (keys params) ->
  wf_task workflow = pre +:+ "{{" +:+ l +:+ x +:+ r +:+ "}}" +:+ post ->
  Handlebars.all_spaces l = true -> Handlebars.all_spaces r = true ->
  Handlebars.render pre context = Some before -> Handlebars.ends_open pre = false ->
  Handlebars.is_name x = true -> x ≠ "name" -> x ≠ "outputDir" ->
  Handlebars.render post context = Some after -> startsWith post "}" = false ->
  buildCaptureInstructions Handlebars.render (wf_capture workflow) context
  = Some instructions ->
  (∀ v, get_prop params x = Some (VString v) -> Handlebars.has_special v = false ->
        ∃ rest, buildPrompt Handlebars.render workflow params outputDir
                = Some (before +:+ v +:+ after +:+ rest))
  ∧ (get_prop params x = None ->
     ∃ rest, buildPrompt Handlebars.render workflow params outputDir
             = Some (before +:+ after +:+ rest)).
Proof.
  intros Hctx Hnd Htask Hl Hr Hpre Hopen Hx Hn Ho Hpost Hclose Hcap.
  split.
  - intros v Hv Hs.
    apply (buildPrompt_placeholder _ _ _ _ _ _ _ _ _ _ _ _ _
             Hctx Hnd Htask Hl Hr Hpre Hopen Hx Hn Ho Hpost Hclose Hcap).
    unfold get. rewrite Hv. simpl. rewrite (escape_plain _ Hs). reflexivity.
  - intros Hv.
    destruct (buildPrompt_placeholder _ _ _ _ _ _ _ _ _ _ _ _ ""
                Hctx Hnd Htask Hl Hr Hpre Hopen Hx Hn Ho Hpost Hclose Hcap) as [rest Hb].
    + unfold get. rewrite Hv. reflexivity.
    + exists rest. exact Hb.
Qed.

Example echo_prompt :
  buildPrompt Handlebars.render Examples.echo [("x", VString "v")] None
  = Some ("say v and ." +:+ nl +:+ nl +:+ "---" +:+ nl +:+ "OUTPUT FORMAT:" +:+ nl
          +:+ "When complete, summarize:" +:+ nl +:+ "- What was done" +:+ nl
          +:+ "- Files saved (with paths)" +:+ nl +:+ "- Any errors or issues encountered").
Proof. vm_compute. reflexivity. Qed.

Lemma placeholder_round_trip_witness :
  (∃ rest, buildPrompt Handlebars.render Examples.echo [("x", VString "v")] None
           = Some ("say " +:+ "v" +:+ " and ." +:+ rest))
  ∧ (∃ rest, buildPrompt Handlebars.render Examples.echo [] None
             = Some ("say " +:+ " and ." +:+ rest)).
Proof.
  split.
  - refine (proj1 (placeholder_round_trip Examples.echo [("x", VString "v")] None _
                     "say " "" "x" "" " and {{y}}." "say " " and ." ""
                     eq_refl _ eq_refl eq_refl eq_refl eq_refl eq_refl eq_refl _ _
                     eq_refl eq_refl eq_refl)
              "v" eq_refl eq_refl);
      [apply NoDup_singleton | discriminate | discriminate].
  - refine (proj2 (placeholder_round_trip Examples.echo [] None _
                     "say " "" "x" "" " and {{y}}." "say " " and ." ""
                     eq_refl _ eq_refl eq_refl eq_refl eq_refl eq_refl eq_refl _ _
                     eq_refl eq_refl eq_refl)
              eq_refl);
      [apply NoDup_nil_2 | discriminate | discriminate].
Defined.

(** C10: substitution escapes HTML. Where the task template has a
    placeholder [{{x}}] and the value of [x] is a text, or an array
    (printed with commas between its items), with a special character [c]
    in it, the prompt has at the place of the placeholder the text with
    the entity of [c] in place of [c] (and the rest of the text escaped
    likewise); the entity is not the character, and the text substituted
    is not the value. The entities of [&], [<], [>], the double quote and
    the single quote are [&amp;], [&lt;], [&gt;], [&quot;] and [&#x27;].
    The placeholder is any one of the template, written with or without
    white space inside the braces, of any name the engine looks up in the
    context; what comes after it does not start with a third closing
    brace, which the engine refuses. *)
Theorem substitution_escapes_html workflow params outputDir context pre l x r post
    before after instructions value a c b :
  context = makeContext params (wf_name workflow)
              (from_option id ("./output/" +:+ wf_name workflow) (nonempty outputDir)) ->
  NoDup (keys params) ->
  wf_task workflow = pre +:+ "{{" +:+ l +:+ x +:+ r +:+ "}}" +:+ post ->
  Handlebars.all_spaces l = true -> Handlebars.all_spaces r = true ->
  Handlebars.render pre context = Some before -> Handlebars.ends_open pre = false ->
  Handlebars.is_name x = true -> x ≠ "name" -> x ≠ "outputDir" ->
  Handlebars.render post context = Some after -> startsWith post "}" = false ->
  buildCaptureInstructions Handlebars.render (wf_capture workflow) context
  = Some instructions ->
  get_prop params x = Some value ->
  match value with VString _ | VArray _ => True | _ => False end ->
  ToString value = a +:+ String c b -> Handlebars.is_special c = true ->
  (∃ rest, buildPrompt Handlebars.render workflow params outputDir
           = Some (before
                   +:+ (Handlebars.escape a +:+ Handlebars.escapeChar c +:+ Handlebars.escape b)
                   +:+ after +:+ rest))
  ∧ Handlebars.escapeChar c ≠ String c ""
  ∧ Handlebars.escape (ToString value) ≠ ToString value
  ∧ Handlebars.escapeChar "&" = "&amp;" ∧ Handlebars.escapeChar "<" = "&lt;"
  ∧ Handlebars.escapeChar ">" = "&gt;" ∧ Handlebars.escapeChar dquote = "&quot;"
  ∧ Handlebars.escapeChar "'" = "&#x27;".
Proof.
  intros Hctx Hnd Htask Hl Hr Hpre Hopen Hx Hn Ho Hpost Hclose Hcap Hv Hkind Hsplit Hc.
  split; [|split; [|split; [|repeat split]]].
  - apply (buildPrompt_placeholder _ _ _ _ _ _ _ _ _ _ _ _ _
             Hctx Hnd Htask Hl Hr Hpre Hopen Hx Hn Ho Hpost Hclose Hcap).
    unfold get. rewrite Hv.
    change (Handlebars.escapeChar c +:+ Handlebars.escape b)
      with (Handlebars.escape (String c b)).
    rewrite <- escape_app, <- Hsplit.
    destruct value; try contradiction; reflexivity.
  - intros Heq. apply escapeChar_special in Hc. rewrite Heq in Hc. simpl in Hc. lia.
  - apply escape_special. rewrite Hsplit. clear -Hc.
    induction a as [|d a IH].
    + rewrite sapp_nil_l. simpl. rewrite Hc. reflexivity.
    + rewrite sapp_cons. simpl. rewrite IH. apply orb_true_r.
Qed.

Example escaped_prompt :
  buildPrompt Handlebars.render Examples.echo [("x", VString "a&b")] None
  = Some ("say a&amp;b and ." +:+ nl +:+ nl +:+ "---" +:+ nl +:+ "OUTPUT FORMAT:" +:+ nl
          +:+ "When complete, summarize:" +:+ nl +:+ "- What was done" +:+ nl
          +:+ "- Files saved (with paths)" +:+ nl +:+ "- Any errors or issues encountered").
Proof. vm_compute. reflexivity. Qed.

Lemma substitution_escapes_html_witness :
  (∃ rest, buildPrompt Handlebars.render Examples.echo [("x", VString "a&b")] None
           = Some ("say " +:+ ("a" +:+ "&amp;" +:+ "b") +:+ " and ." +:+ rest))
  ∧ (∃ rest, buildPrompt Handlebars.render Examples.tagged
               [("tags", VArray [VString "<new>"; VString "sale"])] None
             = Some ("Visit the pages tagged " +:+ ("" +:+ "&lt;" +:+ "new&gt;,sale") +:+ ""
                     +:+ rest)).
Proof.
  split.
  - refine (proj1 (substitution_escapes_html Examples.echo [("x", VString "a&b")] None _
                     "say " "" "x" "" " and {{y}}." "say " " and ." ""
                     (VString "a&b") "a" "&" "b"
                     eq_refl _ eq_refl eq_refl eq_refl eq_refl eq_refl eq_refl _ _
                     eq_refl eq_refl eq_refl eq_refl I eq_refl eq_refl));
      [apply NoDup_singleton | discriminate | discriminate].
  - refine (proj1 (substitution_escapes_html Examples.tagged
                     [("tags", VArray [VString "<new>"; VString "sale"])] None _
                     "Visit the pages tagged " "" "tags" "" "" "Visit the pages tagged " "" ""
                     (VArray [VString "<new>"; VString "sale"]) "" "<" "new>,sale"
                     eq_refl _ eq_refl eq_refl eq_refl eq_refl eq_refl eq_refl _ _
                     eq_refl eq_refl eq_refl eq_refl I eq_refl eq_refl));
      [apply NoDup_singleton | discriminate | discriminate].
Defined.
End PromptBuilderSpec.

(** ** loader.ts *)
Section LoaderSpec.
Import Loader.
Variable env : Env.
Variable root : FS.node.
Implicit Types (w : LoadedWorkflow) (ws kept : list LoadedWorkflow) (seen : gset string)
  (name : string).

(** The entries that declare the name. *)
Let named name w : bool := String.eqb (wf_name (lw_definition w)) name.

Lemma find_app {A} (p : A -> bool) (l1 l2 : list A) :
  List.find p (l1 ++ l2)
  = match List.find p l1 with Some x => Some x | None => List.find p l2 end.
Proof.
  induction l1 as [|a l1 IH]; simpl; [reflexivity|].
  destruct (p a); [reflexivity | exact IH].
Qed.

Lemma find_none {A} (p : A -> bool) (l : list A) :
  (∀ a, a ∈ l -> p a = false) -> List.find p l = None.
Proof.
  induction l as [|a l IH]; simpl; intros H; [reflexivity|].
  rewrite (H a) by left. apply IH. intros b Hb. apply H. right. exact Hb.
Qed.

(** The final filter keeps, for each name, the first entry that declares
    it, and nothing else. *)
Lemma dedupe_fold ws seen kept name :
  List.filter (named name) (snd (fold_left dedupe_step ws (seen, kept)))
  = List.filter (named name) kept
    ++ (if decide (name ∈ seen) then [] else option_list (List.find (named name) ws)).
Proof.
  revert seen kept. induction ws as [|w ws IH]; intros seen kept; simpl.
  - destruct (decide (name ∈ seen)); rewrite app_nil_r; reflexivity.
  - destruct (decide (wf_name (lw_definition w) ∈ seen)) as [Hin|Hnew]; rewrite IH.
    + destruct (decide (name ∈ seen)) as [|Hn]; [reflexivity|].
      assert (E : named name w = false).
      { apply String.eqb_neq. intros Heq. rewrite Heq in Hin. contradiction. }
      rewrite E. reflexivity.
    + rewrite List.filter_app. simpl. destruct (named name w) eqn:E.
      * apply String.eqb_eq in E. rewrite <- E.
        rewrite decide_True by (apply elem_of_union_l, elem_of_singleton; reflexivity).
        rewrite decide_False by assumption.
        rewrite app_nil_r. reflexivity.
      * apply String.eqb_neq in E. rewrite app_nil_r.
        destruct (decide (name ∈ seen)) as [Hn|Hn].
        -- rewrite decide_True by (apply elem_of_union_r, Hn). reflexivity.
        -- rewrite decide_False; [reflexivity|].
           intros [Hs|Hs]%elem_of_union; [|contradiction].
           apply elem_of_singleton in Hs. congruence.
Qed.

Lemma dedupe_spec ws name :
  List.filter (named name) (dedupe ws) = option_list (List.find (named name) ws).
Proof. unfold dedupe. rewrite dedupe_fold. reflexivity. Qed.

(** No name is kept twice. *)
Lemma dedupe_NoDup ws : NoDup (List.map (fun w => wf_name (lw_definition w)) (dedupe ws)).
Proof.
  unfold dedupe.
  assert (H : ∀ seen kept,
             NoDup (List.map (fun w => wf_name (lw_definition w)) kept) ->
             (∀ w, w ∈ kept -> wf_name (lw_definition w) ∈ seen) ->
             NoDup (List.map (fun w => wf_name (lw_definition w))
                      (snd (fold_left dedupe_step ws (seen, kept))))).
  { induction ws as [|w ws IH]; intros seen kept Hnd Hseen; simpl; [exact Hnd|].
    destruct (decide (wf_name (lw_definition w) ∈ seen)) as [Hin|Hnew].
    - apply IH; assumption.
    - apply IH.
      + rewrite map_app. simpl. apply NoDup_app. split; [exact Hnd|]. split.
        * intros n Hn Hn'. apply list_elem_of_singleton in Hn'. subst n.
          apply list_elem_of_fmap in Hn as (w' & Hw' & Hin'). apply Hnew.
          rewrite Hw'. apply Hseen, Hin'.
        * apply NoDup_singleton.
      + intros w' Hw'. apply elem_of_app in Hw' as [Hw'|Hw'].
        * apply elem_of_union_r, Hseen, Hw'.
        * apply list_elem_of_singleton in Hw'. subst w'.
          apply elem_of_union_l, elem_of_singleton. reflexivity. }
  apply H; [constructor | intros w Hw; apply elem_of_nil in Hw; contradiction].
Qed.

(** The loop over the search paths gathers the scans in the order of the
    paths. *)
Lemma scan_paths_concat paths founds acc :
  Forall2 (fun p found => scanDirectory env root p 2 0 = Ok found) paths founds ->
  fold_left (scan_path env root) paths (Ok acc) = Ok (acc ++ concat founds).
Proof.
  intros H. revert acc. induction H as [|p found paths founds Hp _ IH]; intros acc; simpl.
  - rewrite app_nil_r. reflexivity.
  - rewrite Hp, IH, app_assoc. reflexivity.
Qed.

(** C7: when the search roots are scanned, a root finds an entry that
    declares a name and no root of higher priority finds one that does,
    [listWorkflows] returns exactly one entry for that name: the first one
    of that root, whatever the roots of lower priority hold under the same
    name. *)
Theorem listWorkflows_first_root_wins searchPaths higher found lower name w :
  Forall2 (fun p found => scanDirectory env root p 2 0 = Ok found)
    (getWorkflowPaths env root searchPaths) (higher ++ [found] ++ lower) ->
  (∀ f w', f ∈ higher -> w' ∈ f -> wf_name (lw_definition w') ≠ name) ->
  List.find (fun w' => String.eqb (wf_name (lw_definition w')) name) found = Some w ->
  ∃ result,
    listWorkflows env root searchPaths = Ok result
    ∧ List.filter (fun w' => String.eqb (wf_name (lw_definition w')) name) result = [w]
    ∧ NoDup (List.map (fun w' => wf_name (lw_definition w')) result).
Proof.
  intros Hscan Hhigher Hfound.
  exists (dedupe (concat (higher ++ [found] ++ lower))). split; [|split].
  - unfold listWorkflows. rewrite (scan_paths_concat _ _ [] Hscan). reflexivity.
  - change (fun w' => String.eqb (wf_name (lw_definition w')) name) with (named name).
    rewrite dedupe_spec, concat_app, find_app, find_none.
    + simpl. rewrite find_app. fold (named name) in Hfound. rewrite Hfound. reflexivity.
    + intros w' Hw'. apply list_elem_of_In, in_concat in Hw' as (f & Hf & Hin).
      apply String.eqb_neq. apply (Hhigher f); apply list_elem_of_In; assumption.
  - apply dedupe_NoDup.
Qed.
End LoaderSpec.

Section LoaderExamples.
Import Loader Sample.

Example sample_paths :
  getWorkflowPaths env root None
  = ["/home/u/proj/workflows"; "/home/u/.chrome-claude/workflows"].
Proof. vm_compute. reflexivity. Qed.

Example sample_list :
  listWorkflows env root None
  = Ok [ loaded alpha_local "/home/u/proj/workflows/qa/first.ts" "/home/u/proj/workflows/qa";
         loaded beta_global "/home/u/.chrome-claude/workflows/b.ts"
           "/home/u/.chrome-claude/workflows" ].
Proof. vm_compute. reflexivity. Qed.

Lemma listWorkflows_first_root_wins_witness :
  ∃ result,
    listWorkflows env root None = Ok result
    ∧ List.filter (fun w' => String.eqb (wf_name (lw_definition w')) "alpha") result
      = [loaded alpha_local "/home/u/proj/workflows/qa/first.ts" "/home/u/proj/workflows/qa"]
    ∧ NoDup (List.map (fun w' => wf_name (lw_definition w')) result).
Proof.
  apply (listWorkflows_first_root_wins env root None []
           [loaded alpha_local "/home/u/proj/workflows/qa/first.ts"
              "/home/u/proj/workflows/qa"]
           [[loaded alpha_global "/home/u/.chrome-claude/workflows/a.ts"
               "/home/u/.chrome-claude/workflows";
             loaded beta_global "/home/u/.chrome-claude/workflows/b.ts"
               "/home/u/.chrome-claude/workflows"]]).
  - rewrite sample_paths. repeat constructor.
  - intros f w' Hf. apply elem_of_nil in Hf. contradiction.
  - reflexivity.
Defined.
End LoaderExamples.

(** ** runner.ts *)
Section RunnerSpec.
Import Runner.
Variable compile : string -> list (string * value) -> option string.
Variable env : Env.
Variable child : Child.
Implicit Types (options : RunOptions) (w : World) (loaded : LoadedWorkflow).

(** C4: when the parameters of a run request fail validation,
    [runWorkflow] returns at once with [success] false and the formatted
    validation errors, and the world it leaves is the world it found: no
    directory is created, no process is spawned, nothing is printed. *)
Theorem invalid_params_no_effect nameOrPath options w loaded :
  Loader.getWorkflow env (w_root w) nameOrPath None = Ok loaded ->
  valid (Validator.coerce_then_validate (lw_definition loaded) (opt_params options)) = false ->
  runWorkflow compile env child nameOrPath options w
  = Returns
      {| res_success := false; res_outputDir := ""; res_files := no_files;
         res_error :=
           Some ("Parameter validation failed:" +:+ nl
                 +:+ Validator.formatErrors
                       (errors (Validator.coerce_then_validate (lw_definition loaded)
                                  (opt_params options))));
         res_duration := None |}
      w.
Proof.
  intros Hload Hvalid. unfold runWorkflow, bind, lift. rewrite Hload.
  unfold Validator.coerce_then_validate in Hvalid. unfold ret at 1.
  rewrite Hvalid. reflexivity.
Qed.

(** C5: a valid run request with [dryRun] set composes the prompt, prints
    it between two marker lines, and returns with [success] true and the
    output directory it would have used; the file system is as it was (the
    output directory is not created) and no process is spawned. *)
Theorem dry_run_no_effect nameOrPath options w loaded prompt :
  Loader.getWorkflow env (w_root w) nameOrPath None = Ok loaded ->
  valid (Validator.coerce_then_validate (lw_definition loaded) (opt_params options)) = true ->
  PromptBuilder.buildPrompt compile (lw_definition loaded)
    (resolvedParams (Validator.coerce_then_validate (lw_definition loaded)
                       (opt_params options)))
    (Some (Path.resolve (env_cwd env)
             [ from_option id (env_cwd env) (PromptBuilder.nonempty (opt_workDir options));
               "output"; wf_name (lw_definition loaded) ]))
  = Some prompt ->
  opt_dryRun options = Some true ->
  ∃ w',
    runWorkflow compile env child nameOrPath options w
    = Returns
        {| res_success := true;
           res_outputDir :=
             Path.resolve (env_cwd env)
               [ from_option id (env_cwd env) (PromptBuilder.nonempty (opt_workDir options));
                 "output"; wf_name (lw_definition loaded) ];
           res_files := no_files; res_error := None;
           res_duration := Some (env_clock env 1 - env_clock env 0)%Z |}
        w'
    ∧ w_root w' = w_root w
    ∧ w_spawned w' = w_spawned w
    ∧ w_stdout w' = w_stdout w
    ∧ w_stderr w' = w_stderr w
    ∧ w_console w'
      = w_console w
        ++ [ "=== DRY RUN ==="; "Prompt that would be sent to Claude:" +:+ nl; prompt;
             nl +:+ "=== END DRY RUN ===" ].
Proof.
  intros Hload Hvalid Hprompt Hdry. unfold runWorkflow, bind, lift. rewrite Hload.
  unfold Validator.coerce_then_validate in Hvalid, Hprompt. unfold ret at 1.
  rewrite Hvalid. simpl negb. cbv iota. rewrite Hprompt, Hdry. simpl.
  eexists. split; [reflexivity|]. simpl. rewrite <- !app_assoc. auto 10.
Qed.

(** When the prompt does not compose (the template engine throws), the run
    ends there, dry or not, and nothing has been done. *)
Lemma template_error_no_effect nameOrPath options w loaded :
  Loader.getWorkflow env (w_root w) nameOrPath None = Ok loaded ->
  valid (Validator.coerce_then_validate (lw_definition loaded) (opt_params options)) = true ->
  PromptBuilder.buildPrompt compile (lw_definition loaded)
    (resolvedParams (Validator.coerce_then_validate (lw_definition loaded)
                       (opt_params options)))
    (Some (Path.resolve (env_cwd env)
             [ from_option id (env_cwd env) (PromptBuilder.nonempty (opt_workDir options));
               "output"; wf_name (lw_definition loaded) ]))
  = None ->
  runWorkflow compile env child nameOrPath options w = Throws "the template engine threw" w.
Proof.
  intros Hload Hvalid Hprompt. unfold runWorkflow, bind, lift. rewrite Hload.
  unfold Validator.coerce_then_validate in Hvalid, Hprompt. unfold ret at 1.
  rewrite Hvalid. simpl negb. cbv iota. rewrite Hprompt. reflexivity.
Qed.

(** A run whose workflow does not load ends there too. *)
Lemma load_error_no_effect nameOrPath options w msg :
  Loader.getWorkflow env (w_root w) nameOrPath None = Err msg ->
  runWorkflow compile env child nameOrPath options w = Throws msg w.
Proof. intros Hload. unfold runWorkflow, bind, lift. rewrite Hload. reflexivity. Qed.
End RunnerSpec.

Section RunnerExamples.
Import Runner Sample.

Lemma invalid_params_no_effect_witness :
  runWorkflow Handlebars.render env quiet_child "alpha" (request [] None) idle
  = Returns
      {| res_success := false; res_outputDir := ""; res_files := no_files;
         res_error :=
           Some ("Parameter validation failed:" +:+ nl
                 +:+ Validator.formatErrors
                       (errors (Validator.coerce_then_validate alpha_local [])));
         res_duration := None |}
      idle.
Proof.
  apply (invalid_params_no_effect Handlebars.render env quiet_child "alpha" (request [] None)
           idle (loaded alpha_local "/home/u/proj/workflows/qa/first.ts"
                   "/home/u/proj/workflows/qa"));
    vm_compute; reflexivity.
Defined.

Example invalid_run_error :
  Validator.formatErrors (errors (Validator.coerce_then_validate alpha_local []))
  = "  - url: Required parameter missing: url".
Proof. vm_compute. reflexivity. Qed.

Lemma dry_run_no_effect_witness :
  ∃ w',
    runWorkflow Handlebars.render env quiet_child "alpha"
      (request [("url", VString "http://localhost")] (Some true)) idle
    = Returns
        {| res_success := true; res_outputDir := "/home/u/proj/output/alpha";
           res_files := no_files; res_error := None; res_duration := Some 250%Z |}
        w'
    ∧ w_root w' = root
    ∧ w_spawned w' = []
    ∧ w_stdout w' = []
    ∧ w_stderr w' = []
    ∧ w_console w'
      = [ "=== DRY RUN ==="; "Prompt that would be sent to Claude:" +:+ nl;
          "Go to http://localhost" +:+ nl +:+ String.concat nl PromptBuilder.outputFormat;
          nl +:+ "=== END DRY RUN ===" ].
Proof.
  apply (dry_run_no_effect Handlebars.render env quiet_child "alpha"
           (request [("url", VString "http://localhost")] (Some true)) idle
           (loaded alpha_local "/home/u/proj/workflows/qa/first.ts"
              "/home/u/proj/workflows/qa")
           ("Go to http://localhost" +:+ nl +:+ String.concat nl PromptBuilder.outputFormat));
    vm_compute; reflexivity.
Defined.

Example real_run_has_effects :
  ∃ r w',
    runWorkflow Handlebars.render env quiet_child "alpha"
      (request [("url", VString "http://localhost")] None) idle
    = Returns r w'
    ∧ FS.existsSync (w_root idle) "/home/u/proj/output/alpha" = false
    ∧ FS.existsSync (w_root w') "/home/u/proj/output/alpha" = true
    ∧ length (w_spawned w') = 1.
Proof. eexists _, _. split; [vm_compute; reflexivity|]. vm_compute. auto. Qed.
End RunnerExamples.

(** ** split and join *)
Section SplitFacts.
Implicit Types (s t a b cur : string) (c d sep : ascii).
#[local] Arguments Ascii.eqb : simpl never.

Lemma startsWith_app (p r : string) : startsWith (p +:+ r) p = true.
Proof. unfold startsWith. rewrite strip_prefix_app. reflexivity. Qed.

(** [s.includes(c)] for a one-character [c], character by character. *)
Lemma includes_char_cons c d s :
  includes (String d s) (String c "") = Ascii.eqb c d || includes s (String c "").
Proof.
  cbn [includes]. f_equal. unfold startsWith. cbn [strip_prefix].
  destruct (Ascii.eqb c d); reflexivity.
Qed.

Lemma includes_char_app c a b :
  includes (a +:+ b) (String c "") = includes a (String c "") || includes b (String c "").
Proof.
  induction a as [|d a IH].
  - rewrite sapp_nil_l. reflexivity.
  - rewrite sapp_cons, !includes_char_cons, IH, orb_assoc. reflexivity.
Qed.

Lemma split_go_nonempty sep cur s : split_go sep cur s ≠ [].
Proof.
  revert cur. induction s as [|c s IH]; intros cur; simpl; [discriminate|].
  destruct (Ascii.eqb c sep); [discriminate | apply IH].
Qed.

(** Joining the parts with the separator gives the text back. *)
Lemma join_split_go sep cur s :
  join (String sep "") (split_go sep cur s) = String.rev cur +:+ s.
Proof.
  revert cur. induction s as [|c s IH]; intros cur; simpl.
  - rewrite sapp_nil_r. reflexivity.
  - destruct (Ascii.eqb c sep) eqn:E.
    + apply Ascii.eqb_eq in E. subst c.
      pose proof (IH "") as H. pose proof (split_go_nonempty sep "" s) as Hne.
      destruct (split_go sep "" s) as [|p ps]; [congruence|].
      unfold join in *. change (String.concat (String sep "") (String.rev cur :: p :: ps))
        with (String.rev cur +:+ String sep "" +:+ String.concat (String sep "") (p :: ps)).
      rewrite H. reflexivity.
    + rewrite IH, rev_cons, sapp_assoc. reflexivity.
Qed.

Lemma join_split sep s : join (String sep "") (split sep s) = s.
Proof. apply join_split_go. Qed.

(** A text without the separator is one part. *)
Lemma split_go_free sep cur s :
  includes s (String sep "") = false -> split_go sep cur s = [String.rev cur +:+ s].
Proof.
  revert cur. induction s as [|c s IH]; intros cur; simpl split_go.
  - intros _. rewrite sapp_nil_r. reflexivity.
  - rewrite includes_char_cons. intros [E H]%orb_false_elim.
    rewrite Ascii.eqb_sym, E, (IH _ H), rev_cons, sapp_assoc. reflexivity.
Qed.

(** The first part ends at the first separator. *)
Lemma split_go_app sep cur a b :
  includes a (String sep "") = false ->
  split_go sep cur (a +:+ String sep b) = (String.rev cur +:+ a) :: split_go sep "" b.
Proof.
  revert cur. induction a as [|c a IH]; intros cur.
  - intros _. rewrite sapp_nil_l, sapp_nil_r. simpl. rewrite Ascii.eqb_refl. reflexivity.
  - rewrite includes_char_cons. intros [E H]%orb_false_elim.
    rewrite sapp_cons. simpl split_go.
    rewrite Ascii.eqb_sym, E, (IH _ H), rev_cons, sapp_assoc. reflexivity.
Qed.

(** No part holds the separator. *)
Lemma split_go_parts_free sep cur s :
  includes (String.rev cur) (String sep "") = false ->
  Forall (λ p, includes p (String sep "") = false) (split_go sep cur s).
Proof.
  revert cur. induction s as [|c s IH]; intros cur Hcur; simpl.
  - constructor; [assumption | constructor].
  - destruct (Ascii.eqb c sep) eqn:E.
    + constructor; [assumption | apply IH; reflexivity].
    + apply IH. rewrite rev_cons, includes_char_app, Hcur, includes_char_cons.
      rewrite Ascii.eqb_sym, E. reflexivity.
Qed.

Lemma split_parts_free sep s :
  Forall (λ p, includes p (String sep "") = false) (split sep s).
Proof. apply split_go_parts_free. reflexivity. Qed.

(** Splitting what [join] made of parts without the separator gives the
    parts back. *)
Lemma split_join sep p (ps : list string) :
  Forall (λ q, includes q (String sep "") = false) (p :: ps) ->
  split sep (join (String sep "") (p :: ps)) = p :: ps.
Proof.
  unfold split, join. revert p. induction ps as [|q ps IH]; intros p Hfree.
  - simpl. apply Forall_cons in Hfree as [Hp _]. rewrite (split_go_free _ _ _ Hp).
    reflexivity.
  - apply Forall_cons in Hfree as [Hp Hfree].
    change (String.concat (String sep "") (p :: q :: ps))
      with (p +:+ String sep (String.concat (String sep "") (q :: ps))).
    rewrite (split_go_app _ _ _ _ Hp), (IH _ Hfree). reflexivity.
Qed.

(** What [join] makes of a list ends with the last item. *)
Lemma join_snoc (sep : string) (lines : list string) a :
  ∃ head, join sep (lines ++ [a]) = head +:+ a.
Proof.
  induction lines as [|x lines [head IH]].
  - exists "". reflexivity.
  - exists (x +:+ sep +:+ head). unfold join in *. simpl.
    destruct (lines ++ [a]) as [|y l] eqn:E; [destruct lines; discriminate|].
    rewrite IH, !sapp_assoc. reflexivity.
Qed.
End SplitFacts.

(** ** cli.ts: extractParams *)
Section CliSpec.
Import Cli.
Implicit Types (args rest tail pre : list string) (params : list (string * value))
  (key name arg next v : string).
#[local] Arguments Ascii.eqb : simpl never.

(** The text of an option after its two dashes. *)
Lemma slice_dashes r : slice 2 ("--" +:+ r) = r.
Proof. reflexivity. Qed.

(** *** One turn of the loop, by the form of the argument *)

Lemma read_args_bare arg rest params :
  startsWith arg "--" = false -> read_args (arg :: rest) params = read_args rest params.
Proof. intros H. cbn [read_args]. rewrite H. reflexivity. Qed.

Lemma read_args_equals key v rest params :
  includes key "=" = false ->
  read_args (("--" +:+ key +:+ "=" +:+ v) :: rest) params
  = read_args rest (assign key (VString v) params).
Proof.
  intros Hkey. cbn [read_args]. rewrite startsWith_app, slice_dashes.
  unfold split. change ("=" +:+ v) with (String "=" v).
  rewrite (split_go_app _ _ _ _ Hkey), sapp_nil_l.
  pose proof (join_split_go "=" "" v) as Hj. rewrite sapp_nil_l in Hj.
  pose proof (split_go_nonempty "=" "" v) as Hne.
  destruct (split_go "=" "" v) as [|p ps]; [congruence|]. rewrite Hj. reflexivity.
Qed.

Lemma split_key key : includes key "=" = false -> split "=" key = [key].
Proof. intros H. unfold split. rewrite (split_go_free _ _ _ H). reflexivity. Qed.

Lemma read_args_flag_last key params :
  includes key "=" = false ->
  read_args ["--" +:+ key] params = assign key (VBool true) params.
Proof.
  intros Hkey. cbn [read_args]. rewrite startsWith_app, slice_dashes, (split_key _ Hkey).
  reflexivity.
Qed.

Lemma read_args_flag key next rest params :
  includes key "=" = false -> startsWith next "--" = true ->
  read_args (("--" +:+ key) :: next :: rest) params
  = read_args (next :: rest) (assign key (VBool true) params).
Proof.
  intros Hkey Hnext. cbn [read_args].
  rewrite startsWith_app, slice_dashes, (split_key _ Hkey), Hnext. reflexivity.
Qed.

Lemma read_args_pair key next rest params :
  includes key "=" = false -> startsWith next "--" = false ->
  read_args (("--" +:+ key) :: next :: rest) params
  = read_args rest (assign key (VString next) params).
Proof.
  intros Hkey Hnext. cbn [read_args].
  rewrite startsWith_app, slice_dashes, (split_key _ Hkey), Hnext. reflexivity.
Qed.

(** *** What is read does not depend on the options that follow *)

Lemma read_args_app_le n args tail params :
  length args <= n -> option_first tail ->
  read_args (args ++ tail) params = read_args tail (read_args args params).
Proof.
  revert args params. induction n as [|n IH]; intros args params Hlen Htail.
  - destruct args; [reflexivity | simpl in Hlen; lia].
  - destruct args as [|arg rest]; [reflexivity|]. simpl in Hlen.
    rewrite <- app_comm_cons. cbn [read_args].
    destruct (startsWith arg "--"); [|apply IH; [lia | assumption]].
    destruct (split "=" (slice 2 arg)) as [|key [|p ps]];
      [apply IH; [lia | assumption] | | apply IH; [lia | assumption]].
    destruct rest as [|next rest'].
    + rewrite app_nil_l. destruct tail as [|t ts]; [reflexivity|].
      simpl in Htail. rewrite Htail. reflexivity.
    + rewrite <- app_comm_cons. destruct (startsWith next "--").
      * simpl negb. cbv iota. rewrite app_comm_cons. apply IH; [lia | assumption].
      * simpl negb. cbv iota. apply IH; [simpl in Hlen; lia | assumption].
Qed.

Lemma read_args_app args tail params :
  option_first tail ->
  read_args (args ++ tail) params = read_args tail (read_args args params).
Proof. apply (read_args_app_le (length args)). lia. Qed.

Lemma skip_past_app name args tail :
  name ∈ args -> skip_past name (args ++ tail) = skip_past name args ++ tail.
Proof.
  induction args as [|arg rest IH]; intros Hin.
  - apply elem_of_nil in Hin. contradiction.
  - simpl. destruct (String.eqb arg name) eqn:E; [reflexivity|].
    apply String.eqb_neq in E. apply elem_of_cons in Hin as [->|Hin]; [congruence | auto].
Qed.

Lemma extractParams_app name args tail :
  name ∈ args -> option_first tail ->
  extractParams (args ++ tail) name = read_args tail (extractParams args name).
Proof.
  intros Hin Htail. unfold extractParams.
  rewrite (skip_past_app _ _ _ Hin). apply read_args_app, Htail.
Qed.

(** X1: An option at the end of the command line is read the same whatever
    comes before it, and it has the last word on its key. With [--key=value]
    the value is everything after the first [=], further [=] included;
    [--key value] gives the next argument when that is not itself an
    option; [--key] alone gives [true]. *)
Theorem extractParams_last_option name args key v :
  name ∈ args -> includes key "=" = false ->
  extractParams (args ++ ["--" +:+ key +:+ "=" +:+ v]) name
  = assign key (VString v) (extractParams args name)
  ∧ extractParams (args ++ ["--" +:+ key]) name
    = assign key (VBool true) (extractParams args name)
  ∧ (startsWith v "--" = false ->
     extractParams (args ++ ["--" +:+ key; v]) name
     = assign key (VString v) (extractParams args name))
  ∧ (key ≠ "__proto__" ->
     get_prop (extractParams (args ++ ["--" +:+ key +:+ "=" +:+ v]) name) key
     = Some (VString v)).
Proof.
  intros Hin Hkey.
  assert (E1 : extractParams (args ++ ["--" +:+ key +:+ "=" +:+ v]) name
               = assign key (VString v) (extractParams args name)).
  { rewrite extractParams_app; [|assumption | apply startsWith_app].
    apply read_args_equals, Hkey. }
  split; [exact E1|]. split; [|split].
  - rewrite extractParams_app; [|assumption | apply startsWith_app].
    apply read_args_flag_last, Hkey.
  - intros Hv. rewrite extractParams_app; [|assumption | apply startsWith_app].
    apply read_args_pair; assumption.
  - intros Hp. rewrite E1. unfold assign.
    apply String.eqb_neq in Hp. rewrite Hp, get_prop_set_prop, String.eqb_refl. reflexivity.
Qed.

Lemma extractParams_last_option_witness :
  extractParams ["scrape"; "--url"; "http://x"; "--q=a=b"] "scrape"
  = [("url", VString "http://x"); ("q", VString "a=b")]
  ∧ extractParams ["scrape"; "--url"; "--dry"] "scrape"
    = [("url", VBool true); ("dry", VBool true)].
Proof.
  split.
  - apply (proj1 (extractParams_last_option "scrape" ["scrape"; "--url"; "http://x"] "q" "a=b"
                    ltac:(left) eq_refl)).
  - apply (proj1 (proj2 (extractParams_last_option "scrape" ["scrape"; "--url"] "dry" ""
                           ltac:(left) eq_refl))).
Defined.

(** *** What the object holds *)

Lemma Forall_replace_prop {A} (P : string * A -> Prop) k (x : A) (o : list (string * A)) :
  (∀ k', P (k', x)) -> Forall P o -> Forall P (replace_prop k x o).
Proof.
  intros Hx. induction 1 as [|[k0 v0] o H0 Ho IH]; simpl; [constructor|].
  destruct (String.eqb k0 k); constructor; auto.
Qed.

Lemma Forall_insert_index {A} (P : string * A -> Prop) i k (x : A) (o : list (string * A)) :
  P (k, x) -> Forall P o -> Forall P (insert_index i k x o).
Proof.
  intros Hx. induction 1 as [|[k0 v0] o H0 Ho IH]; simpl; [repeat constructor; exact Hx|].
  destruct (array_index k0) as [j|]; [destruct (j <? i)%N|];
    repeat (constructor; auto).
Qed.

Lemma Forall_set_prop {A} (P : string * A -> Prop) k (x : A) (o : list (string * A)) :
  (∀ k', P (k', x)) -> Forall P o -> Forall P (set_prop k x o).
Proof.
  intros Hx Ho. unfold set_prop. destruct (has_prop o k).
  - apply Forall_replace_prop; assumption.
  - destruct (array_index k).
    + apply Forall_insert_index; auto.
    + apply Forall_app. split; [assumption | repeat constructor; apply Hx].
Qed.

Lemma read_args_from_cli_le n args params :
  length args <= n -> Forall from_cli params -> Forall from_cli (read_args args params).
Proof.
  revert args params. induction n as [|n IH]; intros args params Hlen Hp.
  - destruct args; [exact Hp | simpl in Hlen; lia].
  - destruct args as [|arg rest]; [exact Hp|]. simpl in Hlen. cbn [read_args].
    assert (Hassign : ∀ k x, from_cli ("", x) -> Forall from_cli (assign k x params)).
    { intros k x Hx. unfold assign. destruct (String.eqb k "__proto__"); [exact Hp|].
      apply Forall_set_prop; [intros k'; exact Hx | exact Hp]. }
    destruct (startsWith arg "--"); [|apply IH; [lia | exact Hp]].
    destruct (split "=" (slice 2 arg)) as [|key [|p ps]].
    + apply IH; [lia | exact Hp].
    + destruct rest as [|next rest'].
      * apply IH; [simpl; lia|]. apply Hassign. left. reflexivity.
      * destruct (startsWith next "--"); simpl negb; cbv iota.
        -- apply IH; [lia|]. apply Hassign. left. reflexivity.
        -- apply IH; [simpl in Hlen; lia|]. apply Hassign. right. eexists. reflexivity.
    + apply IH; [lia|]. apply Hassign. right. eexists. reflexivity.
Qed.

(** X2: Whatever the command line, every parameter [extractParams] returns is
    a string or [true]: never [false], a number, an array or an object.
    Typed values come from coercion only. *)
Theorem extractParams_strings_or_true args name :
  Forall (λ kv, snd kv = VBool true ∨ ∃ s, snd kv = VString s) (extractParams args name).
Proof.
  unfold extractParams.
  apply (read_args_from_cli_le (length (skip_past name args))); [lia | constructor].
Qed.

(** X3: Only what follows the first occurrence of the workflow name is read:
    the arguments before it are ignored, options included, and when the
    name does not occur among the arguments nothing is read at all. *)
Theorem extractParams_after_name name pre rest args :
  (name ∉ pre -> extractParams (pre ++ name :: rest) name = extractParams (name :: rest) name)
  ∧ (name ∉ args -> extractParams args name = []).
Proof.
  split.
  - intros Hpre. unfold extractParams. f_equal.
    induction pre as [|arg pre IH]; [reflexivity|].
    apply not_elem_of_cons in Hpre as [Hne Hpre]. simpl.
    destruct (String.eqb arg name) eqn:E; [apply String.eqb_eq in E; congruence|].
    rewrite (IH Hpre). simpl. rewrite String.eqb_refl. reflexivity.
  - intros Hargs. unfold extractParams.
    assert (E : skip_past name args = []).
    { induction args as [|arg args IH]; [reflexivity|].
      apply not_elem_of_cons in Hargs as [Hne Hargs]. simpl.
      destruct (String.eqb arg name) eqn:E; [apply String.eqb_eq in E; congruence|].
      apply IH, Hargs. }
    rewrite E. reflexivity.
Qed.

Lemma extractParams_after_name_witness :
  extractParams ["--url=early"; "scrape"; "--url=late"] "scrape"
  = extractParams ["scrape"; "--url=late"] "scrape"
  ∧ extractParams ["--url=x"] "scrape" = [].
Proof.
  split.
  - apply (proj1 (extractParams_after_name "scrape" ["--url=early"] ["--url=late"] [])).
    intros [H|H]%elem_of_cons; [discriminate | apply elem_of_nil in H; contradiction].
  - apply (proj2 (extractParams_after_name "scrape" [] [] ["--url=x"])).
    intros [H|H]%elem_of_cons; [discriminate | apply elem_of_nil in H; contradiction].
Defined.

Example extractParams_forms :
  extractParams
    ["checkout-qa"; "--url"; "https://staging.myapp.com"; "extra"; "--note=a=b";
     "--verbose"; "--2"; "two"; "--__proto__=x"]
    "checkout-qa"
  = [ ("2", VString "two"); ("url", VString "https://staging.myapp.com");
      ("note", VString "a=b"); ("verbose", VBool true) ].
Proof. vm_compute. reflexivity. Qed.
End CliSpec.

(** ** validator.ts: what is accepted, what is resolved *)
Section ValidatorResults.
Import Validator.
Implicit Types (workflow : WorkflowDefinition) (params : list (string * value))
  (e : ValidationError) (k name : string) (def : ParamDefinition).

Lemma length_zero_nil {A} (l : list A) : Nat.eqb (length l) 0 = true <-> l = [].
Proof. destruct l; simpl; split; congruence. Qed.

Lemma no_element_nil {A} (l : list A) : (∀ x, x ∉ l) -> l = [].
Proof. destruct l as [|x l]; [reflexivity|]. intros H. exfalso. apply (H x). left. Qed.

(** X4: [validateParams] accepts an input exactly when [validateParam] has
    nothing to say against any declared parameter and every key of the
    input is declared. Stated for declared names and input keys that are
    not names of [Object.prototype]: on those, the input read under a
    name is the own property or [undefined], and [in] tests an own
    property. *)
Theorem validateParams_valid_iff workflow params :
  plain_names (keys (wf_params workflow)) -> plain_names (keys params) ->
  valid (validateParams workflow params) = true <->
  (∀ name def, (name, def) ∈ wf_params workflow ->
               snd (validateParam name def (get params name)) = None)
  ∧ (∀ k, k ∈ keys params -> has_prop (wf_params workflow) k = true).
Proof.
  intros _ _.
  destruct (validateParams_fields workflow params) as (He & _ & Hv).
  rewrite Hv, length_zero_nil, He. clear He Hv. split.
  - intros Hnil. split.
    + intros name def Hin.
      destruct (snd (validateParam name def (get params name))) as [e|] eqn:E; [|reflexivity].
      exfalso. apply (not_elem_of_nil e). rewrite <- Hnil.
      apply errors_fold_unknown. left. apply errors_fold_defined. right.
      exists name, def. auto.
    + intros k Hk. destruct (has_prop (wf_params workflow) k) eqn:E; [reflexivity|].
      exfalso.
      apply (not_elem_of_nil {| err_param := k; err_message := "Unknown parameter: " +:+ k |}).
      rewrite <- Hnil. apply errors_fold_unknown. right. exists k. auto.
  - intros [Hdef Hkeys]. apply no_element_nil. intros e He.
    apply errors_fold_unknown in He as [He|(k & Hk & Hno & _)].
    + apply errors_fold_defined in He as [He|(name & def & Hin & Hn)].
      * apply elem_of_nil in He. contradiction.
      * rewrite (Hdef _ _ Hin) in Hn. discriminate.
    + rewrite (Hkeys _ Hk) in Hno. discriminate.
Qed.

Lemma validateParams_valid_iff_witness :
  valid (validateParams Examples.open_page
           [("url", VString "http://x"); ("bogus", VString "1")]) = false.
Proof.
  destruct (valid (validateParams Examples.open_page
                     [("url", VString "http://x"); ("bogus", VString "1")])) eqn:E;
    [|reflexivity].
  apply (validateParams_valid_iff Examples.open_page
           [("url", VString "http://x"); ("bogus", VString "1")]) in E as [_ Hkeys];
    [|repeat constructor..].
  pose proof (Hkeys "bogus" (list_elem_of_further _ _ _ (list_elem_of_here _ _))) as H.
  discriminate H.
Defined.



(** *** After coercion *)

(** What the pipeline hands to [validateParam] for a declared parameter
    whose input value is [undefined] or [null]: the default as declared. *)
Lemma coerced_absent workflow params name def :
  NoDup (keys (wf_params workflow)) ->
  get_prop (wf_params workflow) name = Some def ->
  is_undefined (get params name) || is_null (get params name) = true ->
  get (coerceParams (wf_params workflow) params) name = param_default def.
Proof.
  intros Hnd Hdef Hv. unfold get at 1.
  rewrite (coerceParams_declared _ _ _ _ Hnd Hdef). unfold coerce_entry. rewrite Hv.
  destruct (param_default def); simpl;
    rewrite ?get_prop_set_prop, ?String.eqb_refl; reflexivity.
Qed.

(** A present value, once coerced to a type other than object, gives
    [validateParam] no ground for a type error. *)
Lemma coerced_value_type_ok name def v e :
  is_undefined v || is_null v = false ->
  param_type def ≠ TObject ->
  snd (validateParam name def (coerceValue (param_type def) v)) = Some e ->
  is_TypeMismatch e = false.
Proof.
  intros Hv Ht. unfold coerceValue. rewrite Hv.
  destruct (param_type def) eqn:Et; [| | | |congruence].
  - unfold validateParam. simpl is_undefined. simpl is_null. cbv iota. simpl orb.
    rewrite Et. destruct (String.eqb (ToString v) "").
    + destruct (param_required def); [intros [= <-]; reflexivity|].
      destruct (negb (is_undefined (param_default def))); discriminate.
    + simpl. discriminate.
  - assert (∃ n, (if String.eqb (typeof v) "number" then v else VNumber (ToNumber v))
                 = VNumber n) as [n ->].
    { destruct v; simpl; eauto. }
    rewrite validateParam_number by assumption. discriminate.
  - assert (∃ b, (if String.eqb (typeof v) "boolean" then v
                  else if is_string v "true" then VBool true
                  else if is_string v "false" then VBool false
                  else VBool (ToBoolean v)) = VBool b) as [b ->].
    { destruct v; simpl; eauto.
      destruct (String.eqb s "true"); [eauto|]. destruct (String.eqb s "false"); eauto. }
    rewrite validateParam_boolean by assumption. discriminate.
  - assert (∃ xs, (if isArray v then v
                   else match v with
                        | VString s => VArray (List.map (fun t => VString (trim t)) (split "," s))
                        | _ => VArray [v]
                        end) = VArray xs) as [xs ->].
    { destruct v; simpl; eauto. }
    unfold validateParam. rewrite Et. simpl. discriminate.
Qed.

(** X6: In the pipeline of [runWorkflow], a type error ("Expected ...") can
    only come from a parameter of type object, or from a declared default
    that stands in for a value not supplied and is itself of the wrong
    type. A value supplied for a string, number, boolean or array
    parameter never gets one: coercion has made it of the type. Stated
    for declared names that are not names of [Object.prototype], under
    which a missing value reads [undefined]. *)
Theorem pipeline_type_errors workflow params e :
  plain_names (keys (wf_params workflow)) ->
  NoDup (keys (wf_params workflow)) ->
  e ∈ errors (coerce_then_validate workflow params) ->
  is_TypeMismatch e = true ->
  ∃ def, get_prop (wf_params workflow) (err_param e) = Some def
         ∧ (param_type def = TObject
            ∨ (is_undefined (get params (err_param e)) || is_null (get params (err_param e))
               = true
               ∧ validateType (err_param e) (param_type def) (param_default def) = Some e)).
Proof.
  intros _ Hnd He Hmis. rewrite pipeline_errors in He.
  apply errors_fold_defined in He as [He|(name & def & Hin & Hn)].
  { apply elem_of_nil in He. contradiction. }
  pose proof (validateParam_error_param _ _ _ _ Hn) as Hp. rewrite Hp.
  apply (get_prop_NoDup_elem _ _ _ Hnd) in Hin. exists def. split; [exact Hin|].
  destruct (is_undefined (get params name) || is_null (get params name)) eqn:Hv.
  - right. split; [reflexivity|].
    rewrite (coerced_absent _ _ _ _ Hnd Hin Hv) in Hn. unfold validateParam in Hn.
    destruct (is_undefined (param_default def) || is_null (param_default def)
              || is_string (param_default def) "").
    + exfalso. destruct (param_required def).
      * injection Hn as <-. discriminate.
      * destruct (negb (is_undefined (param_default def))); discriminate.
    + destruct (validateType name (param_type def) (param_default def)); [|discriminate].
      simpl in Hn. congruence.
  - left. rewrite (coerced_at _ _ _ _ Hnd Hin Hv) in Hn.
    destruct (param_type def) eqn:Et; try reflexivity; exfalso;
      (assert (Hno : param_type def ≠ TObject) by congruence;
       rewrite <- Et in Hn;
       rewrite (coerced_value_type_ok _ _ _ _ Hv Hno Hn) in Hmis; discriminate).
Qed.

Lemma pipeline_type_errors_witness :
  ∃ def, get_prop (wf_params Examples.miscount) "count" = Some def
         ∧ (param_type def = TObject
            ∨ (is_undefined (get [] "count") || is_null (get [] "count") = true
               ∧ validateType "count" (param_type def) (param_default def)
                 = Some {| err_param := "count";
                           err_message := "Expected number, got string" |})).
Proof.
  apply (pipeline_type_errors Examples.miscount []
           {| err_param := "count"; err_message := "Expected number, got string" |}).
  - repeat constructor.
  - apply NoDup_keys_singleton.
  - vm_compute. left.
  - reflexivity.
Defined.

(** What the pipeline does with a declared parameter whose input is
    present: the answer of [validateParam] on the coerced value. *)
Lemma pipeline_at workflow params name def :
  NoDup (keys (wf_params workflow)) ->
  get_prop (wf_params workflow) name = Some def ->
  is_undefined (get params name) || is_null (get params name) = false ->
  match validateParam name def (coerceValue (param_type def) (get params name)) with
  | (_, Some e) =>
      e ∈ errors (coerce_then_validate workflow params)
      ∧ get_prop (resolvedParams (coerce_then_validate workflow params)) name = None
  | (v, None) =>
      get_prop (resolvedParams (coerce_then_validate workflow params)) name = Some v
      ∧ ∀ e, e ∈ errors (coerce_then_validate workflow params) -> err_param e ≠ name
  end.
Proof.
  intros Hnd Hdef Hv. unfold coerce_then_validate.
  rewrite <- (coerced_at _ _ _ _ Hnd Hdef Hv). apply validateParams_at; assumption.
Qed.






(** Two values the pipeline cannot tell apart: the same value, or two
    ways of giving none. *)
Let alike (v v' : value) : Prop :=
  v = v' ∨ (is_undefined v || is_null v = true ∧ is_undefined v' || is_null v' = true).

Lemma coerce_entry_alike params params' result name def :
  alike (get params name) (get params' name) ->
  coerce_entry params result (name, def) = coerce_entry params' result (name, def).
Proof.
  unfold coerce_entry. intros [->|[H H']]; [reflexivity|]. rewrite H, H'. reflexivity.
Qed.

(** X9: The pipeline reads the input under the declared names and nowhere
    else, and takes [null], [undefined] and a missing key for the same
    thing: two inputs that agree in this sense on every declared name get
    the same verdict, the same errors and the same resolved parameters,
    whatever else they hold. Stated for declared names that are not names
    of [Object.prototype]: under one of those a missing key would read
    what the prototype holds, not [undefined]. *)
Theorem pipeline_reads_declared_names_only workflow params params' :
  plain_names (keys (wf_params workflow)) ->
  (∀ name, name ∈ keys (wf_params workflow) ->
           get params name = get params' name
           ∨ (is_undefined (get params name) || is_null (get params name) = true
              ∧ is_undefined (get params' name) || is_null (get params' name) = true)) ->
  coerce_then_validate workflow params = coerce_then_validate workflow params'.
Proof.
  intros _ Hsame. unfold coerce_then_validate. f_equal. unfold coerceParams.
  generalize (@nil (string * value)). revert Hsame. unfold keys.
  induction (wf_params workflow) as [|[name def] schema IH]; intros Hsame acc;
    [reflexivity|].
  cbn [fold_left]. rewrite (coerce_entry_alike params params').
  - apply IH. intros n Hn. apply Hsame. right. exact Hn.
  - apply Hsame. left.
Qed.

Lemma pipeline_reads_declared_names_only_witness :
  coerce_then_validate Examples.repeat_task [("count", VNull); ("bogus", VString "1")]
  = coerce_then_validate Examples.repeat_task [].
Proof.
  apply pipeline_reads_declared_names_only; [repeat constructor|].
  intros name [->|H]%elem_of_cons; [|apply elem_of_nil in H; contradiction].
  right. split; reflexivity.
Defined.

(** X10: A declared default stands in for a value that is not supplied, as it
    is: it is not coerced to the declared type, and when it passes the
    type check it is what the pipeline resolves. With such a default a
    required parameter is not reported missing. Stated for declared names
    that are not names of [Object.prototype], under which a value not
    supplied reads [undefined]. *)
Theorem default_resolved_as_declared workflow params name def :
  plain_names (keys (wf_params workflow)) ->
  NoDup (keys (wf_params workflow)) ->
  get_prop (wf_params workflow) name = Some def ->
  is_undefined (get params name) || is_null (get params name) = true ->
  is_undefined (param_default def) || is_null (param_default def)
  || is_string (param_default def) "" = false ->
  validateType name (param_type def) (param_default def) = None ->
  get_prop (resolvedParams (coerce_then_validate workflow params)) name
  = Some (param_default def)
  ∧ ∀ e, e ∈ errors (coerce_then_validate workflow params) -> err_param e ≠ name.
Proof.
  intros _ Hnd Hdef Hv Hd Ht. unfold coerce_then_validate.
  pose proof (validateParams_at workflow (coerceParams (wf_params workflow) params)
                name def Hnd Hdef) as H.
  rewrite (coerced_absent _ _ _ _ Hnd Hdef Hv) in H.
  unfold validateParam in H. rewrite Hd, Ht in H. exact H.
Qed.

Lemma default_resolved_as_declared_witness :
  get_prop (resolvedParams (coerce_then_validate Examples.greet [])) "who"
  = Some (VString "world")
  ∧ ∀ e, e ∈ errors (coerce_then_validate Examples.greet []) -> err_param e ≠ "who".
Proof.
  apply (default_resolved_as_declared Examples.greet [] "who"
           (Examples.param TString true (VString "world")));
    [repeat constructor | apply NoDup_keys_singleton | reflexivity..].
Defined.
End ValidatorResults.

(** ** From the command line to the resolved parameters *)
Section CommandLineValues.
Import Validator Cli.
Implicit Types (workflow : WorkflowDefinition) (params : list (string * value))
  (e : ValidationError) (key name : string) (def : ParamDefinition).

(** X11: An option given without a value ([--key] at the end of the command
    line) reaches the pipeline as [true]. For a boolean parameter that is
    the value resolved; for a number parameter it resolves to 1, for a
    string parameter to the text [true], for an array parameter to an
    array holding [true]; none of these is an error. For an object
    parameter it is rejected. *)
Theorem bare_flag_by_type workflow name args key def :
  NoDup (keys (wf_params workflow)) ->
  get_prop (wf_params workflow) key = Some def ->
  name ∈ args -> includes key "=" = false -> key ≠ "__proto__" ->
  match param_type def with
  | TObject =>
      {| err_param := key; err_message := "Expected object, got boolean" |}
        ∈ errors (coerce_then_validate workflow
                    (extractParams (args ++ ["--" +:+ key]) name))
  | t =>
      get_prop (resolvedParams (coerce_then_validate workflow
                                  (extractParams (args ++ ["--" +:+ key]) name))) key
      = Some match t with
             | TString => VString "true"
             | TNumber => VNumber (Finite false 1 0)
             | TBoolean => VBool true
             | _ => VArray [VBool true]
             end
      ∧ ∀ e, e ∈ errors (coerce_then_validate workflow
                           (extractParams (args ++ ["--" +:+ key]) name)) ->
             err_param e ≠ key
  end.
Proof.
  intros Hnd Hdef Hin Hkey Hproto.
  assert (Hget : get (extractParams (args ++ ["--" +:+ key]) name) key = VBool true).
  { rewrite extractParams_app; [|assumption | apply startsWith_app].
    rewrite (read_args_flag_last _ _ Hkey). unfold assign, get.
    apply String.eqb_neq in Hproto.
    rewrite Hproto, get_prop_set_prop, String.eqb_refl. reflexivity. }
  pose proof (pipeline_at workflow (extractParams (args ++ ["--" +:+ key]) name)
                key def Hnd Hdef) as H.
  rewrite Hget in H. specialize (H eq_refl).
  unfold validateParam in H.
  destruct (param_type def); simpl in H; try exact H. apply H.
Qed.

Lemma bare_flag_by_type_witness :
  get_prop (resolvedParams (coerce_then_validate Examples.retry
                              (extractParams (["retry"] ++ ["--" +:+ "retries"]) "retry")))
    "retries"
  = Some (VNumber (Finite false 1 0))
  ∧ ∀ e, e ∈ errors (coerce_then_validate Examples.retry
                       (extractParams (["retry"] ++ ["--" +:+ "retries"]) "retry")) ->
         err_param e ≠ "retries".
Proof.
  apply (bare_flag_by_type Examples.retry "retry" ["retry"] "retries"
           (Examples.param TNumber true VUndefined));
    [apply NoDup_keys_singleton | reflexivity | left | reflexivity | discriminate].
Defined.


End CommandLineValues.

(** ** workflow.ts: definitions passed twice, and blank tasks *)
Section WorkflowAgain.
Import Workflow.
Implicit Types (s t : string) (definition : RawDefinition).

Lemma strip_many_fixed fuel seqs s :
  strip_one seqs s = None -> strip_many fuel seqs s = s.
Proof. intros H. destruct fuel; simpl; [|rewrite H]; reflexivity. Qed.

(** Trimming a trimmed text changes nothing. *)
Lemma trim_trim s : trim (trim s) = trim s.
Proof.
  destruct (trim_spec s) as (_ & _ & _ & _ & _ & Hstart & Hend).
  unfold trim at 1. unfold trimStart. rewrite (strip_many_fixed _ _ _ Hstart).
  unfold trimEnd. rewrite (strip_many_fixed _ _ _ Hend). apply rev_involutive.
Qed.

(** X13: What [defineWorkflow] returns can be passed to it again, and comes
    back unchanged, unless the task it returned is empty: then the second
    call throws. *)
Theorem defineWorkflow_again definition :
  match defineWorkflow definition with
  | Ok workflow =>
      defineWorkflow (as_raw workflow)
      = if String.eqb (wf_task workflow) ""
        then Err "Workflow must have a task"
        else Ok workflow
  | Err _ => True
  end.
Proof.
  unfold defineWorkflow.
  destruct (falsy (raw_name definition)) eqn:Hn; [exact I|].
  destruct (falsy (raw_task definition)) eqn:Ht; [exact I|].
  destruct (raw_params definition) as [params|]; [|exact I].
  destruct (raw_capture definition) as [capture|]; [|exact I].
  destruct (raw_name definition) as [name|]; [|discriminate].
  destruct (raw_task definition) as [task|]; [|discriminate].
  simpl in *. rewrite Hn.
  destruct (String.eqb (trim task) ""); [reflexivity|].
  rewrite trim_trim. reflexivity.
Qed.

(** The first match of [strip_one] on a text that starts with a white
    space sequence is that sequence: none is the start of another. *)
Lemma strip_one_white_space w s :
  w ∈ white_space -> strip_one white_space (w +:+ s) = Some s.
Proof.
  intros H. apply list_elem_of_In in H. unfold white_space in H. simpl in H.
  repeat (destruct H as [<-|H]; [reflexivity|]). contradiction.
Qed.

Lemma strip_many_blank s :
  blank s -> ∀ fuel, String.length s <= fuel -> strip_many fuel white_space s = "".
Proof.
  induction 1 as [|w s Hw Hs IH]; intros fuel Hlen.
  - destruct fuel; reflexivity.
  - rewrite sapp_length in Hlen.
    assert (Hne : w ≠ "").
    { pose proof white_space_nonempty as Hall. rewrite Forall_forall in Hall. auto. }
    destruct fuel as [|fuel]; [destruct w; [congruence | simpl in Hlen; lia]|].
    cbn [strip_many]. rewrite (strip_one_white_space _ _ Hw). apply IH.
    destruct w; [congruence | simpl in Hlen; lia].
Qed.

(** A text of white space only trims to nothing. *)
Lemma trim_blank s : blank s -> trim s = "".
Proof.
  intros H. unfold trim, trimStart. rewrite (strip_many_blank _ H) by lia. reflexivity.
Qed.

(** X14: A task made of white space only passes the test for a missing task
    (it is not the empty string) and is then trimmed to nothing: the
    definition returned has an empty task. *)
Theorem blank_task_accepted name description params capture task :
  name ≠ "" -> task ≠ "" -> blank task ->
  defineWorkflow {| raw_name := Some name; raw_description := description;
                    raw_params := Some params; raw_capture := Some capture;
                    raw_task := Some task |}
  = Ok {| wf_name := name; wf_description := description; wf_params := params;
          wf_capture := capture; wf_task := "" |}.
Proof.
  intros Hname Htask Hblank. unfold defineWorkflow. simpl.
  apply String.eqb_neq in Hname, Htask. rewrite Hname, Htask, (trim_blank _ Hblank).
  reflexivity.
Qed.

Lemma blank_task_accepted_witness :
  defineWorkflow {| raw_name := Some "open-page"; raw_description := None;
                    raw_params := Some []; raw_capture := Some Examples.no_capture;
                    raw_task := Some (" " +:+ nl +:+ "") |}
  = Ok {| wf_name := "open-page"; wf_description := None; wf_params := [];
          wf_capture := Examples.no_capture; wf_task := "" |}.
Proof.
  apply blank_task_accepted; [discriminate | discriminate |].
  apply (blank_cons " "); [apply list_elem_of_In; vm_compute; tauto|].
  apply (blank_cons nl); [apply list_elem_of_In; vm_compute; tauto | apply blank_nil].
Defined.
End WorkflowAgain.

(** ** prompt-builder.ts: the sections of the prompt *)
Section PromptSections.
Import PromptBuilder.
Variable compile : string -> list (string * value) -> option string.
Implicit Types (workflow : WorkflowDefinition) (params context : list (string * value))
  (capture : CaptureConfig) (s t : string) (lines : list string).

(** A text that opens with a line feed. *)
Let opens s : Prop := ∃ r, s = nl +:+ r.

Lemma opens_join_all lines :
  Forall opens lines -> (join nl lines = "" <-> lines = []).
Proof.
  intros H. destruct H as [|s lines [r ->] _]; [tauto|].
  split; [|discriminate]. destruct lines; discriminate.
Qed.

(** A list of lines with a given first line. *)
Let headed (h : string) lines : Prop := ∃ l, lines = h :: l.

Lemma headed_join r lines : headed (nl +:+ r) lines -> opens (join nl lines).
Proof.
  intros [l ->]. destruct l as [|t l]; [exists r; reflexivity|].
  exists (r +:+ nl +:+ join nl (t :: l)). reflexivity.
Qed.

Lemma headed_app h lines (more : list string) : headed h lines -> headed h (lines ++ more).
Proof. intros [l ->]. exists (l ++ more). reflexivity. Qed.

(** The optional lines keep the first line where it is. *)
Lemma headed_items {A} h lines (c : option (list A)) (f : A -> list A -> string) :
  headed h lines ->
  headed h match c with Some (m :: ms) => lines ++ [f m ms] | _ => lines end.
Proof. intros H. destruct c as [[|m ms]|]; auto using headed_app. Qed.

Lemma headed_text h lines (c : option string) (f : string -> string) :
  headed h lines -> headed h match c with Some t => lines ++ [f t] | None => lines end.
Proof. intros H. destruct c; auto using headed_app. Qed.

Lemma headed_unless h lines (c : option bool) (x : string) :
  headed h lines -> headed h match c with Some false => lines | _ => lines ++ [x] end.
Proof. intros H. destruct c as [[|]|]; auto using headed_app. Qed.

Lemma headed_flag h lines (c : option bool) (x : string) :
  headed h lines -> headed h match c with Some true => lines ++ [x] | _ => lines end.
Proof. intros H. destruct c as [[|]|]; auto using headed_app. Qed.

Lemma bind_headed r (rendered : option string) (f : string -> list string) s :
  (∀ x, headed (nl +:+ r) (f x)) ->
  (x ← rendered; Some (join nl (f x))) = Some s -> opens s.
Proof.
  intros H. destruct rendered as [x|]; [|discriminate].
  intros [= <-]. eapply headed_join, H.
Qed.

Lemma network_opens config context s :
  buildNetworkInstructions compile config context = Some s -> opens s.
Proof.
  unfold buildNetworkInstructions.
  apply (bind_headed "NETWORK CAPTURE:"). intros saveDir.
  apply headed_flag, headed_flag, headed_unless, headed_app, headed_text, headed_items.
  destruct (net_methods config) as [[|m ms]|]; eexists; reflexivity.
Qed.

Lemma screenshots_opens config context s :
  buildScreenshotInstructions compile config context = Some s -> opens s.
Proof.
  unfold buildScreenshotInstructions. destruct config as [path|config].
  - destruct (renderTemplate compile path context); [|discriminate].
    simpl. intros [= <-]. eexists. apply sapp_assoc.
  - destruct (renderTemplate compile (shot_dir config) context); [|discriminate].
    simpl. intros [= <-]. eexists. apply sapp_assoc.
Qed.

Lemma console_opens config context s :
  buildConsoleInstructions compile config context = Some s -> opens s.
Proof.
  unfold buildConsoleInstructions.
  destruct (renderTemplate compile (con_saveAs config) context); [|discriminate].
  simpl. intros [= <-]. apply (headed_join "CONSOLE CAPTURE:").
  destruct (nonempty (con_pattern config)); eexists; reflexivity.
Qed.

(** The capture instructions are empty exactly when no capture is
    configured. *)
Lemma instructions_empty_iff capture context instructions :
  buildCaptureInstructions compile capture context = Some instructions ->
  (instructions = "" <-> configured capture = false).
Proof.
  unfold buildCaptureInstructions, configured.
  set (network :=
         match cap_network capture with
         | Some config => s ← buildNetworkInstructions compile config context; Some [s]
         | None => Some []
         end).
  set (screenshots :=
         match cap_screenshots capture with
         | Some (inl "") | None => Some []
         | Some config => s ← buildScreenshotInstructions compile config context; Some [s]
         end).
  set (console :=
         match cap_console capture with
         | Some config => s ← buildConsoleInstructions compile config context; Some [s]
         | None => Some []
         end).
  set (data :=
         match nonempty (cap_data capture) with
         | Some path =>
             dataPath ← renderTemplate compile path context;
             Some [nl +:+ "DATA EXTRACTION:" +:+ nl
                   +:+ "- Save extracted data as JSON to: " +:+ dataPath]
         | None => Some []
         end).
  assert (H1 : ∀ l, network = Some l ->
               Forall opens l
               ∧ (l = [] <-> match cap_network capture with Some _ => true | None => false end
                             = false)).
  { subst network. intros l. destruct (cap_network capture) as [config|].
    - destruct (buildNetworkInstructions compile config context) as [s|] eqn:Hs;
        [|discriminate].
      simpl. intros [= <-]. split; [|split; discriminate].
      repeat constructor. eapply network_opens, Hs.
    - intros [= <-]. split; [constructor | tauto]. }
  assert (H2 : ∀ l, screenshots = Some l ->
               Forall opens l
               ∧ (l = [] <-> match cap_screenshots capture with
                             | Some (inl "") | None => false
                             | Some _ => true
                             end = false)).
  { subst screenshots. intros l.
    assert (Hyes : ∀ config,
               (s ← buildScreenshotInstructions compile config context; Some [s]) = Some l ->
               Forall opens l ∧ (l = [] <-> true = false)).
    { intros config.
      destruct (buildScreenshotInstructions compile config context) as [s|] eqn:Hs;
        [|discriminate].
      simpl. intros [= <-]. split; [|split; discriminate].
      repeat constructor. eapply screenshots_opens, Hs. }
    destruct (cap_screenshots capture) as [[[|c path]|config]|]; try apply Hyes.
    - intros [= <-]. split; [constructor | tauto].
    - intros [= <-]. split; [constructor | tauto]. }
  assert (H3 : ∀ l, console = Some l ->
               Forall opens l
               ∧ (l = [] <-> match cap_console capture with Some _ => true | None => false end
                             = false)).
  { subst console. intros l. destruct (cap_console capture) as [config|].
    - destruct (buildConsoleInstructions compile config context) as [s|] eqn:Hs;
        [|discriminate].
      simpl. intros [= <-]. split; [|split; discriminate].
      repeat constructor. eapply console_opens, Hs.
    - intros [= <-]. split; [constructor | tauto]. }
  assert (H4 : ∀ l, data = Some l ->
               Forall opens l
               ∧ (l = [] <-> match nonempty (cap_data capture) with
                             | Some _ => true | None => false end = false)).
  { subst data. intros l. destruct (nonempty (cap_data capture)) as [path|].
    - destruct (renderTemplate compile path context) as [dataPath|]; [|discriminate].
      simpl. intros [= <-]. split; [|split; discriminate].
      repeat constructor. eexists. reflexivity.
    - intros [= <-]. split; [constructor | tauto]. }
  clearbody network screenshots console data.
  destruct network as [l1|]; [|discriminate].
  destruct screenshots as [l2|]; [|discriminate].
  destruct console as [l3|]; [|discriminate].
  destruct data as [l4|]; [|discriminate].
  simpl. intros [= <-].
  destruct (H1 _ eq_refl) as [F1 E1], (H2 _ eq_refl) as [F2 E2],
           (H3 _ eq_refl) as [F3 E3], (H4 _ eq_refl) as [F4 E4].
  rewrite opens_join_all by (repeat (apply Forall_app; split); assumption).
  rewrite !orb_false_iff, <- E1, <- E2, <- E3, <- E4.
  split.
  - intros E. apply app_eq_nil in E as [-> E]. apply app_eq_nil in E as [-> E].
    apply app_eq_nil in E as [-> ->]. auto.
  - intros [[[-> ->] ->] ->]. reflexivity.
Qed.

(** X15: The prompt is the rendered task followed by the closing section,
    with a section of capture instructions between them exactly when the
    workflow configures some capture. *)
Theorem capture_section_iff_configured workflow params outputDir prompt :
  buildPrompt compile workflow params outputDir = Some prompt ->
  ∃ task instructions,
    compile (wf_task workflow)
      (makeContext params (wf_name workflow)
         (from_option id ("./output/" +:+ wf_name workflow) (nonempty outputDir)))
    = Some task
    ∧ buildCaptureInstructions compile (wf_capture workflow)
        (makeContext params (wf_name workflow)
           (from_option id ("./output/" +:+ wf_name workflow) (nonempty outputDir)))
      = Some instructions
    ∧ (instructions = "" <-> configured (wf_capture workflow) = false)
    ∧ prompt
      = if configured (wf_capture workflow)
        then task +:+ nl +:+ nl +:+ "---" +:+ nl +:+ "CAPTURE INSTRUCTIONS:" +:+ nl
             +:+ instructions +:+ nl +:+ join nl outputFormat
        else task +:+ nl +:+ join nl outputFormat.
Proof.
  unfold buildPrompt.
  destruct (compile (wf_task workflow) _) as [task|]; [|discriminate]. simpl.
  destruct (buildCaptureInstructions compile (wf_capture workflow) _)
    as [instructions|] eqn:Hc; [|discriminate].
  simpl. intros [= <-]. exists task, instructions.
  pose proof (instructions_empty_iff _ _ _ Hc) as Hiff.
  split; [reflexivity|]. split; [reflexivity|]. split; [exact Hiff|].
  destruct (configured (wf_capture workflow)).
  - destruct (String.eqb instructions "") eqn:E.
    + apply String.eqb_eq in E. apply Hiff in E. discriminate.
    + reflexivity.
  - rewrite (proj2 Hiff eq_refl). reflexivity.
Qed.
End PromptSections.

Section PromptSectionsExamples.
Import PromptBuilder.

Lemma capture_section_iff_configured_witness :
  ∃ task instructions,
    Handlebars.render (wf_task Examples.pricing)
      (makeContext [("url", VString "http://x"); ("competitor", VString "acme")]
         "scrape-pricing" "./output/scrape-pricing")
    = Some task
    ∧ buildCaptureInstructions Handlebars.render (wf_capture Examples.pricing)
        (makeContext [("url", VString "http://x"); ("competitor", VString "acme")]
           "scrape-pricing" "./output/scrape-pricing")
      = Some instructions
    ∧ (instructions = "" <-> configured (wf_capture Examples.pricing) = false)
    ∧ from_option id ""
        (buildPrompt Handlebars.render Examples.pricing
           [("url", VString "http://x"); ("competitor", VString "acme")] None)
      = task +:+ nl +:+ nl +:+ "---" +:+ nl +:+ "CAPTURE INSTRUCTIONS:" +:+ nl
        +:+ instructions +:+ nl +:+ join nl outputFormat.
Proof.
  apply (capture_section_iff_configured Handlebars.render Examples.pricing
           [("url", VString "http://x"); ("competitor", VString "acme")] None).
  vm_compute. reflexivity.
Defined.
End PromptSectionsExamples.

Section InjectedNames.
Import PromptBuilder.
Implicit Types (workflow : WorkflowDefinition) (params context : list (string * value))
  (pre x post before after : string).

Lemma makeContext_injected params name outputDir :
  get (makeContext params name outputDir) "name" = VString name
  ∧ get (makeContext params name outputDir) "outputDir" = VString outputDir.
Proof. unfold get, makeContext. rewrite !get_prop_set_prop. split; reflexivity. Qed.

(** X16: In a template, [{{name}}] is the name of the workflow and
    [{{outputDir}}] the output directory ([./output/] and the name of the
    workflow when none is given), HTML-escaped, whatever the parameters
    hold: a parameter called [name] or [outputDir] never reaches the
    prompt. What comes after the placeholder does not start with a third
    closing brace, which the engine refuses. *)
Theorem injected_names_shadow_params workflow params outputDir context pre x post
    before after instructions :
  context = makeContext params (wf_name workflow)
              (from_option id ("./output/" +:+ wf_name workflow) (nonempty outputDir)) ->
  wf_task workflow = pre +:+ "{{" +:+ x +:+ "}}" +:+ post ->
  Handlebars.render pre context = Some before -> Handlebars.ends_open pre = false ->
  Handlebars.render post context = Some after -> startsWith post "}" = false ->
  buildCaptureInstructions Handlebars.render (wf_capture workflow) context
  = Some instructions ->
  (x = "name" ->
   ∃ rest, buildPrompt Handlebars.render workflow params outputDir
           = Some (before +:+ Handlebars.escape (wf_name workflow) +:+ after +:+ rest))
  ∧ (x = "outputDir" ->
     ∃ rest, buildPrompt Handlebars.render workflow params outputDir
             = Some (before
                     +:+ Handlebars.escape
                           (from_option id ("./output/" +:+ wf_name workflow)
                              (nonempty outputDir))
                     +:+ after +:+ rest)).
Proof.
  intros Hctx Htask Hpre Hopen Hpost Hclose Hcap.
  assert (Hgen : ∀ text, Handlebars.is_name x = true ->
                   Handlebars.escapeExpression (get context x) = Some text ->
                   ∃ rest, buildPrompt Handlebars.render workflow params outputDir
                           = Some (before +:+ text +:+ after +:+ rest)).
  { intros text Hx Hv.
    pose proof (render_placeholder _ _ _ _ _ _ _ Hpre Hopen Hx Hv Hpost Hclose) as Hr.
    rewrite <- Htask in Hr.
    destruct (buildPrompt_task _ _ _ _ _ _ Hctx Hr Hcap) as [rest Hb].
    exists rest. rewrite Hb, !sapp_assoc. reflexivity. }
  split; intros ->; apply Hgen; try reflexivity; rewrite Hctx.
  - rewrite (proj1 (makeContext_injected _ _ _)). reflexivity.
  - rewrite (proj2 (makeContext_injected _ _ _)). reflexivity.
Qed.

Lemma injected_names_shadow_params_witness :
  (∃ rest, buildPrompt Handlebars.render Examples.self_named
             [("name", VString "mine"); ("outputDir", VString "/tmp")] None
           = Some ("Run " +:+ Handlebars.escape "report" +:+ " into ./output/report."
                   +:+ rest))
  ∧ (∃ rest, buildPrompt Handlebars.render Examples.self_named
               [("name", VString "mine"); ("outputDir", VString "/tmp")] None
             = Some ("Run report into " +:+ Handlebars.escape "./output/report" +:+ "."
                     +:+ rest)).
Proof.
  split.
  - apply (proj1 (injected_names_shadow_params Examples.self_named
                    [("name", VString "mine"); ("outputDir", VString "/tmp")] None _
                    "Run " "name" " into {{outputDir}}." "Run " " into ./output/report." ""
                    eq_refl eq_refl eq_refl eq_refl eq_refl eq_refl eq_refl) eq_refl).
  - apply (proj2 (injected_names_shadow_params Examples.self_named
                    [("name", VString "mine"); ("outputDir", VString "/tmp")] None _
                    "Run {{name}} into " "outputDir" "." "Run report into " "." ""
                    eq_refl eq_refl eq_refl eq_refl eq_refl eq_refl eq_refl) eq_refl).
Defined.
End InjectedNames.

Section CapturePaths.
Import PromptBuilder.
Implicit Types (capture : CaptureConfig) (context : list (string * value))
  (template pre x post before after text instructions : string).

(** X17: The paths of the capture configuration are templates too, rendered
    by the same engine on the same context: where the [data] path has a
    placeholder, the capture instructions end with the line that names
    the path, the HTML-escaped value in the place of the placeholder. A
    value with [&], [=] or a quote in it therefore shows escaped in the
    path the prompt gives. *)
Theorem capture_data_path_rendered capture context template pre x post before after text
    instructions :
  nonempty (cap_data capture) = Some template ->
  template = pre +:+ "{{" +:+ x +:+ "}}" +:+ post ->
  Handlebars.render pre context = Some before -> Handlebars.ends_open pre = false ->
  Handlebars.is_name x = true ->
  Handlebars.escapeExpression (get context x) = Some text ->
  Handlebars.render post context = Some after ->
  buildCaptureInstructions Handlebars.render capture context = Some instructions ->
  ∃ head,
    instructions
    = head +:+ nl +:+ "DATA EXTRACTION:" +:+ nl +:+ "- Save extracted data as JSON to: "
      +:+ before +:+ text +:+ after.
Proof.
  intros Hdata -> Hpre Hopen Hx Hv Hpost.
  unfold buildCaptureInstructions. rewrite Hdata. unfold renderTemplate at 1.
  destruct (startsWith post "}") eqn:Hclose.
  { rewrite (render_placeholder_closed _ _ _ _ _ Hpre Hopen Hx Hclose).
    destruct (match cap_network capture with
              | Some config =>
                  s ← buildNetworkInstructions Handlebars.render config context; Some [s]
              | None => Some []
              end); [|discriminate].
    destruct (match cap_screenshots capture with
              | Some (inl "") | None => Some []
              | Some config =>
                  s ← buildScreenshotInstructions Handlebars.render config context; Some [s]
              end); [|discriminate].
    destruct (match cap_console capture with
              | Some config =>
                  s ← buildConsoleInstructions Handlebars.render config context; Some [s]
              | None => Some []
              end); discriminate. }
  rewrite (render_placeholder _ _ _ _ _ _ _ Hpre Hopen Hx Hv Hpost Hclose).
  destruct (match cap_network capture with
            | Some config =>
                s ← buildNetworkInstructions Handlebars.render config context; Some [s]
            | None => Some []
            end) as [l1|]; [|discriminate].
  destruct (match cap_screenshots capture with
            | Some (inl "") | None => Some []
            | Some config =>
                s ← buildScreenshotInstructions Handlebars.render config context; Some [s]
            end) as [l2|]; [|discriminate].
  destruct (match cap_console capture with
            | Some config =>
                s ← buildConsoleInstructions Handlebars.render config context; Some [s]
            | None => Some []
            end) as [l3|]; [|discriminate].
  cbn [mbind option_bind]. intros [= <-].
  rewrite !app_assoc.
  match goal with
  | |- ∃ head, join nl (?lines ++ [?a]) = _ =>
      destruct (join_snoc nl lines a) as [head ->]
  end.
  exists head. reflexivity.
Qed.

Lemma capture_data_path_rendered_witness :
  ∃ head,
    from_option id ""
      (buildCaptureInstructions Handlebars.render (wf_capture Examples.pricing)
         (makeContext [("url", VString "http://x"); ("competitor", VString "A&B")]
            "scrape-pricing" "./output/scrape-pricing"))
    = head +:+ nl +:+ "DATA EXTRACTION:" +:+ nl +:+ "- Save extracted data as JSON to: "
      +:+ "./output/scrape-pricing/" +:+ "A&amp;B" +:+ "/pricing.json".
Proof.
  apply (capture_data_path_rendered (wf_capture Examples.pricing)
           (makeContext [("url", VString "http://x"); ("competitor", VString "A&B")]
              "scrape-pricing" "./output/scrape-pricing")
           "./output/{{name}}/{{competitor}}/pricing.json"
           "./output/{{name}}/" "competitor" "/pricing.json");
    vm_compute; reflexivity.
Defined.
End CapturePaths.

(** ** prompt-builder.ts: describeWorkflow *)
Section DescribeWorkflow.
Import PromptBuilder.
Implicit Types (workflow : WorkflowDefinition) (lines : list string) (a b c : string).

Lemma join_last_two lines a b c :
  ∃ head, join nl ((lines ++ [a; b]) ++ [c]) = head +:+ nl +:+ b +:+ nl +:+ c.
Proof.
  replace ((lines ++ [a; b]) ++ [c]) with ((lines ++ [a]) ++ [b; c])
    by (rewrite <- !app_assoc; reflexivity).
  induction lines as [|x lines [head IH]].
  - exists a. reflexivity.
  - exists (x +:+ nl +:+ head). unfold join in *. simpl.
    destruct ((lines ++ [a]) ++ [b; c]) as [|y l] eqn:E; [destruct lines; discriminate|].
    rewrite IH, !sapp_assoc. reflexivity.
Qed.

(** X18: The description ends with the task, shown line for line: every line
    of the task is there, in order, with two spaces before it, and nothing
    else comes after the heading [Task:]. *)
Theorem describeWorkflow_shows_task workflow :
  ∃ head shown,
    describeWorkflow workflow = head +:+ nl +:+ "Task:" +:+ nl +:+ shown
    ∧ split "010" shown
      = List.map (fun l => "  " +:+ l) (split "010" (wf_task workflow)).
Proof.
  unfold describeWorkflow.
  match goal with
  | |- ∃ head shown, join nl ((?lines ++ [?a; ?b]) ++ [?c]) = _ ∧ _ =>
      destruct (join_last_two lines a b c) as [head Hhead]
  end.
  exists head. eexists. split; [exact Hhead|].
  assert (Hfree : Forall (λ q, includes q nl = false)
                    (List.map (fun l => "  " +:+ l) (split "010" (wf_task workflow)))).
  { apply Forall_fmap. eapply Forall_impl; [apply split_parts_free|].
    intros l Hl. unfold compose, nl. cbv beta.
    change ("  " +:+ l) with (String " " (String " " l)).
    rewrite !includes_char_cons, Hl. reflexivity. }
  pose proof (split_go_nonempty "010" "" (wf_task workflow)) as Hne.
  unfold split in *. destruct (split_go "010" "" (wf_task workflow)) as [|p ps];
    [congruence|].
  apply (split_join "010" _ _ Hfree).
Qed.
End DescribeWorkflow.

Section DescribeWorkflowExamples.
Import PromptBuilder.

Example describe_pricing :
  describeWorkflow Examples.pricing
  = join nl
      [ "Workflow: scrape-pricing";
        "Description: Extract pricing info from competitor site";
        "";
        "Parameters:";
        "  --url <string> (required)";
        "  --competitor <string> (required)";
        "";
        "Captures:";
        "  - Network: */api/pricing*, */api/plans*, */api/products*";
        "  - Screenshots: ./output/{{name}}/{{competitor}}/screenshots/";
        "  - Data: ./output/{{name}}/{{competitor}}/pricing.json";
        "";
        "Task:";
        "  Extract pricing information from {{url}} for competitor: {{competitor}}" ].
Proof. vm_compute. reflexivity. Qed.

Example describe_default :
  describeParam ("count", Examples.param TNumber false (VNumber (of_Z 3)))
  = "  --count <number> (default: 3)".
Proof. vm_compute. reflexivity. Qed.
End DescribeWorkflowExamples.

(** ** node:path: what [resolve] returns *)
Section PathFacts.
Import Path.
Implicit Types (p from cwd seg : string) (segs acc paths : list string).

Lemma normalize_clean acc segs :
  Forall clean segs -> normalize acc segs = List.rev acc ++ segs.
Proof.
  intros H. revert acc. induction H as [|seg segs (H1 & H2 & H3 & _) _ IH]; intros acc; simpl.
  - rewrite app_nil_r. reflexivity.
  - apply String.eqb_neq in H1, H2, H3. rewrite H1, H2, H3. simpl.
    rewrite IH. simpl. rewrite <- app_assoc. reflexivity.
Qed.

Lemma normalize_is_clean acc segs :
  Forall clean acc -> Forall (λ s, includes s "/" = false) segs ->
  Forall clean (normalize acc segs).
Proof.
  intros Hacc Hsegs. revert acc Hacc.
  induction Hsegs as [|seg segs Hseg _ IH]; intros acc Hacc; simpl.
  - apply Forall_rev, Hacc.
  - destruct (String.eqb seg "") eqn:E1; simpl; [apply IH, Hacc|].
    destruct (String.eqb seg ".") eqn:E2; simpl; [apply IH, Hacc|].
    destruct (String.eqb seg "..") eqn:E3.
    + apply IH. destruct Hacc; [constructor | assumption].
    + apply IH. constructor; [|assumption].
      apply String.eqb_neq in E1, E2, E3. repeat split; assumption.
Qed.

(** The segments of a normalized path are read back from its text. *)
Lemma segments_of_segments segs : Forall clean segs -> segments (of_segments segs) = segs.
Proof.
  intros H. unfold segments, of_segments, split.
  change ("/" +:+ join "/" segs) with ("" +:+ String "/" (join "/" segs)).
  rewrite split_go_app by reflexivity. simpl.
  destruct segs as [|seg segs].
  - reflexivity.
  - fold (split "/" (join "/" (seg :: segs))). rewrite split_join.
    + apply (normalize_clean [] _ H).
    + eapply Forall_impl; [exact H|]. intros s (_ & _ & _ & Hs). exact Hs.
Qed.

(** An absolute, normalized path. *)
Let absolute p : Prop := ∃ segs, p = of_segments segs ∧ Forall clean segs.

Lemma resolve_from_absolute from p : absolute (resolve_from from p).
Proof.
  unfold resolve_from. destruct (startsWith p "/").
  - eexists. split; [reflexivity|]. apply normalize_is_clean; [constructor|].
    apply split_parts_free.
  - eexists. split; [reflexivity|]. apply normalize_is_clean; [constructor|].
    apply Forall_app. split; apply split_parts_free.
Qed.

Lemma resolve_absolute cwd paths : absolute (resolve cwd paths).
Proof.
  unfold resolve. generalize (resolve_from_absolute "/" cwd).
  generalize (resolve_from "/" cwd). induction paths as [|p paths IH]; intros from Hfrom.
  - exact Hfrom.
  - simpl. apply IH, resolve_from_absolute.
Qed.

Lemma resolve_from_fixed from p : absolute p -> resolve_from from p = p.
Proof.
  intros (segs & -> & Hsegs). unfold resolve_from.
  unfold of_segments at 1. rewrite startsWith_app, (segments_of_segments _ Hsegs).
  reflexivity.
Qed.

(** [resolve] returns an absolute, normalized path, which it leaves as
    it is when given it again, alone or in front of other paths. *)
Lemma resolve_resolved cwd paths more :
  resolve cwd (resolve cwd paths :: more) = resolve cwd (paths ++ more).
Proof.
  unfold resolve at 1 3. rewrite fold_left_app. simpl.
  rewrite resolve_from_fixed by apply resolve_absolute. reflexivity.
Qed.

Lemma normalize_app acc segs more :
  normalize acc (segs ++ more) = normalize (List.rev (normalize acc segs)) more.
Proof.
  revert acc. induction segs as [|seg segs IH]; intros acc; simpl.
  - rewrite List.rev_involutive. reflexivity.
  - destruct (String.eqb seg "" || String.eqb seg "."); [apply IH|].
    destruct (String.eqb seg ".."); apply IH.
Qed.

(** Resolving a name against a path puts it below that path. *)
Lemma resolve_from_name from seg :
  absolute from -> clean seg ->
  resolve_from from seg = of_segments (segments from ++ [seg]).
Proof.
  intros (segs & -> & Hsegs) Hseg. unfold resolve_from.
  assert (Hs : startsWith seg "/" = false).
  { destruct Hseg as (_ & _ & _ & H). destruct seg as [|c seg]; [reflexivity|].
    rewrite includes_char_cons in H. apply orb_false_elim in H as [H _].
    unfold startsWith. cbn [strip_prefix]. destruct (Ascii.eqb "/" c); [discriminate|reflexivity]. }
  rewrite Hs, normalize_app. fold (segments (of_segments segs)).
  rewrite (segments_of_segments _ Hsegs).
  assert (Hsplit : split "/" seg = [seg]).
  { unfold split. destruct Hseg as (_ & _ & _ & H). rewrite (split_go_free _ _ _ H).
    reflexivity. }
  rewrite Hsplit, (normalize_clean (List.rev segs) [seg]), List.rev_involutive.
  - reflexivity.
  - constructor; [assumption | constructor].
Qed.

Lemma resolve_two_names cwd p a b :
  clean a -> clean b ->
  resolve cwd [p; a; b] = of_segments (segments (resolve cwd [p]) ++ [a; b]).
Proof.
  intros Ha Hb.
  change (resolve cwd [p; a; b])
    with (resolve_from (resolve_from (resolve cwd [p]) a) b).
  rewrite (resolve_from_name (resolve cwd [p]) a (resolve_absolute _ _) Ha).
  destruct (resolve_absolute cwd [p]) as (segs & -> & Hsegs).
  rewrite (segments_of_segments _ Hsegs).
  rewrite resolve_from_name; [|eexists; split; [reflexivity|] | assumption].
  - rewrite segments_of_segments, <- app_assoc; [reflexivity|].
    apply Forall_app. split; [assumption|]. constructor; [assumption | constructor].
  - apply Forall_app. split; [assumption|]. constructor; [assumption | constructor].
Qed.

Lemma resolve_one_name cwd p a :
  clean a -> resolve cwd [p; a] = of_segments (segments (resolve cwd [p]) ++ [a]).
Proof.
  intros Ha. change (resolve cwd [p; a]) with (resolve_from (resolve cwd [p]) a).
  apply resolve_from_name; [apply resolve_absolute | exact Ha].
Qed.

Lemma resolve_idempotent cwd paths : resolve cwd [resolve cwd paths] = resolve cwd paths.
Proof. rewrite resolve_resolved, app_nil_r. reflexivity. Qed.

Lemma resolve_starts_with_slash cwd paths :
  startsWith (resolve cwd paths) "/" = true ∧ includes (resolve cwd paths) "/" = true.
Proof.
  destruct (resolve_absolute cwd paths) as (segs & -> & _). split; reflexivity.
Qed.
End PathFacts.

(** ** loader.ts: search paths, listing and loading *)
Section LoaderResults.
Import Loader FS.
Variable env : Env.
Variable root : node.
Implicit Types (w : LoadedWorkflow) (ws acc : list LoadedWorkflow) (p dir name file : string)
  (paths : list string) (entries : list Dirent).

(** X19: The search paths are directories that exist, given as absolute,
    normalized paths; a path that does not exist is left out. *)
Theorem getWorkflowPaths_exist customPaths :
  Forall (λ p, existsSync root p = true ∧ startsWith p "/" = true ∧ resolve env [p] = p)
    (getWorkflowPaths env root customPaths).
Proof.
  unfold getWorkflowPaths. apply Forall_forall. intros p Hp.
  apply list_elem_of_In, filter_In in Hp as [Hp Hex]. split; [exact Hex|].
  apply in_map_iff in Hp as (q & <- & _). unfold resolve. split.
  - apply resolve_starts_with_slash.
  - apply resolve_idempotent.
Qed.

(** *** Loading a file *)

Lemma loadWorkflowFile_Ok p w :
  loadWorkflowFile env root p = Ok w ->
  lw_filePath w = resolve env [p]
  ∧ lw_directory w = Path.dirname (resolve env [p])
  ∧ existsSync root (resolve env [p]) = true
  ∧ import root (resolve env [p]) = ImportOk (Some (lw_definition w))
  ∧ wf_name (lw_definition w) ≠ "".
Proof.
  unfold loadWorkflowFile.
  destruct (existsSync root (resolve env [p])); [simpl | discriminate].
  destruct (import root (resolve env [p])) as [msg|[definition|]]; try discriminate.
  destruct (String.eqb (wf_name definition) "") eqn:E; [discriminate|].
  intros [= <-]. apply String.eqb_neq in E. simpl. auto.
Qed.

Lemma loadWorkflowFile_resolved p :
  loadWorkflowFile env root (resolve env [p]) = loadWorkflowFile env root p.
Proof.
  unfold loadWorkflowFile, resolve. rewrite resolve_idempotent. reflexivity.
Qed.

(** A loaded workflow loads again from its [filePath]. *)
Lemma loadWorkflowFile_again p w :
  loadWorkflowFile env root p = Ok w -> loadWorkflowFile env root (lw_filePath w) = Ok w.
Proof.
  intros H. destruct (loadWorkflowFile_Ok _ _ H) as (-> & _).
  rewrite loadWorkflowFile_resolved. exact H.
Qed.

(** *** Scanning *)

(** Where the entries found by one pass over a directory come from. *)
Lemma scan_entries_origin scan_sub dir entries acc ws w :
  fold_left (scan_entry env root scan_sub dir) entries (Ok acc) = Ok ws -> w ∈ ws ->
  w ∈ acc
  ∨ (∃ entry nested,
       entry ∈ entries ∧ isDirectory entry = true
       ∧ startsWith (dirent_name entry) "." = false
       ∧ scan_sub (resolve env [dir; dirent_name entry]) = Ok nested ∧ w ∈ nested)
  ∨ (∃ entry,
       entry ∈ entries ∧ isFile entry = true
       ∧ endsWith (dirent_name entry) ".ts" = true
       ∧ startsWith (dirent_name entry) "_" = false
       ∧ loadWorkflowFile env root (resolve env [dir; dirent_name entry]) = Ok w).
Proof.
  revert acc. induction entries as [|entry entries IH]; intros acc; simpl.
  - intros [= <-] Hw. left. exact Hw.
  - assert (Herr : ∀ msg, fold_left (scan_entry env root scan_sub dir) entries (Err msg)
                          = Err msg).
    { intros msg. clear. induction entries as [|e es IHes]; simpl; auto. }
    assert (Hlater : ∀ acc',
               (∀ w', w' ∈ acc' ->
                  w' ∈ acc
                  ∨ (∃ nested, isDirectory entry = true
                       ∧ startsWith (dirent_name entry) "." = false
                       ∧ scan_sub (resolve env [dir; dirent_name entry]) = Ok nested
                       ∧ w' ∈ nested)
                  ∨ (isFile entry = true ∧ endsWith (dirent_name entry) ".ts" = true
                     ∧ startsWith (dirent_name entry) "_" = false
                     ∧ loadWorkflowFile env root (resolve env [dir; dirent_name entry])
                       = Ok w')) ->
               fold_left (scan_entry env root scan_sub dir) entries (Ok acc') = Ok ws ->
               w ∈ ws ->
               w ∈ acc
               ∨ (∃ entry0 nested,
                    entry0 ∈ entry :: entries ∧ isDirectory entry0 = true
                    ∧ startsWith (dirent_name entry0) "." = false
                    ∧ scan_sub (resolve env [dir; dirent_name entry0]) = Ok nested
                    ∧ w ∈ nested)
               ∨ (∃ entry0,
                    entry0 ∈ entry :: entries ∧ isFile entry0 = true
                    ∧ endsWith (dirent_name entry0) ".ts" = true
                    ∧ startsWith (dirent_name entry0) "_" = false
                    ∧ loadWorkflowFile env root (resolve env [dir; dirent_name entry0])
                      = Ok w)).
    { intros acc' Hacc' Hfold Hw.
      destruct (IH _ Hfold Hw) as [Hin|[(e & nested & He & H)|(e & He & H)]].
      - destruct (Hacc' _ Hin) as [?|[(nested & H)|H]]; [auto| |].
        + right. left. exists entry, nested. split; [left | exact H].
        + right. right. exists entry. split; [left | exact H].
      - right. left. exists e, nested. split; [right; exact He | exact H].
      - right. right. exists e. split; [right; exact He | exact H]. }
    destruct (isDirectory entry && negb (startsWith (dirent_name entry) ".")) eqn:Hd.
    + apply andb_prop in Hd as [Hd1 Hd2]. apply negb_true_iff in Hd2.
      destruct (scan_sub (resolve env [dir; dirent_name entry])) as [nested|msg] eqn:Hs.
      * apply Hlater. intros w' [Hw'|Hw']%elem_of_app; [auto|].
        right. left. exists nested. auto.
      * rewrite Herr. discriminate.
    + destruct (isFile entry && endsWith (dirent_name entry) ".ts"
                && negb (startsWith (dirent_name entry) "_")) eqn:Hf.
      * apply andb_prop in Hf as [Hf Hf3]. apply andb_prop in Hf as [Hf1 Hf2].
        apply negb_true_iff in Hf3.
        destruct (loadWorkflowFile env root (resolve env [dir; dirent_name entry]))
          as [loaded|msg] eqn:Hl.
        -- apply Hlater. intros w' [Hw'|Hw']%elem_of_app; [auto|].
           apply list_elem_of_singleton in Hw'. subst w'. auto 10.
        -- apply Hlater. auto.
      * apply Hlater. auto.
Qed.

(** What [scanDirectory] finds below a search path: workflows loaded
    from files [*.ts], not starting with an underscore, in the directory
    itself or in a subdirectory of it whose name does not start with a
    dot; nothing from further down. *)
Lemma scan_origin dir ws w :
  scanDirectory env root dir 2 0 = Ok ws -> w ∈ ws ->
  ∃ file,
    endsWith file ".ts" = true ∧ startsWith file "_" = false
    ∧ (loadWorkflowFile env root (resolve env [dir; file]) = Ok w
       ∨ ∃ sub, startsWith sub "." = false
                ∧ loadWorkflowFile env root (resolve env [dir; sub; file]) = Ok w).
Proof.
  unfold scanDirectory. simpl.
  destruct (existsSync root dir); simpl;
    [|intros [= <-] Hw; apply elem_of_nil in Hw; contradiction].
  destruct (readdir root dir) as [entries|msg]; [|discriminate].
  intros Hfold Hw.
  destruct (scan_entries_origin _ _ _ _ _ _ Hfold Hw)
    as [Hin|[(e & nested & _ & _ & Hdot & Hsub & Hn)|(e & _ & _ & Hts & Hus & Hl)]].
  - apply elem_of_nil in Hin. contradiction.
  - destruct (existsSync root (resolve env [dir; dirent_name e])); simpl in Hsub;
      [|injection Hsub as <-; apply elem_of_nil in Hn; contradiction].
    destruct (readdir root (resolve env [dir; dirent_name e])) as [entries'|msg];
      [|discriminate].
    destruct (scan_entries_origin _ _ _ _ _ _ Hsub Hn)
      as [Hin|[(e' & nested' & _ & _ & _ & Hsub' & Hn')|(e' & _ & _ & Hts & Hus & Hl)]].
    + apply elem_of_nil in Hin. contradiction.
    + injection Hsub' as <-. apply elem_of_nil in Hn'. contradiction.
    + exists (dirent_name e'). split; [exact Hts|]. split; [exact Hus|].
      right. exists (dirent_name e). split; [exact Hdot|].
      unfold resolve in *. rewrite (resolve_resolved _ _ [dirent_name e']) in Hl.
      exact Hl.
  - exists (dirent_name e). auto.
Qed.

(** In a well-formed tree the names [readdir] gives are path segments. *)
Lemma well_formed_entry (es : list (string * node)) e :
  well_formed (Dir es) -> e ∈ es -> Path.clean (fst e) ∧ well_formed (snd e).
Proof.
  induction es as [|e0 es IH]; intros Hwf He; [apply elem_of_nil in He; contradiction|].
  destruct Hwf as (Hc & Hn & Hrest).
  apply elem_of_cons in He as [->|He]; [auto|]. apply IH; assumption.
Qed.

Lemma walk_well_formed n segs n' :
  well_formed n -> walk n segs = Some n' -> well_formed n'.
Proof.
  revert n. induction segs as [|s segs IH]; intros n Hwf; simpl.
  - intros [= <-]. exact Hwf.
  - destruct n as [m|es|]; try discriminate.
    destruct (get_prop es s) as [child|] eqn:Hc; [|discriminate].
    apply get_prop_Some_elem in Hc.
    apply IH. exact (proj2 (well_formed_entry _ _ Hwf Hc)).
Qed.

Lemma readdir_clean dir entries entry :
  well_formed root -> readdir root dir = Ok entries -> entry ∈ entries ->
  Path.clean (dirent_name entry).
Proof.
  unfold readdir, lookup. intros Hwf.
  destruct (walk root (Path.segments dir)) as [[m|es|]|] eqn:Hw; try discriminate.
  intros [= <-] He. apply list_elem_of_fmap in He as (e & -> & He).
  exact (proj1 (well_formed_entry _ _ (walk_well_formed _ _ _ Hwf Hw) He)).
Qed.

(** What [scanDirectory] finds below a search path of a well-formed
    tree, by the names of the entries it went through. *)
Lemma scan_origin_clean dir ws w :
  well_formed root ->
  scanDirectory env root dir 2 0 = Ok ws -> w ∈ ws ->
  ∃ file,
    Path.clean file ∧ endsWith file ".ts" = true ∧ startsWith file "_" = false
    ∧ (loadWorkflowFile env root (resolve env [dir; file]) = Ok w
       ∨ ∃ sub, Path.clean sub ∧ startsWith sub "." = false
                ∧ loadWorkflowFile env root (resolve env [dir; sub; file]) = Ok w).
Proof.
  intros Hwf. unfold scanDirectory. simpl.
  destruct (existsSync root dir); simpl;
    [|intros [= <-] Hw; apply elem_of_nil in Hw; contradiction].
  destruct (readdir root dir) as [entries|msg] eqn:Hdir; [|discriminate].
  intros Hfold Hw.
  destruct (scan_entries_origin _ _ _ _ _ _ Hfold Hw)
    as [Hin|[(e & nested & He & _ & Hdot & Hsub & Hn)|(e & He & _ & Hts & Hus & Hl)]].
  - apply elem_of_nil in Hin. contradiction.
  - destruct (existsSync root (resolve env [dir; dirent_name e])); simpl in Hsub;
      [|injection Hsub as <-; apply elem_of_nil in Hn; contradiction].
    destruct (readdir root (resolve env [dir; dirent_name e])) as [entries'|msg] eqn:Hdir';
      [|discriminate].
    destruct (scan_entries_origin _ _ _ _ _ _ Hsub Hn)
      as [Hin|[(e' & nested' & _ & _ & _ & Hsub' & Hn')|(e' & He' & _ & Hts & Hus & Hl)]].
    + apply elem_of_nil in Hin. contradiction.
    + injection Hsub' as <-. apply elem_of_nil in Hn'. contradiction.
    + exists (dirent_name e'). split; [exact (readdir_clean _ _ _ Hwf Hdir' He')|].
      split; [exact Hts|]. split; [exact Hus|].
      right. exists (dirent_name e). split; [exact (readdir_clean _ _ _ Hwf Hdir He)|].
      split; [exact Hdot|].
      unfold resolve in *. rewrite (resolve_resolved _ _ [dirent_name e']) in Hl.
      exact Hl.
  - exists (dirent_name e). split; [exact (readdir_clean _ _ _ Hwf Hdir He)|]. auto.
Qed.

Lemma scan_paths_origin paths acc ws w :
  fold_left (scan_path env root) paths (Ok acc) = Ok ws -> w ∈ ws ->
  w ∈ acc ∨ ∃ p found, p ∈ paths ∧ scanDirectory env root p 2 0 = Ok found ∧ w ∈ found.
Proof.
  revert acc. induction paths as [|p paths IH]; intros acc; simpl.
  - intros [= <-] Hw. auto.
  - destruct (scanDirectory env root p 2 0) as [found|msg] eqn:Hp.
    + intros Hfold Hw. destruct (IH _ Hfold Hw) as [Hin|(q & f & Hq & Hf & Hin)].
      * apply elem_of_app in Hin as [Hin|Hin]; [auto|].
        right. exists p, found. split; [left | auto].
      * right. exists q, f. split; [right; exact Hq | auto].
    + intros Hfold. exfalso. clear -Hfold.
      induction paths as [|q paths IHp]; simpl in Hfold; [discriminate | auto].
Qed.

Lemma dedupe_subset ws w : w ∈ dedupe ws -> w ∈ ws.
Proof.
  unfold dedupe.
  assert (H : ∀ seen kept, w ∈ snd (fold_left dedupe_step ws (seen, kept)) ->
                           w ∈ kept ∨ w ∈ ws).
  { induction ws as [|w0 ws IH]; intros seen kept; simpl; [auto|].
    destruct (decide (wf_name (lw_definition w0) ∈ seen)); intros Hw.
    - destruct (IH _ _ Hw); [auto | right; right; assumption].
    - destruct (IH _ _ Hw) as [[Hin|Hin]%elem_of_app|Hin]; [auto| |right; right; assumption].
      apply list_elem_of_singleton in Hin. subst. right. left. }
  intros Hw. destruct (H _ _ Hw) as [Hin|Hin]; [|exact Hin].
  apply elem_of_nil in Hin. contradiction.
Qed.

Lemma listed_origin searchPaths ws w :
  listWorkflows env root searchPaths = Ok ws -> w ∈ ws ->
  ∃ p file,
    p ∈ getWorkflowPaths env root searchPaths
    ∧ endsWith file ".ts" = true ∧ startsWith file "_" = false
    ∧ (loadWorkflowFile env root (resolve env [p; file]) = Ok w
       ∨ ∃ sub, startsWith sub "." = false
                ∧ loadWorkflowFile env root (resolve env [p; sub; file]) = Ok w).
Proof.
  unfold listWorkflows.
  destruct (fold_left (scan_path env root) (getWorkflowPaths env root searchPaths) (Ok []))
    as [all|msg] eqn:Hfold; [|discriminate].
  intros [= <-] Hw. apply dedupe_subset in Hw.
  destruct (scan_paths_origin _ _ _ _ Hfold Hw) as [Hin|(p & found & Hp & Hscan & Hin)].
  - apply elem_of_nil in Hin. contradiction.
  - destruct (scan_origin _ _ _ Hscan Hin) as (file & H). exists p, file. tauto.
Qed.

(** X20: Every workflow [listWorkflows] returns was loaded from a file
    [*.ts] whose name does not start with an underscore, lying in a search
    path or exactly one directory below it, in a directory whose name does
    not start with a dot: its [filePath] is the search path followed by
    the name of the file, or by the two names and nothing more. At that
    path the tree holds the module whose default export is the definition
    listed, and the name of the definition is not empty. Stated for a tree
    whose names are path segments, as those of a file system are. *)
Theorem listed_workflow_location searchPaths ws w :
  well_formed root ->
  listWorkflows env root searchPaths = Ok ws -> w ∈ ws ->
  ∃ p file,
    p ∈ getWorkflowPaths env root searchPaths
    ∧ Path.clean file ∧ endsWith file ".ts" = true ∧ startsWith file "_" = false
    ∧ wf_name (lw_definition w) ≠ ""
    ∧ lookup root (lw_filePath w) = Some (File (ImportOk (Some (lw_definition w))))
    ∧ (lw_filePath w = Path.of_segments (Path.segments p ++ [file])
       ∨ ∃ sub, Path.clean sub ∧ startsWith sub "." = false
                ∧ lw_filePath w = Path.of_segments (Path.segments p ++ [sub; file])).
Proof.
  intros Hwf Hlist Hw. unfold listWorkflows in Hlist.
  destruct (fold_left (scan_path env root) (getWorkflowPaths env root searchPaths) (Ok []))
    as [all|msg] eqn:Hfold; [|discriminate].
  injection Hlist as <-. apply dedupe_subset in Hw.
  destruct (scan_paths_origin _ _ _ _ Hfold Hw) as [Hin|(p & found & Hp & Hscan & Hin)];
    [apply elem_of_nil in Hin; contradiction|].
  destruct (scan_origin_clean _ _ _ Hwf Hscan Hin) as (file & Hfile & Hts & Hus & Hl).
  exists p, file. split; [exact Hp|]. split; [exact Hfile|]. split; [exact Hts|].
  split; [exact Hus|].
  assert (Hres : resolve env [p] = p).
  { unfold getWorkflowPaths in Hp.
    apply list_elem_of_In, filter_In in Hp as [Hp _].
    apply in_map_iff in Hp as (q & <- & _). unfold resolve. apply resolve_idempotent. }
  assert (Hfound : ∀ path, loadWorkflowFile env root path = Ok w ->
                     wf_name (lw_definition w) ≠ ""
                     ∧ lookup root (lw_filePath w)
                       = Some (File (ImportOk (Some (lw_definition w))))
                     ∧ lw_filePath w = resolve env [path]).
  { intros path Hload.
    destruct (loadWorkflowFile_Ok _ _ Hload) as (Hpath & _ & _ & Himp & Hname).
    split; [exact Hname|]. split; [|exact Hpath].
    rewrite Hpath. unfold import in Himp.
    destruct (lookup root (resolve env [path])) as [[m| |]|]; try discriminate.
    rewrite Himp. reflexivity. }
  destruct Hl as [Hl|(sub & Hsub & Hdot & Hl)];
    destruct (Hfound _ Hl) as (Hname & Hlook & Hpath);
    (split; [exact Hname|]); (split; [exact Hlook|]);
    rewrite Hpath; unfold resolve in *; rewrite resolve_idempotent.
  - left. rewrite (resolve_one_name _ _ _ Hfile), Hres. reflexivity.
  - right. exists sub. split; [exact Hsub|]. split; [exact Hdot|].
    rewrite (resolve_two_names _ _ _ _ Hsub Hfile), Hres. reflexivity.
Qed.

(** X21: A workflow that [listWorkflows] returns is got again by handing its
    [filePath] to [getWorkflow], whatever search paths that call is
    given. *)
Theorem listed_workflow_reloads searchPaths searchPaths' ws w :
  listWorkflows env root searchPaths = Ok ws -> w ∈ ws ->
  getWorkflow env root (lw_filePath w) searchPaths' = Ok w.
Proof.
  intros Hlist Hw.
  destruct (listed_origin _ _ _ Hlist Hw) as (p & file & _ & _ & _ & Hl).
  assert (Hload : ∃ q, loadWorkflowFile env root q = Ok w).
  { destruct Hl as [Hl|(sub & _ & Hl)]; eexists; exact Hl. }
  destruct Hload as [q Hq]. unfold getWorkflow.
  destruct (loadWorkflowFile_Ok _ _ Hq) as (Hpath & _).
  assert (Hslash : includes (lw_filePath w) "/" = true).
  { rewrite Hpath. apply resolve_starts_with_slash. }
  rewrite Hslash. simpl. eapply loadWorkflowFile_again, Hq.
Qed.

(** *** When listing fails *)

Lemma scan_entries_error scan_sub dir entries acc msg :
  fold_left (scan_entry env root scan_sub dir) entries (Ok acc) = Err msg ->
  ∃ entry, entry ∈ entries ∧ scan_sub (resolve env [dir; dirent_name entry]) = Err msg.
Proof.
  revert acc. induction entries as [|entry entries IH]; intros acc; simpl; [discriminate|].
  assert (Herr : ∀ m, fold_left (scan_entry env root scan_sub dir) entries (Err m) = Err m).
  { intros m. clear. induction entries as [|e es IHes]; simpl; auto. }
  assert (Hlater : ∀ acc',
             fold_left (scan_entry env root scan_sub dir) entries (Ok acc') = Err msg ->
             ∃ entry0, entry0 ∈ entry :: entries
                       ∧ scan_sub (resolve env [dir; dirent_name entry0]) = Err msg).
  { intros acc' H. destruct (IH _ H) as (e & He & Hs). exists e. split; [right|]; auto. }
  destruct (isDirectory entry && negb (startsWith (dirent_name entry) ".")).
  - destruct (scan_sub (resolve env [dir; dirent_name entry])) as [nested|m] eqn:Hs.
    + apply Hlater.
    + rewrite Herr. intros [= ->]. exists entry. split; [left | exact Hs].
  - destruct (isFile entry && endsWith (dirent_name entry) ".ts"
              && negb (startsWith (dirent_name entry) "_")); [|apply Hlater].
    destruct (loadWorkflowFile env root (resolve env [dir; dirent_name entry]));
      apply Hlater.
Qed.

Lemma scan_error dir msg :
  scanDirectory env root dir 2 0 = Err msg -> ∃ d, readdir root d = Err msg.
Proof.
  unfold scanDirectory. simpl.
  destruct (existsSync root dir); simpl; [|discriminate].
  destruct (readdir root dir) as [entries|m] eqn:Hr; [|intros [= ->]; eauto].
  intros Hfold. destruct (scan_entries_error _ _ _ _ _ Hfold) as (e & _ & Hsub).
  destruct (existsSync root (resolve env [dir; dirent_name e])); simpl in Hsub;
    [|discriminate].
  destruct (readdir root (resolve env [dir; dirent_name e])) as [entries'|m] eqn:Hr';
    [|injection Hsub as ->; eauto].
  destruct (scan_entries_error _ _ _ _ _ Hsub) as (e' & _ & Hsub'). discriminate.
Qed.

(** X22: [listWorkflows] rejects only when a directory cannot be read, with
    the error of [readdir]. A workflow file that does not load, or that
    exports no valid definition, is passed over and never makes the
    listing fail. *)
Theorem listWorkflows_fails_on_readdir_only searchPaths :
  match listWorkflows env root searchPaths with
  | Err msg => ∃ dir, readdir root dir = Err msg
  | Ok _ => True
  end.
Proof.
  unfold listWorkflows.
  destruct (fold_left (scan_path env root) (getWorkflowPaths env root searchPaths) (Ok []))
    as [all|msg] eqn:Hfold; [exact I|].
  revert Hfold. generalize (@nil LoadedWorkflow).
  induction (getWorkflowPaths env root searchPaths) as [|p paths IH]; intros acc; simpl;
    [discriminate|].
  destruct (scanDirectory env root p 2 0) as [found|m] eqn:Hp; [apply IH|].
  intros Hfold. assert (E : m = msg).
  { clear -Hfold. induction paths as [|q paths IHp]; simpl in Hfold; [congruence | auto]. }
  subst m. eapply scan_error, Hp.
Qed.

(** X23: What [loadWorkflow] returns for a name answers to that name: it was
    loaded from a file called after the name, or it declares the name; and
    the name it declares is not empty. *)
Theorem loadWorkflow_answers_to_name name searchPaths w :
  loadWorkflow env root name searchPaths = Ok w ->
  wf_name (lw_definition w) ≠ ""
  ∧ ((∃ dirs, lw_filePath w = resolve env (dirs ++ [name +:+ ".ts"]))
     ∨ wf_name (lw_definition w) = name).
Proof.
  unfold loadWorkflow.
  destruct (find_by_filename env root name (getWorkflowPaths env root searchPaths))
    as [r|] eqn:Hfind.
  - intros ->.
    assert (H : ∃ dirs, loadWorkflowFile env root (resolve env (dirs ++ [name +:+ ".ts"]))
                        = Ok w).
    { revert Hfind. generalize (getWorkflowPaths env root searchPaths).
      intros paths. induction paths as [|p paths IH]; simpl; [discriminate|].
      destruct (existsSync root (resolve env [p; name +:+ ".ts"])).
      { intros [= H]. exists [p]. exact H. }
      destruct (readdir root p) as [entries|msg]; [|discriminate].
      destruct (find_nested env root p name entries) as [r|] eqn:Hn; [|exact IH].
      intros [= ->]. clear IH. induction entries as [|e entries IHe]; [discriminate|].
      simpl in Hn.
      destruct (isDirectory e
                && existsSync root (resolve env [p; dirent_name e; name +:+ ".ts"])).
      - injection Hn as Hn. exists [p; dirent_name e]. exact Hn.
      - auto. }
    destruct H as [dirs H]. destruct (loadWorkflowFile_Ok _ _ H) as (Hpath & _ & _ & _ & Hname).
    split; [exact Hname|]. left. exists dirs.
    rewrite Hpath. unfold resolve. apply resolve_idempotent.
  - destruct (listWorkflows env root searchPaths) as [all|msg] eqn:Hlist; [|discriminate].
    destruct (List.find _ all) as [found|] eqn:Hf; [|discriminate].
    intros [= <-]. apply find_some in Hf as [Hin Hname].
    apply String.eqb_eq in Hname. split; [|right; exact Hname].
    apply list_elem_of_In in Hin.
    destruct (listed_origin _ _ _ Hlist Hin) as (p & file & _ & _ & _ & Hl).
    destruct Hl as [Hl|(sub & _ & Hl)]; apply (loadWorkflowFile_Ok _ _ Hl).
Qed.
End LoaderResults.

(** ** The file system: creating directories *)
Section FSFacts.
Import FS.
Implicit Types (n child : node) (segs : list string).


End FSFacts.

(** ** runner.ts: what a run does *)
Section RunnerResults.
Import Runner FS.
Variable compile : string -> list (string * value) -> option string.
Variable env : Env.
Variable child : Child.
Implicit Types (options : RunOptions) (w : World) (definition : WorkflowDefinition)
  (events data rest : list ProcEvent) (prompt outputDir : string).

(** The output directory of a run. *)
Let output_of definition options : string :=
  Path.resolve (env_cwd env)
    [ from_option id (env_cwd env) (PromptBuilder.nonempty (opt_workDir options));
      "output"; wf_name definition ].

(** X24: [runWorkflow] is [getWorkflow] followed by [executeWorkflow] on the
    definition loaded: results and effects are the same. *)
Theorem runWorkflow_executes_loaded nameOrPath options w loaded :
  Loader.getWorkflow env (w_root w) nameOrPath None = Ok loaded ->
  runWorkflow compile env child nameOrPath options w
  = executeWorkflow compile env child (lw_definition loaded) options w.
Proof.
  intros Hload. unfold runWorkflow, executeWorkflow, bind, lift. rewrite Hload.
  unfold ret at 1.
  destruct (negb (valid (Validator.validateParams (lw_definition loaded)
                           (Validator.coerceParams (wf_params (lw_definition loaded))
                              (opt_params options))))); [reflexivity|].
  destruct (PromptBuilder.buildPrompt compile (lw_definition loaded) _ _); reflexivity.
Qed.


(** *** In the foreground *)

Lemma join_empty_cons s (l : list string) : join "" (s :: l) = s +:+ join "" l.
Proof. destruct l; [symmetry; apply sapp_nil_r | reflexivity]. Qed.

#[local] Arguments join : simpl never.

(** The listeners on a run of output events. *)
Lemma listen_data data events stdout stderr outputDir startTime w :
  forallb is_data data = true ->
  listen env (data ++ events) stdout stderr outputDir startTime w
  = listen env events (stdout +:+ join "" (stdout_chunks data))
      (stderr +:+ join "" (stderr_chunks data)) outputDir startTime
      {| w_root := w_root w; w_spawned := w_spawned w; w_console := w_console w;
         w_stdout := w_stdout w ++ stdout_chunks data;
         w_stderr := w_stderr w ++ stderr_chunks data |}.
Proof.
  revert stdout stderr w. induction data as [|e data IH]; intros stdout stderr w Hd.
  - simpl. rewrite !sapp_nil_r, !app_nil_r. destruct w; reflexivity.
  - simpl in Hd. apply andb_prop in Hd as [He Hd].
    destruct e as [chunk|chunk| |]; try discriminate; simpl.
    + rewrite (IH _ _ _ Hd). unfold stdout_write. simpl.
      rewrite join_empty_cons, sapp_assoc, <- app_assoc. reflexivity.
    + rewrite (IH _ _ _ Hd). unfold stderr_write. simpl.
      rewrite join_empty_cons, sapp_assoc, <- app_assoc. reflexivity.
Qed.

(** X26: A run in the foreground is settled by the first [close] or [error]
    event of the child. Until then every chunk the child writes is passed
    on, in order, to the standard output or the standard error of the
    process; nothing is printed on the console. The run succeeds exactly
    when the child closes with code 0; a failed run reports what the child
    wrote on its standard error, or, when it wrote nothing there, the exit
    code; an [error] event reports its message. *)
Theorem foreground_outcome prompt outputDir startTime w data final rest :
  child_events child = data ++ final :: rest ->
  forallb is_data data = true ->
  is_data final = false ->
  runForeground env child prompt outputDir startTime w
  = Returns
      {| res_success :=
           match final with Close (Some 0%Z) => true | _ => false end;
         res_outputDir := outputDir; res_files := no_files;
         res_error :=
           match final with
           | Close (Some 0%Z) => None
           | ProcError message => Some message
           | Close code =>
               Some (if String.eqb (join "" (stderr_chunks data)) ""
                     then "Process exited with code " +:+ from_option pretty "null" code
                     else join "" (stderr_chunks data))
           | _ => None
           end;
         res_duration := Some (env_clock env 1 - startTime)%Z |}
      {| w_root := w_root w;
         w_spawned := w_spawned w ++ [claude_call prompt false];
         w_console := w_console w;
         w_stdout := w_stdout w ++ stdout_chunks data;
         w_stderr := w_stderr w ++ stderr_chunks data |}.
Proof.
  intros Hev Hdata Hfinal.
  unfold runForeground, spawnClaude, bind, spawn, ret. rewrite Hev.
  rewrite (listen_data _ _ _ _ _ _ _ Hdata). rewrite !sapp_nil_l.
  destruct final as [chunk|chunk|code|message]; try discriminate; simpl.
  - destruct code as [[| |]|]; reflexivity.
  - reflexivity.
Qed.

(** X27: A child that neither closes nor reports an error leaves the run
    pending for ever: there is no timeout. Its output is passed on all the
    same. *)
Theorem foreground_pending prompt outputDir startTime w :
  forallb is_data (child_events child) = true ->
  runForeground env child prompt outputDir startTime w
  = Pending
      {| w_root := w_root w;
         w_spawned := w_spawned w ++ [claude_call prompt false];
         w_console := w_console w;
         w_stdout := w_stdout w ++ stdout_chunks (child_events child);
         w_stderr := w_stderr w ++ stderr_chunks (child_events child) |}.
Proof.
  intros Hdata. unfold runForeground, spawnClaude, bind, spawn, ret.
  rewrite <- (app_nil_r (child_events child)) at 1.
  rewrite (listen_data _ _ _ _ _ _ _ Hdata). reflexivity.
Qed.

(** *** Where the output goes *)

Lemma listen_outputDir events stdout stderr outputDir startTime w r w' :
  listen env events stdout stderr outputDir startTime w = Returns r w' ->
  res_outputDir r = outputDir.
Proof.
  revert stdout stderr w. induction events as [|e events IH]; intros stdout stderr w; simpl.
  - discriminate.
  - destruct e as [chunk|chunk|code|message]; simpl; try apply IH.
    + destruct code as [[| |]|]; unfold ret; intros [= <- _]; reflexivity.
    + unfold ret. intros [= <- _]. reflexivity.
Qed.

Lemma run_outputDir (background : bool) prompt outputDir startTime w r w' :
  (if background then runInBackground env child prompt outputDir startTime
   else runForeground env child prompt outputDir startTime) w = Returns r w' ->
  res_outputDir r = outputDir.
Proof.
  destruct background.
  - unfold runInBackground, spawnClaude, bind, spawn, console_log, ret.
    intros [= <- _]. reflexivity.
  - unfold runForeground, spawnClaude, bind, spawn, ret. apply listen_outputDir.
Qed.

Lemma executeWorkflow_outputDir definition options w r w' :
  executeWorkflow compile env child definition options w = Returns r w' ->
  if valid (Validator.coerce_then_validate definition (opt_params options))
  then res_outputDir r = output_of definition options
  else res_outputDir r = "" ∧ res_success r = false.
Proof.
  unfold executeWorkflow, Validator.coerce_then_validate.
  destruct (valid _); cbn [negb].
  2:{ unfold ret. intros [= <- _]. split; reflexivity. }
  destruct (PromptBuilder.buildPrompt compile definition _ _) as [prompt|];
    [|discriminate].
  destruct (from_option id false (opt_dryRun options)).
  { unfold bind, console_log, ret. intros [= <- _]. reflexivity. }
  unfold bind at 1. unfold ensureDir. intros H.
  destruct (negb (existsSync (w_root w) _)).
  - unfold mkdir in H. destruct (mkdirp (w_root w) _); [|discriminate].
    exact (run_outputDir _ _ _ _ _ _ _ H).
  - exact (run_outputDir _ _ _ _ _ _ _ H).
Qed.

(** X29: A workflow whose name is a plain file name (not empty, no [/], not [.]
    or [..]) has its output below the working directory. Every result
    returned for valid parameters, be it of a dry run, of a run in the
    background or of one in the foreground, failed or not, names the
    directory [<workDir>/output/<name>]; a result returned for invalid
    parameters names none and says the run failed. *)
Theorem output_directory_below_work_dir definition options w r w' :
  Path.clean (wf_name definition) ->
  executeWorkflow compile env child definition options w = Returns r w' ->
  if valid (Validator.coerce_then_validate definition (opt_params options))
  then res_outputDir r
       = Path.of_segments
           (Path.segments
              (Path.resolve (env_cwd env)
                 [from_option id (env_cwd env)
                    (PromptBuilder.nonempty (opt_workDir options))])
            ++ ["output"; wf_name definition])
  else res_outputDir r = "" ∧ res_success r = false.
Proof.
  intros Hname Hrun. pose proof (executeWorkflow_outputDir _ _ _ _ _ Hrun) as H.
  destruct (valid _); [|exact H].
  rewrite H. unfold output_of. apply resolve_two_names; [|exact Hname].
  repeat split; discriminate.
Qed.
End RunnerResults.

(** ** The sample tree again *)
Section LoaderResultsExamples.
Import Loader Sample.

Lemma sample_well_formed : FS.well_formed root.
Proof. simpl. unfold Path.clean. repeat (split; try discriminate). Qed.

Lemma listed_workflow_location_witness :
  ∃ p file,
    p ∈ getWorkflowPaths env root None
    ∧ Path.clean file ∧ endsWith file ".ts" = true ∧ startsWith file "_" = false
    ∧ wf_name alpha_local ≠ ""
    ∧ FS.lookup root "/home/u/proj/workflows/qa/first.ts"
      = Some (FS.File (FS.ImportOk (Some alpha_local)))
    ∧ ("/home/u/proj/workflows/qa/first.ts" = Path.of_segments (Path.segments p ++ [file])
       ∨ ∃ sub, Path.clean sub ∧ startsWith sub "." = false
                ∧ "/home/u/proj/workflows/qa/first.ts"
                  = Path.of_segments (Path.segments p ++ [sub; file])).
Proof.
  apply (listed_workflow_location env root None _
           (loaded alpha_local "/home/u/proj/workflows/qa/first.ts"
              "/home/u/proj/workflows/qa") sample_well_formed sample_list).
  left.
Defined.

Lemma listed_workflow_reloads_witness :
  getWorkflow env root "/home/u/proj/workflows/qa/first.ts" (Some [])
  = Ok (loaded alpha_local "/home/u/proj/workflows/qa/first.ts" "/home/u/proj/workflows/qa").
Proof.
  apply (listed_workflow_reloads env root None (Some []) _
           (loaded alpha_local "/home/u/proj/workflows/qa/first.ts"
              "/home/u/proj/workflows/qa") sample_list).
  left.
Defined.

Example load_by_file_name :
  loadWorkflow env root "first" None
  = Ok (loaded alpha_local "/home/u/proj/workflows/qa/first.ts" "/home/u/proj/workflows/qa").
Proof. vm_compute. reflexivity. Qed.

Example load_by_declared_name :
  loadWorkflow env root "beta" None
  = Ok (loaded beta_global "/home/u/.chrome-claude/workflows/b.ts"
          "/home/u/.chrome-claude/workflows").
Proof. vm_compute. reflexivity. Qed.

Lemma loadWorkflow_answers_to_name_witness :
  (wf_name alpha_local ≠ ""
   ∧ ((∃ dirs, "/home/u/proj/workflows/qa/first.ts" = resolve env (dirs ++ ["first.ts"]))
      ∨ wf_name alpha_local = "first"))
  ∧ (wf_name beta_global ≠ ""
     ∧ ((∃ dirs, "/home/u/.chrome-claude/workflows/b.ts" = resolve env (dirs ++ ["beta.ts"]))
        ∨ wf_name beta_global = "beta")).
Proof.
  split.
  - apply (loadWorkflow_answers_to_name env root "first" None _ load_by_file_name).
  - apply (loadWorkflow_answers_to_name env root "beta" None _ load_by_declared_name).
Defined.
End LoaderResultsExamples.

Section RunnerResultsExamples.
Import Runner Sample.

Lemma runWorkflow_executes_loaded_witness :
  runWorkflow Handlebars.render env quiet_child "alpha"
    (request [("url", VString "http://localhost")] None) idle
  = executeWorkflow Handlebars.render env quiet_child alpha_local
      (request [("url", VString "http://localhost")] None) idle.
Proof.
  apply (runWorkflow_executes_loaded Handlebars.render env quiet_child "alpha" _ idle
           (loaded alpha_local "/home/u/proj/workflows/qa/first.ts"
              "/home/u/proj/workflows/qa")).
  vm_compute. reflexivity.
Defined.


Lemma foreground_outcome_witness :
  runForeground env failing_child "prompt" "/out" 1000 idle
  = Returns
      {| res_success := false; res_outputDir := "/out"; res_files := no_files;
         res_error := Some "no such page"; res_duration := Some 250%Z |}
      {| w_root := root; w_spawned := [claude_call "prompt" false]; w_console := [];
         w_stdout := ["opening the page"; "..."]; w_stderr := ["no such "; "page"] |}.
Proof.
  apply (foreground_outcome env failing_child "prompt" "/out" 1000%Z idle
           [StdoutData "opening the page"; StderrData "no such "; StdoutData "...";
            StderrData "page"]
           (Close (Some 1%Z)) [StdoutData "late"]);
    reflexivity.
Defined.

Lemma foreground_pending_witness :
  runForeground env hanging_child "prompt" "/out" 1000 idle
  = Pending
      {| w_root := root; w_spawned := [claude_call "prompt" false]; w_console := [];
         w_stdout := ["waiting"]; w_stderr := ["still waiting"] |}.
Proof. apply (foreground_pending env hanging_child "prompt" "/out" 1000%Z idle). reflexivity. Defined.

Lemma output_directory_below_work_dir_witness :
  match
    executeWorkflow Handlebars.render env failing_child alpha_local
      {| opt_params := [("url", VString "http://localhost")]; opt_background := Some false;
         opt_workDir := Some "runs/../work"; opt_dryRun := None |} idle
  with
  | Returns r _ => res_outputDir r = "/home/u/proj/work/output/alpha"
  | _ => False
  end.
Proof.
  destruct (executeWorkflow Handlebars.render env failing_child alpha_local _ idle)
    as [r w'|msg w'|w'] eqn:E.
  - assert (Hname : Path.clean (wf_name alpha_local)).
    { repeat split; discriminate. }
    exact (output_directory_below_work_dir _ _ _ _ _ _ _ _ Hname E).
  - vm_compute in E. discriminate E.
  - vm_compute in E. discriminate E.
Defined.

(** A name that climbs with [..] takes the output out of the [output]
    directory of the working directory. *)
Example climbing_name_leaves_output :
  ∃ w',
    executeWorkflow Handlebars.render env quiet_child
      (Examples.workflow "../../elsewhere" [] "Do it") (request [] (Some true)) idle
    = Returns
        {| res_success := true; res_outputDir := "/home/u/elsewhere";
           res_files := no_files; res_error := None; res_duration := Some 250%Z |} w'.
Proof. eexists. vm_compute. reflexivity. Qed.
End RunnerResultsExamples.
